(** * runexcl: CPU masks, the exclusive-cpuset allocator, the frequency
      controller and the launcher, embedded from the C++ sources.

    Layout: Part I holds the model (one block per source file) and, at its
    end, the vocabulary of the statements; Part II the lemmas and the
    theorems about the model. *)

From Stdlib Require Import ZArith Lia Bool List Ascii String.
From Stdlib Require Import PrimFloat FloatOps FloatAxioms SpecFloat Uint63.
From stdpp Require Import gmap strings.
Import ListNotations.

#[local] Unset Default Proof Using.
#[local] Open Scope Z_scope.

(* ===================================================================== *)
(** * Part I.  The model                                                  *)
(* ===================================================================== *)

(** ** Exceptions and outcomes

    The standard exception classes the sources throw and catch, with the
    derivation order of <stdexcept> and <system_error>. *)

Inductive exn_class :=
| std_exception
| logic_error
| invalid_argument
| out_of_range
| runtime_error
| range_error
| system_error
| bad_alloc.

Record exception := Exn { exn_cls : exn_class; what : string }.

(** [parent c] is the direct base class of [c]. *)
Definition parent (c : exn_class) : option exn_class :=
  match c with
  | std_exception => None
  | logic_error => Some std_exception
  | invalid_argument => Some logic_error
  | out_of_range => Some logic_error
  | runtime_error => Some std_exception
  | range_error => Some runtime_error
  | system_error => Some runtime_error
  | bad_alloc => Some std_exception
  end.

Definition exn_class_eqb (a b : exn_class) : bool :=
  match a, b with
  | std_exception, std_exception | logic_error, logic_error
  | invalid_argument, invalid_argument | out_of_range, out_of_range
  | runtime_error, runtime_error | range_error, range_error
  | system_error, system_error | bad_alloc, bad_alloc => true
  | _, _ => false
  end.

(** [catches handler thrown]: a handler [catch (handler&)] takes an exception
    of dynamic class [thrown] when [thrown] is [handler] or derives from it.
    The hierarchy is three levels deep. *)
Definition catches (handler thrown : exn_class) : bool :=
  exn_class_eqb handler thrown ||
  match parent thrown with
  | None => false
  | Some p =>
      exn_class_eqb handler p ||
      match parent p with
      | None => false
      | Some q => exn_class_eqb handler q
      end
  end.

(** What a piece of code does: it returns, it throws, it ends the process
    through [std::terminate], or (for a model of a loop that ran out of its
    iteration bound, or of a call that blocks for ever) it has not finished. *)
Inductive outcome (A : Type) :=
| Ok (a : A)
| Throw (e : exception)
| Terminate
| Unfinished.
Arguments Ok {A} a.
Arguments Throw {A} e.
Arguments Terminate {A}.
Arguments Unfinished {A}.

Definition throws {A} (c : exn_class) (r : outcome A) : Prop :=
  exists msg, r = Throw (Exn c msg).

Definition is_throw {A} (r : outcome A) : bool :=
  match r with Throw _ => true | _ => false end.

(** ** Characters and decimal numbers (libc / libstdc++ helpers) *)

Definition chr (c : ascii) : Z := Z.of_N (N_of_ascii c).

Definition NUL : ascii := Ascii.zero.

Definition isdigit (c : ascii) : bool := (48 <=? chr c) && (chr c <=? 57).

(** [isspace] in the "C" locale: space, \t, \n, \v, \f, \r. *)
Definition isspace (c : ascii) : bool :=
  (chr c =? 32) || ((9 <=? chr c) && (chr c <=? 13)).

Definition digit_val (c : ascii) : Z := chr c - 48.

Definition digit_char (d : Z) : ascii := ascii_of_N (Z.to_N (d + 48)).

(** [*p] for a C string held as the list of the characters from [p] on: the
    terminating NUL is the end of the list. *)
Definition cur (p : list ascii) : ascii :=
  match p with
  | [] => NUL
  | c :: _ => c
  end.

Fixpoint skip_space (s : list ascii) : list ascii :=
  match s with
  | c :: s' => if isspace c then skip_space s' else s
  | [] => []
  end.

(** The longest prefix of decimal digits, and what follows it. *)
Fixpoint span_digits (s : list ascii) : list ascii * list ascii :=
  match s with
  | c :: s' =>
      if isdigit c then let '(ds, r) := span_digits s' in (c :: ds, r)
      else ([], s)
  | [] => ([], [])
  end.

Definition decimal (ds : list ascii) : Z :=
  fold_left (fun acc c => acc * 10 + digit_val c) ds 0.

Definition ULONG_MAX : Z := 2 ^ 64 - 1.
Definition INT_MAX : Z := 2 ^ 31 - 1.
Definition INT_MIN : Z := - 2 ^ 31.
Definition CPU_SETSIZE : Z := 1024.

(** [strtoul(nptr, &end, 10)] on an LP64 target: optional white space, an
    optional sign, decimal digits.  Without digits there is no conversion and
    [end = nptr].  A magnitude above ULONG_MAX gives ULONG_MAX; a minus sign
    negates the value in unsigned long. *)
Definition strtoul (nptr : list ascii) : Z * list ascii :=
  let s := skip_space nptr in
  let '(neg, s1) :=
    match s with
    | c :: s' =>
        if Ascii.eqb c "-" then (true, s')
        else if Ascii.eqb c "+" then (false, s')
        else (false, s)
    | [] => (false, s)
    end in
  let '(ds, rest) := span_digits s1 in
  match ds with
  | [] => (0, nptr)
  | _ =>
      let v := decimal ds in
      (if v >? ULONG_MAX then ULONG_MAX
       else if neg then (2 ^ 64 - v) mod 2 ^ 64
       else v, rest)
  end.

(** Whether that call sets [errno] to ERANGE. *)
Definition strtoul_erange (nptr : list ascii) : bool :=
  let s := skip_space nptr in
  let s1 :=
    match s with
    | c :: s' => if Ascii.eqb c "-" || Ascii.eqb c "+" then s' else s
    | [] => s
    end in
  decimal (fst (span_digits s1)) >? ULONG_MAX.

(** [std::to_string] of a non-negative integer: its decimal digits, most
    significant first.  [k] bounds the number of digits. *)
Fixpoint digits_of (k : nat) (n : Z) (acc : list ascii) : list ascii :=
  match k with
  | O => acc
  | S k' =>
      let acc' := digit_char (n mod 10) :: acc in
      if n <? 10 then acc' else digits_of k' (n / 10) acc'
  end.

Definition std_to_string (n : Z) : list ascii :=
  if n <? 0 then "-"%char :: digits_of 20 (- n) []
  else digits_of 20 n [].

(** ** CPUSet.hpp / CPUSet.cpp

    [getMaxCPUs]: CPU_SETSIZE unless /sys/devices/system/cpu/kernel_max holds
    a larger number; [kernel_max] is the number read there, if any. *)
Definition getMaxCPUs (kernel_max : option Z) : Z :=
  match kernel_max with
  | None => CPU_SETSIZE
  | Some n =>
      let n := if n >? INT_MAX then INT_MAX else n in
      if n >? CPU_SETSIZE then n else CPU_SETSIZE
  end.

(** A [cpu_set_t] is a bit vector; it is held as the integer whose binary
    digits are the bits, bit [n] standing for CPU [n]. *)
Definition CPUSet := Z.

Module CPUSet.

Definition zero : CPUSet := 0.

(** CPU_SET_S, CPU_CLR_S, CPU_ISSET_S *)
Definition set (m : CPUSet) (n : Z) : CPUSet := Z.lor m (Z.shiftl 1 n).
Definition clr (m : CPUSet) (n : Z) : CPUSet := Z.ldiff m (Z.shiftl 1 n).
Definition is_set (m : CPUSet) (n : Z) : bool := Z.testbit m n.

(** CPU_AND_S, CPU_OR_S, CPU_XOR_S, CPU_EQUAL_S *)
Definition and (lhs rhs : CPUSet) : CPUSet := Z.land lhs rhs.
Definition or (lhs rhs : CPUSet) : CPUSet := Z.lor lhs rhs.
Definition xor (lhs rhs : CPUSet) : CPUSet := Z.lxor lhs rhs.
Definition eq (lhs rhs : CPUSet) : bool := Z.eqb lhs rhs.
Definition neq (lhs rhs : CPUSet) : bool := negb (eq lhs rhs).

Section WithMaxCpus.

Variable MaxCpus : Z.

(** The masks the class can hold: no bit at or above [MaxCpus]. *)
Definition valid (m : CPUSet) : Prop := 0 <= m < 2 ^ MaxCpus.

(** CPU_ALLOC_SIZE: whole 64-bit words, in bytes. *)
Definition mSize : Z := 8 * ((MaxCpus + 63) / 64).

(** CPU_COUNT_S: the number of bits set in the [mSize] bytes. *)
Fixpoint count_loop (k : nat) (i : Z) (m : CPUSet) : Z :=
  match k with
  | O => 0
  | S k' => (if Z.testbit m i then 1 else 0) + count_loop k' (i + 1) m
  end.

Definition count (m : CPUSet) : Z := count_loop (Z.to_nat (8 * mSize)) 0 m.

Definition empty (m : CPUSet) : bool := 0 =? count m.

(** [for (int i = 0; i < mMaxCPUs; ++i) if (is_set(i)) return i; return -1;]
    The first argument bounds the iterations that are left. *)
Fixpoint first_loop (k : nat) (i : Z) (m : CPUSet) : Z :=
  match k with
  | O => -1
  | S k' =>
      if i <? MaxCpus then
        if is_set m i then i else first_loop k' (i + 1) m
      else -1
  end.

Definition first (m : CPUSet) : Z := first_loop (Z.to_nat MaxCpus) 0 m.

(** [for (int i = mMaxCPUs - 1; i >= 0; --i) if (is_set(i)) return i;] *)
Fixpoint last_loop (k : nat) (i : Z) (m : CPUSet) : Z :=
  match k with
  | O => -1
  | S k' =>
      if i >=? 0 then
        if is_set m i then i else last_loop k' (i - 1) m
      else -1
  end.

Definition last (m : CPUSet) : Z := last_loop (Z.to_nat MaxCpus) (MaxCpus - 1) m.

(** [while (start <= cpu) this->set(start++);] *)
Fixpoint set_range (k : nat) (start cpu : Z) (m : CPUSet) : CPUSet :=
  match k with
  | O => m
  | S k' =>
      if start <=? cpu then set_range k' (start + 1) cpu (set m start)
      else m
  end.

Definition set_from_to (start cpu : Z) (m : CPUSet) : CPUSet :=
  set_range (Z.to_nat (cpu - start + 1)) start cpu m.

Definition str (s : string) : list ascii := list_ascii_of_string s.

(** The character at [end] as [std::to_string] sees it: a signed char
    promoted to int. *)
Definition char_to_int (c : ascii) : Z :=
  if chr c >=? 128 then chr c - 256 else chr c.

Definition msg (l : list ascii) : string := string_of_list_ascii l.

(** [CPUSet::parse(char const* str)].  The state of its [while (true)] loop
    is [start], [pos] and the set; [at_str] says whether [pos == str], which
    is what [end == str] amounts to once [end == pos] is known.  [continue]
    stands for the next iteration.

    First the second half of the loop body: the [switch] on the character at
    [end], the test for the end of the string and [pos = ++end]. *)
Definition parse_switch
    (continue : bool -> Z -> list ascii -> CPUSet -> outcome CPUSet)
    (start cpu : Z) (end_ : list ascii) (m : CPUSet) : outcome CPUSet :=
  let c := cur end_ in
  if Ascii.eqb c NUL || Ascii.eqb c "," then
    if -1 =? start then
      let m := set m cpu in
      if Ascii.eqb NUL c then Ok m
      else continue false start (tl end_) m
    else if start >? cpu then
      Throw (Exn out_of_range
               (msg (str "Invalid CPU range " ++ std_to_string start ++
                     str "-" ++ std_to_string cpu ++
                     str " in cpuset string")))
    else
      let m := set_from_to start cpu m in
      if Ascii.eqb NUL c then Ok m
      else continue false (-1) (tl end_) m
  else if Ascii.eqb c "-" then
    if negb (-1 =? start) then
      Throw (Exn invalid_argument "Invalid syntax in cpuset string")
    else continue false cpu (tl end_) m
  else
    Throw (Exn invalid_argument
             (msg (str "Invalid character '" ++
                   std_to_string (char_to_int c) ++
                   str "' in cpuset string"))).

(** The loop body: [strtoul], the checks on its result, then the switch. *)
Definition parse_body
    (continue : bool -> Z -> list ascii -> CPUSet -> outcome CPUSet)
    (at_str : bool) (start : Z) (pos : list ascii) (m : CPUSet)
    : outcome CPUSet :=
  let '(n, end_) := strtoul pos in
  if (length end_ =? length pos)%nat then
    if Ascii.eqb NUL (cur end_) && at_str then Ok m
    else if -1 =? start then
      Throw (Exn invalid_argument "Missing CPU number in cpuset string")
    else
      Throw (Exn invalid_argument "Missing end of range in cpuset string")
  else if n >=? MaxCpus then
    Throw (Exn range_error
             (msg (str "CPU #" ++ std_to_string n ++
                   str " out of range in cpuset string")))
  else parse_switch continue start n end_ m.

Fixpoint parse_loop (fuel : nat) (at_str : bool) (start : Z)
    (pos : list ascii) (m : CPUSet) : outcome CPUSet :=
  match fuel with
  | O => Unfinished
  | S fuel' => parse_body (parse_loop fuel') at_str start pos m
  end.

(** The set is cleared first; every iteration consumes a character, so the
    length of the string bounds the iterations. *)
Definition parse (s : list ascii) : outcome CPUSet :=
  parse_loop (S (length s)) true (-1) s zero.

(** The inner loop of [to_string]:
    [for (n += 1; n < mMaxCPUs; ++n) if (!is_set(n)) break;], entered with
    [n] already incremented; the result is the final [n]. *)
Fixpoint run_end (k : nat) (n : Z) (m : CPUSet) : Z :=
  match k with
  | O => n
  | S k' =>
      if n <? MaxCpus then
        if negb (is_set m n) then n else run_end k' (n + 1) m
      else n
  end.

(** [CPUSet::to_string() const]: the outer [for (int n = 0; n < mMaxCPUs; ++n)]
    with its state [n], [first] and [result].  The counter is held as an
    integer without a bound here; [to_string_int] below is the same loop
    with the counter held as an [int]. *)
Fixpoint to_string_loop (k : nat) (n : Z) (first : bool)
    (result : list ascii) (m : CPUSet) : list ascii :=
  match k with
  | O => result
  | S k' =>
      if n <? MaxCpus then
        if is_set m n then
          let start := n in
          let n := run_end k' (n + 1) m in
          let result := if first then result else result ++ [","%char] in
          let result := result ++ std_to_string start in
          let result :=
            if negb (start =? n - 1)
            then (result ++ ["-"%char]) ++ std_to_string (n - 1)
            else result in
          to_string_loop k' (n + 1) false result m
        else to_string_loop k' (n + 1) first result m
      else result
  end.

Definition to_string (m : CPUSet) : list ascii :=
  to_string_loop (Z.to_nat MaxCpus) 0 true [] m.

(** [++n] and [n += 1] on an [int]: there is no result beyond INT_MAX, where
    the behaviour of the program is undefined. *)
Definition int_succ (n : Z) : option Z :=
  if n <? INT_MAX then Some (n + 1) else None.

(** The two loops of [to_string] with every increment of [n] done on an
    [int]; no result when an increment overflows. *)
Fixpoint run_end_int (k : nat) (n : Z) (m : CPUSet) : option Z :=
  match k with
  | O => Some n
  | S k' =>
      if n <? MaxCpus then
        if negb (is_set m n) then Some n
        else
          match int_succ n with
          | Some n => run_end_int k' n m
          | None => None
          end
      else Some n
  end.

Fixpoint to_string_loop_int (k : nat) (n : Z) (first : bool)
    (result : list ascii) (m : CPUSet) : option (list ascii) :=
  match k with
  | O => Some result
  | S k' =>
      if n <? MaxCpus then
        if is_set m n then
          let start := n in
          match int_succ n with
          | Some n =>
              match run_end_int k' n m with
              | Some n =>
                  let result := if first then result else result ++ [","%char] in
                  let result := result ++ std_to_string start in
                  let result :=
                    if negb (start =? n - 1)
                    then (result ++ ["-"%char]) ++ std_to_string (n - 1)
                    else result in
                  match int_succ n with
                  | Some n => to_string_loop_int k' n false result m
                  | None => None
                  end
              | None => None
              end
          | None => None
          end
        else
          match int_succ n with
          | Some n => to_string_loop_int k' n first result m
          | None => None
          end
      else Some result
  end.

Definition to_string_int (m : CPUSet) : option (list ascii) :=
  to_string_loop_int (Z.to_nat MaxCpus) 0 true [] m.

End WithMaxCpus.
End CPUSet.

(** ** std::istream, as far as [operator>>(std::istream&, CPUSet&)] uses it

    The characters read so far (the last one first, for [unget]), the
    characters still to come, and the three state bits. *)
Record istream := IStream {
  consumed : list ascii;
  pending : list ascii;
  eofbit : bool;
  failbit : bool;
  badbit : bool
}.

Module ios.

Definition of_chars (s : list ascii) : istream := IStream [] s false false false.

Definition good (ins : istream) : bool :=
  negb (eofbit ins) && negb (failbit ins) && negb (badbit ins).
Definition fail (ins : istream) : bool := failbit ins || badbit ins.
Definition eof (ins : istream) : bool := eofbit ins.
Definition bad (ins : istream) : bool := badbit ins.

(** [setstate(state)]: the given bits are added. *)
Definition setstate (e f b : bool) (ins : istream) : istream :=
  IStream (consumed ins) (pending ins)
          (eofbit ins || e) (failbit ins || f) (badbit ins || b).

(** [clear(state)]: the state becomes exactly the given bits. *)
Definition clear (e f b : bool) (ins : istream) : istream :=
  IStream (consumed ins) (pending ins) e f b.

(** Extract and discard white space. *)
Fixpoint ws (before after : list ascii) : list ascii * list ascii :=
  match after with
  | c :: after' => if isspace c then ws (c :: before) after' else (before, after)
  | [] => (before, [])
  end.

(** [istream::sentry(in, noskipws)].  A stream that is not good gets failbit;
    with skipws, white space is discarded and reaching the end of the input
    sets failbit and eofbit. *)
Definition sentry (noskipws : bool) (ins : istream) : bool * istream :=
  if negb (good ins) then (false, setstate false true false ins)
  else if noskipws then (true, ins)
  else
    let '(b, a) := ws (consumed ins) (pending ins) in
    let ins := IStream b a (eofbit ins) (failbit ins) (badbit ins) in
    match a with
    | [] => (false, setstate true true false ins)
    | _ => (true, ins)
    end.

(** [in >> n] for an [int n]: sentry, then [num_get]: an optional sign and
    decimal digits are taken from the input; reaching the end of the input
    sets eofbit; no digit, or a value outside of int, sets failbit (the value
    stored is then 0, INT_MIN or INT_MAX). *)
Definition read_int (ins : istream) : istream * Z :=
  let '(ok, ins) := sentry false ins in
  if ok then
    let '(neg, sign, s1) :=
      match pending ins with
      | c :: s' =>
          if Ascii.eqb c "-" then (true, [c], s')
          else if Ascii.eqb c "+" then (false, [c], s')
          else (false, [], pending ins)
      | [] => (false, [], [])
      end in
    let '(ds, rest) := span_digits s1 in
    let ins := IStream (rev ds ++ sign ++ consumed ins) rest
                      (eofbit ins || match rest with [] => true | _ => false end)
                      (failbit ins) (badbit ins) in
    match ds with
    | [] => (setstate false true false ins, 0)
    | _ =>
        let v := if neg then - decimal ds else decimal ds in
        if v <? INT_MIN then (setstate false true false ins, INT_MIN)
        else if v >? INT_MAX then (setstate false true false ins, INT_MAX)
        else (ins, v)
    end
  else (ins, 0).

(** [in.get()]: [None] is [traits_type::eof()]. *)
Definition get (ins : istream) : istream * option ascii :=
  let '(ok, ins) := sentry true ins in
  if ok then
    match pending ins with
    | c :: a =>
        (IStream (c :: consumed ins) a (eofbit ins) (failbit ins) (badbit ins),
         Some c)
    | [] => (setstate true true false ins, None)
    end
  else (ins, None).

(** [in.unget()]: eofbit is cleared first; without a character to put back
    badbit is set. *)
Definition unget (ins : istream) : istream :=
  let ins := clear false (failbit ins) (badbit ins) ins in
  let '(ok, ins) := sentry true ins in
  if ok then
    match consumed ins with
    | c :: b => IStream b (c :: pending ins) (eofbit ins) (failbit ins) (badbit ins)
    | [] => setstate false false true ins
    end
  else ins.

End ios.

(** ** [std::istream& operator>>(std::istream& in, CPUSet& set)] *)
Section StreamExtraction.

Variable MaxCpus : Z.

Definition is_char (c : option ascii) (x : ascii) : bool :=
  match c with
  | Some y => Ascii.eqb y x
  | None => false
  end.

Definition is_eof (c : option ascii) : bool :=
  match c with
  | Some _ => false
  | None => true
  end.

(** The body of the [while (in.good())] loop, entered with [in.good()]; the
    result is the state in which control reaches the label [done].  [_set] is
    the local set under construction, [continue] the next test of the loop
    condition. *)
Definition extract_body
    (continue : Z -> istream -> CPUSet -> option (istream * CPUSet))
    (start : Z) (ins : istream) (_set : CPUSet)
    : option (istream * CPUSet) :=
  let '(ins, cpu) := ios.read_int ins in
  if ios.fail ins then Some (ins, _set)
  else if (cpu <? 0) || (cpu >=? MaxCpus) then
    Some (ios.setstate false true false ins, _set)
  else
    (* what follows once the character after the number is known *)
    let after_number := fun (ins : istream) (c : option ascii) =>
      if is_char c "-" then
        if negb (-1 =? start) then
          continue start (ios.setstate false true false ins) _set
        else continue cpu ins _set
      else
        let '(ins, _set, start) :=
          if -1 =? start then (ins, CPUSet.set _set cpu, start)
          else if start >? cpu then
            (ios.setstate false true false ins, _set, start)
          else (ins, CPUSet.set_from_to start cpu _set, -1) in
        if negb (is_char c ",") && negb (is_eof c) then
          Some (ios.unget ins, _set)
        else continue start ins _set in
    if ios.eof ins then after_number ins None
    else
      let '(ins, c) := ios.get ins in
      if ios.fail ins then Some (ins, _set)
      else after_number ins c.

Fixpoint extract_loop (fuel : nat) (start : Z) (ins : istream)
    (_set : CPUSet) : option (istream * CPUSet) :=
  match fuel with
  | O => None
  | S fuel' =>
      if ios.good ins then extract_body (extract_loop fuel') start ins _set
      else Some (ins, _set)
  end.

(** The whole operator: the stream afterwards and the value of [set]. *)
Definition extract (ins : istream) (set : CPUSet) : option (istream * CPUSet) :=
  let _set := CPUSet.zero in
  let '(ok, ins) := ios.sentry false ins in
  let at_done :=
    if ok then extract_loop (S (length (pending ins))) (-1) ins _set
    else Some (if ios.eof ins then ios.clear true false false ins else ins, _set) in
  match at_done with
  | Some (ins, _set) => Some (ins, if negb (ios.fail ins) then _set else set)
  | None => None
  end.

End StreamExtraction.

(** ** The list form, as the specification words it

    "A comma-separated sequence of decimals and inclusive ranges a-b with
    a <= b"; the empty string is the empty sequence.  An item holds its numbers
    as they are written. *)
Inductive item :=
| Single (a : list ascii)
| Range (a b : list ascii).

Definition render_item (it : item) : list ascii :=
  match it with
  | Single a => a
  | Range a b => a ++ "-"%char :: b
  end.

Definition render_tail (its : list item) : list ascii :=
  flat_map (fun it => ","%char :: render_item it) its.

Definition render (its : list item) : list ascii :=
  match its with
  | [] => []
  | it :: its' => render_item it ++ render_tail its'
  end.

Definition all_digits (ds : list ascii) : Prop :=
  Forall (fun c => isdigit c = true) ds.

(** A decimal CPU index below [MaxCpus]. *)
Definition cpu_number (MaxCpus : Z) (ds : list ascii) : Prop :=
  all_digits ds /\ ds <> [] /\ decimal ds < MaxCpus.

Definition valid_item (MaxCpus : Z) (it : item) : Prop :=
  match it with
  | Single a => cpu_number MaxCpus a
  | Range a b =>
      cpu_number MaxCpus a /\ cpu_number MaxCpus b /\ decimal a <= decimal b
  end.

(** The mask an item list stands for. *)
Definition add_item (m : CPUSet) (it : item) : CPUSet :=
  match it with
  | Single a => CPUSet.set m (decimal a)
  | Range a b => CPUSet.set_from_to (decimal a) (decimal b) m
  end.

Definition mask_of (its : list item) : CPUSet := fold_left add_item its CPUSet.zero.


(** ** The world outside of the process

    The cgroup and cpufreq pseudo-files with their contents, the cgroup
    directories, what the kernel answers, and what the process leaves behind
    (its writes in order, its lines on stderr, the objects it allocated). *)

(** A [CPUPolicy] object; [mLowestNonlinearFreq] exists in the
    [CPUAMDPStatePolicy] subclass only. *)
Record CPUPolicy := Policy {
  pPath : string;
  mScalingGovernor : string;
  mScalingSetSpeed : string;
  mScalingMaxFreq : Z;
  mScalingMinFreq : Z;
  mLowestNonlinearFreq : option Z
}.

(** A [CPUPerformanceDriver] object; the [CPUAMDPStatePerformanceDriver]
    subclass adds [mStatus].  [mPolicies] holds pointers. *)
Inductive driver_class := BaseDriver | AMDPStateDriver.

Record CPUPerformanceDriver := Driver {
  dClass : driver_class;
  mPolicies : list N;
  mStatus : string
}.

Inductive object :=
| PolicyObject (p : CPUPolicy)
| DriverObject (d : CPUPerformanceDriver).

Record World := mkWorld {
  files : gmap string string;        (* pseudo-files and their contents *)
  dirs : gset string;                (* directories that exist *)
  refused : gset string;             (* paths on which every call fails *)
  partition_reply : string -> string;
    (* what cpuset.cpus.partition shows once a type has been written to it *)
  cpufreq_entries : list (string * bool);
    (* the entries of the cpufreq directory: name, is a directory *)
  clone3_result : Z;                 (* pid of the child, or -1 *)
  waitpid_result : Z;
  cgroup_events : list string;
    (* the first line of cgroup.events at each successive read *)
  written : list (string * string);  (* successful writes, latest first *)
  stderr : list string;              (* lines on std::cerr, latest first *)
  heap : gmap N object;              (* objects created with new *)
  strerror_errno : string -> string
    (* strerror(errno) after a call that failed: by the path the call was
       made on, or by the name of the system call when it takes none *)
}.

Definition with_files (f : gmap string string) (w : World) : World :=
  mkWorld f (dirs w) (refused w) (partition_reply w) (cpufreq_entries w)
          (clone3_result w) (waitpid_result w) (cgroup_events w)
          (written w) (stderr w) (heap w)
          (strerror_errno w).

Definition with_dirs (d : gset string) (w : World) : World :=
  mkWorld (files w) d (refused w) (partition_reply w) (cpufreq_entries w)
          (clone3_result w) (waitpid_result w) (cgroup_events w)
          (written w) (stderr w) (heap w)
          (strerror_errno w).

Definition with_events (e : list string) (w : World) : World :=
  mkWorld (files w) (dirs w) (refused w) (partition_reply w) (cpufreq_entries w)
          (clone3_result w) (waitpid_result w) e
          (written w) (stderr w) (heap w)
          (strerror_errno w).

Definition with_written (l : list (string * string)) (w : World) : World :=
  mkWorld (files w) (dirs w) (refused w) (partition_reply w) (cpufreq_entries w)
          (clone3_result w) (waitpid_result w) (cgroup_events w)
          l (stderr w) (heap w) (strerror_errno w).

Definition with_stderr (l : list string) (w : World) : World :=
  mkWorld (files w) (dirs w) (refused w) (partition_reply w) (cpufreq_entries w)
          (clone3_result w) (waitpid_result w) (cgroup_events w)
          (written w) l (heap w) (strerror_errno w).

Definition with_heap (h : gmap N object) (w : World) : World :=
  mkWorld (files w) (dirs w) (refused w) (partition_reply w) (cpufreq_entries w)
          (clone3_result w) (waitpid_result w) (cgroup_events w)
          (written w) (stderr w) h (strerror_errno w).

(** Code that acts on the world and may throw. *)
Definition M (A : Type) : Type := World -> outcome A * World.

Definition ret {A} (a : A) : M A := fun w => (Ok a, w).

Definition bind {A B} (m : M A) (k : A -> M B) : M B := fun w =>
  match m w with
  | (Ok a, w') => k a w'
  | (Throw e, w') => (Throw e, w')
  | (Terminate, w') => (Terminate, w')
  | (Unfinished, w') => (Unfinished, w')
  end.

Definition throw {A} (c : exn_class) (what : string) : M A :=
  fun w => (Throw (Exn c what), w).

Definition rethrow {A} (e : exception) : M A := fun w => (Throw e, w).

(** The value of a computation that does not touch the world. *)
Definition lift {A} (r : outcome A) : M A := fun w => (r, w).

Notation "'do' x <- m ; k" := (bind m (fun x => k))
  (at level 10, x name, m at level 100, k at level 200,
   format "'[v' 'do'  x  <-  m ;  '/' k ']'").
Notation "'do_' m ; k" := (bind m (fun _ => k))
  (at level 10, m at level 100, k at level 200,
   format "'[v' 'do_'  m ;  '/' k ']'").

(** [try { body } catch (handler&) { h }] with a single handler. *)
Definition try_catch {A} (body : M A) (handler : exn_class)
    (h : exception -> M A) : M A := fun w =>
  match body w with
  | (Throw e, w') => if catches handler (exn_cls e) then h e w' else (Throw e, w')
  | r => r
  end.

(** [try { body } catch (...) { h }] *)
Definition try_catch_all {A} (body : M A) (h : exception -> M A) : M A :=
  fun w =>
    match body w with
    | (Throw e, w') => h e w'
    | r => r
    end.

(** [std::cerr << line << '\n'] *)
Definition cerr (line : string) : M unit :=
  fun w => (Ok tt, with_stderr (line :: stderr w) w).

Definition dquote : string := String (ascii_of_nat 34) EmptyString.
Definition newline : ascii := ascii_of_nat 10.

(** [is >> std::string]: leading white space is skipped, the characters up
    to the next white space are taken. *)
Fixpoint take_token (s : list ascii) : list ascii :=
  match s with
  | c :: s' => if isspace c then [] else c :: take_token s'
  | [] => []
  end.

Definition first_token (content : string) : string :=
  CPUSet.msg (take_token (skip_space (CPUSet.str content))).

(** What [is >> std::string] leaves in the stream behind the token. *)
Fixpoint drop_token (s : list ascii) : list ascii :=
  match s with
  | c :: s' => if isspace c then s else drop_token s'
  | [] => []
  end.

(** ** std::system_error

    [std::system_error(errno, std::system_category(), text)]: what() is the
    text, a colon, a blank and strerror(errno).  [call] is the call that
    failed and set errno. *)
Definition system_error_of (w : World) (call text : string) : exception :=
  Exn system_error (text +:+ ": " +:+ strerror_errno w call).

Definition throw_system_error {A} (call text : string) : M A :=
  fun w => (Throw (system_error_of w call text), w).

(** ** sysfs.hpp / sysfs.cpp *)

(** [sysfs_read]: a file that cannot be opened leaves the stream failed and
    not at its end, which throws; an empty file gives the empty string. *)
Definition sysfs_read (path : string) : M string := fun w =>
  match files w !! path with
  | Some content =>
      if decide (path ∈ refused w) then
        throw_system_error path
          ("Could not read from " +:+ dquote +:+ path +:+ dquote) w
      else (Ok (first_token content), w)
  | None =>
      throw_system_error path
        ("Could not read from " +:+ dquote +:+ path +:+ dquote) w
  end.

(** [sysfs_write]: the text of [value] is written to the file through a
    [std::ofstream].  The files are pseudo-files of the kernel: opening one
    for writing does not empty it, and it shows what was written to it
    last.  For the empty text [file << value] issues no write at all, so
    the file keeps its content (the list form of the empty set is the empty
    text: an empty set cannot be written).  [written] records the writes
    that were issued. *)
Definition sysfs_write (path value : string) : M unit := fun w =>
  if decide (path ∈ refused w) then
    throw_system_error path
      ("Could not write to " +:+ dquote +:+ path +:+ dquote) w
  else if String.eqb value EmptyString then (Ok tt, w)
  else
    (Ok tt, with_written ((path, value) :: written w)
              (with_files (<[path := value]> (files w)) w)).

(** [sysfs_change]: the old value is read and the new one written through
    one [std::fstream].  [file >> old] sets eofbit when the token runs up
    to the end of the file, and failbit as well when there is no token;
    neither makes [sysfs_change] throw at this point.  [file << value] then
    writes nothing, because the stream is not good; and [file.fail()]
    behind [close] throws only when failbit is set.  So the new value is
    written exactly when white space follows the old one. *)
Definition sysfs_change (path value : string) : M string := fun w =>
  match files w !! path with
  | Some content =>
      if decide (path ∈ refused w) then
        throw_system_error path
          ("Could not read from " +:+ dquote +:+ path +:+ dquote) w
      else
        let chars := skip_space (CPUSet.str content) in
        match take_token chars, drop_token chars with
        | [], _ =>
            throw_system_error path
              ("Could not write to " +:+ dquote +:+ path +:+ dquote) w
        | _, [] => (Ok (first_token content), w)
        | _, _ =>
            if String.eqb value EmptyString then (Ok (first_token content), w)
            else
              (Ok (first_token content),
               with_written ((path, value) :: written w)
                 (with_files (<[path := value]> (files w)) w))
        end
  | None =>
      throw_system_error path
        ("Could not read from " +:+ dquote +:+ path +:+ dquote) w
  end.

(** ** CPUCGroup.hpp / CPUCGroup.cpp *)

Definition CGROUP_ROOT : string := "/sys/fs/cgroup".
Definition RUNEXCL_SLICE : string := CGROUP_ROOT +:+ "/runexcl.slice".

(** [FileLock]: open the file and take the exclusive lock.  One process is
    modelled, so a lock that can be opened is granted; it is given back when
    the scope ends. *)
Definition FileLock (path : string) : M unit := fun w =>
  match files w !! path with
  | Some _ =>
      if decide (path ∈ refused w) then
        throw_system_error path
          ("open(" +:+ dquote +:+ path +:+ dquote +:+ ")") w
      else (Ok tt, w)
  | None =>
      throw_system_error path
        ("open(" +:+ dquote +:+ path +:+ dquote +:+ ")") w
  end.

(** [chomp]: cut the string at the first newline. *)
Fixpoint chomp_chars (s : list ascii) : list ascii :=
  match s with
  | c :: s' => if Ascii.eqb c newline then [] else c :: chomp_chars s'
  | [] => []
  end.

Definition chomp (s : string) : string := CPUSet.msg (chomp_chars (CPUSet.str s)).

(** [std::string::find] of a literal: found or not. *)
Definition contains (needle hay : string) : bool :=
  match String.index 0 needle hay with
  | Some _ => true
  | None => false
  end.

(** [enableCpusetController] *)
Definition enableCpusetController (path : string) : M unit :=
  let cgroup_subtree_control := path +:+ "/cgroup.subtree_control" in
  do subtree_control <- sysfs_read cgroup_subtree_control ;
  if negb (contains "cpuset" subtree_control)
  then sysfs_write cgroup_subtree_control "+cpuset"
  else ret tt.

(** [::mkdir] and [::rmdir] in the cgroup file system, with the errors that
    matter.  The kernel puts the interface files into a new cgroup and takes
    them away with it. *)
Inductive mkdir_result := mkdir_ok | mkdir_EEXIST | mkdir_error.

Definition interface_files (path : string) : list (string * string) :=
  [(path +:+ "/cpuset.cpus", EmptyString);
   (path +:+ "/cpuset.cpus.partition", "member");
   (path +:+ "/cgroup.subtree_control", EmptyString);
   (path +:+ "/cgroup.procs", EmptyString)].

Definition mkdir (path : string) : M mkdir_result := fun w =>
  if decide (path ∈ refused w) then (Ok mkdir_error, w)
  else if decide (path ∈ dirs w) then (Ok mkdir_EEXIST, w)
  else
    (Ok mkdir_ok,
     with_dirs ({[path]} ∪ dirs w)
       (with_files
          (fold_right (fun kv f => <[kv.1 := kv.2]> f) (files w)
             (interface_files path)) w)).

Definition rmdir (path : string) : M bool := fun w =>
  if decide (path ∈ refused w) then (Ok false, w)
  else if decide (path ∈ dirs w) then
    (Ok true,
     with_dirs (dirs w ∖ {[path]})
       (with_files
          (fold_right (fun kv f => delete kv.1 f) (files w)
             (interface_files path)) w))
  else (Ok false, w).

Record CPUCGroup := CGroup {
  mCPUSet : CPUSet;
  mPath : string
}.

Section CGroup.

Variable MaxCpus : Z.

(** [CPUSet(std::string)], a value read from a file, and the text
    [operator<<] writes for a set. *)
Definition CPUSet_of_string (s : string) : M CPUSet :=
  lift (CPUSet.parse MaxCpus (CPUSet.str s)).

Definition text_of (m : CPUSet) : string := CPUSet.msg (CPUSet.to_string MaxCpus m).

(** [CPUCGroup::setupSlice].  The [fstream] on cpuset.cpus is read with
    [operator>>] and written with [operator<<] through the same stream, so
    the write takes place only when the stream is still good, and there is
    a text to write. *)
Definition setupSlice : M CPUSet :=
  do_ enableCpusetController CGROUP_ROOT ;
  do made <- mkdir RUNEXCL_SLICE ;
  match made with
  | mkdir_error =>
      throw_system_error RUNEXCL_SLICE
        ("mkdir(" +:+ dquote +:+ RUNEXCL_SLICE +:+ dquote +:+ ")")
  | _ =>
      do_ enableCpusetController RUNEXCL_SLICE ;
      let slice := RUNEXCL_SLICE in
      do text <- sysfs_read (slice +:+ "/cpuset.cpus.effective") ;
      do effective_set <- CPUSet_of_string text ;
      let cpus := slice +:+ "/cpuset.cpus" in
      fun w =>
        let file :=
          match files w !! cpus with
          | Some content =>
              if decide (cpus ∈ refused w)
              then IStream [] [] false true false
              else ios.of_chars (CPUSet.str content)
          | None => IStream [] [] false true false
          end in
        match extract MaxCpus file CPUSet.zero with
        | Some (file, set) =>
            if CPUSet.empty MaxCpus set && ios.good file
                 && negb (String.eqb (text_of effective_set) EmptyString)
            then
              (Ok effective_set,
               with_written ((cpus, text_of effective_set) :: written w)
                 (with_files (<[cpus := text_of effective_set]> (files w)) w))
            else (Ok effective_set, w)
        | None => (Unfinished, w)
        end
  end.

(** [CPUCGroup::remove] *)
Definition remove (g : CPUCGroup) : M unit :=
  do removed <- rmdir (mPath g) ;
  if removed then ret tt
  else throw_system_error (mPath g)
         ("rmdir(" +:+ dquote +:+ mPath g +:+ dquote +:+ "):").

(** [CPUCGroup::set_partition_type].  The type is written, the file is read
    back from its start with [operator>>] into a string, and compared. *)
Definition set_partition_type (g : CPUCGroup) (type : string) : M unit :=
  let path := mPath g +:+ "/cpuset.cpus.partition" in
  do _type <- (fun w =>
    match files w !! path with
    | Some _ =>
        if decide (path ∈ refused w) then (Ok EmptyString, w)
        else
          let content := partition_reply w type in
          (Ok (chomp (first_token content)),
           with_written ((path, type) :: written w)
             (with_files (<[path := content]> (files w)) w))
    | None => (Ok EmptyString, w)
    end) ;
  if negb (String.eqb type _type)
  then throw runtime_error
         ("Could not set partition type to '" +:+ type +:+ "': " +:+ _type)
  else ret tt.

Definition isolate (g : CPUCGroup) (enable : bool) : M unit :=
  set_partition_type g (if enable then "isolated" else "root").

Definition cpuset_cpus_exclusive : string :=
  RUNEXCL_SLICE +:+ "/cpuset.cpus.exclusive".

(** The first half of the constructor, up to the write of the ledger: the
    reservation. *)
Definition reserve (set : CPUSet) : M unit :=
  let slice := RUNEXCL_SLICE in
  do_ FileLock cpuset_cpus_exclusive ;
  do text <- sysfs_read cpuset_cpus_exclusive ;
  do exclusive <- CPUSet_of_string text ;
  do text' <- sysfs_read (slice +:+ "/cpuset.cpus.effective") ;
  do available <- CPUSet_of_string text' ;
  if CPUSet.neq (CPUSet.and set available) set then
    throw runtime_error
      ("Requested cpuset '" +:+ text_of set +:+ "' not a subset of '" +:+
       text_of available +:+ "'")
  else
    let exclusive := CPUSet.or exclusive set in
    sysfs_write cpuset_cpus_exclusive (text_of exclusive).

(** [CPUCGroup::CPUCGroup(CPUSet const& set)] *)
Definition CPUCGroup_new (set : CPUSet) : M CPUCGroup :=
  do_ reserve set ;
  let g := CGroup set (RUNEXCL_SLICE +:+ "/runexcl." +:+ text_of set) in
  do made <- mkdir (mPath g) ;
  match made with
  | mkdir_ok =>
      do_ try_catch_all
            (do_ sysfs_write (mPath g +:+ "/cpuset.cpus") (text_of set) ;
             set_partition_type g "root")
            (fun e => do_ remove g ; rethrow e) ;
      ret g
  | _ => throw_system_error (mPath g) ("mkdir(" +:+ mPath g +:+ ")")
  end.

(** [CPUCGroup::~CPUCGroup] *)
Definition CPUCGroup_delete (g : CPUCGroup) : M unit :=
  try_catch
    (do_ remove g ;
     do_ FileLock cpuset_cpus_exclusive ;
     do text <- sysfs_read cpuset_cpus_exclusive ;
     do exclusive <- CPUSet_of_string text ;
     let exclusive := CPUSet.and (CPUSet.xor exclusive (mCPUSet g)) exclusive in
     sysfs_write cpuset_cpus_exclusive (text_of exclusive))
    std_exception
    (fun e => cerr (what e)).

(** [CPUCGroup::add] *)
Definition add (g : CPUCGroup) (pid : Z) : M unit :=
  sysfs_write (mPath g +:+ "/cgroup.procs") (CPUSet.msg (std_to_string pid)).

(** [CPUCGroup::clone]: the path-only descriptor, then clone3, whose result
    is returned unless it is -1, which is thrown as a system_error.  In the
    parent process, the only one followed here, the result is -1 or the
    process id of the child, a positive number. *)
Definition clone (g : CPUCGroup) : M Z := fun w =>
  if bool_decide (mPath g ∈ dirs w) && negb (bool_decide (mPath g ∈ refused w)) then
    if clone3_result w =? -1
    then throw_system_error "clone3" "clone3() failed:" w
    else (Ok (clone3_result w), w)
  else throw_system_error (mPath g) ("open(" +:+ mPath g +:+ ")") w.

End CGroup.

(** ** CPUGovernor.cpp *)

Definition CPU_ROOT : string := "/sys/devices/system/cpu".
Definition CPUFREQ_ROOT : string := CPU_ROOT +:+ "/cpufreq".
Definition PATH_AMD_PSTATE : string := CPU_ROOT +:+ "/amd_pstate/status".

(** [std::stoi]: invalid_argument without a number, out_of_range outside of
    int. *)
Definition stoi (s : string) : outcome Z :=
  let s := skip_space (CPUSet.str s) in
  let '(neg, s1) :=
    match s with
    | c :: s' =>
        if Ascii.eqb c "-" then (true, s')
        else if Ascii.eqb c "+" then (false, s')
        else (false, s)
    | [] => (false, s)
    end in
  let '(ds, _) := span_digits s1 in
  match ds with
  | [] => Throw (Exn invalid_argument "stoi")
  | _ =>
      let v := if neg then - decimal ds else decimal ds in
      if (v <? INT_MIN) || (v >? INT_MAX) then Throw (Exn out_of_range "stoi")
      else Ok v
  end.

(** [new]: the object gets an address that is not in use. *)
Definition new (o : object) : M N := fun w =>
  let p := fresh (dom (heap w)) in
  (Ok p, with_heap (<[p := o]> (heap w)) w).

Definition free (p : N) : M unit := fun w =>
  (Ok tt, with_heap (delete p (heap w)) w).

(** A destructor is noexcept: an exception that leaves it ends the process. *)
Definition noexcept {A} (m : M A) : M A := fun w =>
  match m w with
  | (Throw _, w') => (Terminate, w')
  | r => r
  end.

(** [CPUPolicy::~CPUPolicy] *)
Definition CPUPolicy_dtor (p : CPUPolicy) : M unit :=
  try_catch
    (do_ (if negb (String.eqb (mScalingSetSpeed p) "<unsupported>")
          then sysfs_write (pPath p +:+ "/scaling_setspeed") (mScalingSetSpeed p)
          else ret tt) ;
     do_ cerr ("mScalingGovernor: " +:+ mScalingGovernor p) ;
     sysfs_write (pPath p +:+ "/scaling_governor") (mScalingGovernor p))
    std_exception
    (fun e => cerr (what e)).

(** [CPUPolicy::CPUPolicy] and, with [amd], [CPUAMDPStatePolicy]'s
    constructor on top of it; when the latter throws, the finished base part
    is destroyed. *)
Definition CPUPolicy_ctor (path : string) (amd : bool) : M CPUPolicy :=
  do governor <- sysfs_read (path +:+ "/scaling_governor") ;
  do setspeed <- sysfs_read (path +:+ "/scaling_setspeed") ;
  do text <- sysfs_read (path +:+ "/scaling_max_freq") ;
  do max_freq <- lift (stoi text) ;
  do text <- sysfs_read (path +:+ "/scaling_min_freq") ;
  do min_freq <- lift (stoi text) ;
  let base := Policy path governor setspeed max_freq min_freq None in
  if amd then
    try_catch_all
      (do text <- sysfs_read (path +:+ "/amd_pstate_lowest_nonlinear_freq") ;
       do lowest <- lift (stoi text) ;
       ret (Policy path governor setspeed max_freq min_freq (Some lowest)))
      (fun e => do_ noexcept (CPUPolicy_dtor base) ; rethrow e)
  else ret base.

(** [createPolicy], virtual: [new CPUPolicy(path)] or
    [new CPUAMDPStatePolicy(path)]. *)
Definition createPolicy (c : driver_class) (path : string) : M N :=
  do p <- CPUPolicy_ctor path
            (match c with AMDPStateDriver => true | BaseDriver => false end) ;
  new (PolicyObject p).

(** [delete policy] *)
Definition delete_policy (ptr : N) : M unit := fun w =>
  match heap w !! ptr with
  | Some (PolicyObject p) =>
      (do_ noexcept (CPUPolicy_dtor p) ; free ptr) w
  | _ => (Ok tt, w)
  end.

(** ** Conversions between double and int *)

Definition double_of_int (n : Z) : float :=
  if n <? 0 then PrimFloat.opp (PrimFloat.of_uint63 (Uint63.of_Z (- n)))
  else PrimFloat.of_uint63 (Uint63.of_Z n).

(** The integer part of a finite double. *)
Definition truncate (x : float) : option Z :=
  match Prim2SF x with
  | S754_zero _ => Some 0
  | S754_finite s m e =>
      let a := if 0 <=? e then Z.pos m * 2 ^ e else Z.pos m / 2 ^ (- e) in
      Some (if s then - a else a)
  | _ => None
  end.

(** [(int)x].  C++ leaves the conversion undefined when the integer part
    does not fit; the x86-64 instruction used for it gives INT_MIN then. *)
Definition int_of_double (x : float) : Z :=
  match truncate x with
  | Some z => if (INT_MIN <=? z) && (z <=? INT_MAX) then z else INT_MIN
  | None => INT_MIN
  end.

(** The value [CPUPolicy::set_frequency] writes to scaling_setspeed. *)
Definition setpoint (p : CPUPolicy) (freq : float) : Z :=
  let _freq := mScalingMinFreq p in
  let _freq :=
    if PrimFloat.ltb 1 freq then int_of_double freq
    else if PrimFloat.leb 0 freq && PrimFloat.leb freq 1 then
      int_of_double (PrimFloat.mul (double_of_int (mScalingMaxFreq p)) freq)
    else if PrimFloat.eqb (-1) freq then mScalingMaxFreq p
    else if PrimFloat.eqb (-2) freq then mScalingMinFreq p
    else _freq in
  if _freq <? mScalingMinFreq p then mScalingMinFreq p else _freq.

(** [CPUAMDPStatePolicy::set_frequency] replaces -3.0 first. *)
Definition amd_frequency (p : CPUPolicy) (freq : float) : float :=
  match mLowestNonlinearFreq p with
  | Some lowest => if PrimFloat.eqb (-3) freq then double_of_int lowest else freq
  | None => freq
  end.

(** [policy->set_frequency(freq)], virtual. *)
Definition CPUPolicy_set_frequency (p : CPUPolicy) (freq : float) : M unit :=
  let freq := amd_frequency p freq in
  do_ sysfs_write (pPath p +:+ "/scaling_governor") "userspace" ;
  sysfs_write (pPath p +:+ "/scaling_setspeed")
              (CPUSet.msg (std_to_string (setpoint p freq))).

(** ** The performance drivers and [CPUGovernor] *)
Section Governor.

Variable MaxCpus : Z.

(** The inner loop of [setup_policies] over the numbers in affected_cpus:
    does it reach a CPU of the set? *)
Fixpoint affects (fuel : nat) (ins : istream) (set : CPUSet) : bool :=
  match fuel with
  | O => false
  | S fuel' =>
      if ios.good ins then
        let '(ins, cpu) := ios.read_int ins in
        if ios.fail ins || (cpu <? 0) || (cpu >=? MaxCpus) then false
        else if CPUSet.is_set set cpu then true
        else affects fuel' ins set
      else false
  end.

(** Update of the driver object behind [this]. *)
Definition push_back (this policy : N) : M unit := fun w =>
  match heap w !! this with
  | Some (DriverObject d) =>
      (Ok tt,
       with_heap (<[this := DriverObject
                              (Driver (dClass d) (mPolicies d ++ [policy]) (mStatus d))]>
                    (heap w)) w)
  | _ => (Ok tt, w)
  end.

Definition driver_at (this : N) : M CPUPerformanceDriver := fun w =>
  match heap w !! this with
  | Some (DriverObject d) => (Ok d, w)
  | _ => (Terminate, w)
  end.

(** [CPUPerformanceDriver::setup_policies]: the loop over the directory. *)
Fixpoint setup_policies_loop (this : N) (c : driver_class)
    (entries : list (string * bool)) (set : CPUSet) : M unit :=
  match entries with
  | [] => ret tt
  | (name, is_directory) :: entries' =>
      let path := CPUFREQ_ROOT +:+ "/" +:+ name in
      do_ (if negb is_directory then ret tt
           else if negb (contains "policy" name) then ret tt
           else
             do hit <- (fun w =>
               match files w !! (path +:+ "/affected_cpus") with
               | Some content =>
                   if decide (path +:+ "/affected_cpus" ∈ refused w)
                   then (Ok false, w)
                   else
                     let chars := CPUSet.str content in
                     (Ok (affects (S (length chars)) (ios.of_chars chars) set), w)
               | None => (Ok false, w)
               end) ;
             if hit : bool then
               do policy <- createPolicy c path ;
               push_back this policy
             else ret tt) ;
      setup_policies_loop this c entries' set
  end.

Definition setup_policies (this : N) (set : CPUSet) : M unit :=
  do d <- driver_at this ;
  do entries <- (fun w =>
    if decide (CPUFREQ_ROOT ∈ refused w)
    then
      (Throw (Exn system_error
                ("filesystem error: directory iterator cannot open directory: "
                 +:+ strerror_errno w CPUFREQ_ROOT
                 +:+ " [" +:+ CPUFREQ_ROOT +:+ "]")), w)
    else (Ok (cpufreq_entries w), w)) ;
  setup_policies_loop this (dClass d) entries set.

(** [for (CPUPolicy* policy : mPolicies) policy->set_frequency(freq);] *)
Fixpoint set_frequency_all (policies : list N) (freq : float) : M unit :=
  match policies with
  | [] => ret tt
  | ptr :: policies' =>
      do_ (fun w =>
             match heap w !! ptr with
             | Some (PolicyObject p) => CPUPolicy_set_frequency p freq w
             | _ => (Terminate, w)
             end) ;
      set_frequency_all policies' freq
  end.

(** [CPUPerformanceDriver::set_frequency] *)
Definition driver_set_frequency (this : N) (set : CPUSet) (freq : float) : M unit :=
  do_ setup_policies this set ;
  do d <- driver_at this ;
  set_frequency_all (mPolicies d) freq.

(** [CPUPerformanceDriver::~CPUPerformanceDriver]:
    [for (CPUPolicy* policy : mPolicies) delete policy;] *)
Fixpoint delete_all (policies : list N) : M unit :=
  match policies with
  | [] => ret tt
  | ptr :: policies' => do_ delete_policy ptr ; delete_all policies'
  end.

(** [CPUAMDPStatePerformanceDriver::~CPUAMDPStatePerformanceDriver]: its own
    body, which works on the object's [mPolicies], then the destructor of
    the base class on what the body has left of the object. *)
Definition CPUAMDPStatePerformanceDriver_dtor (this : N) : M unit :=
  do d <- driver_at this ;
  (* mPolicies.clear(): the vector of pointers is emptied *)
  let d := Driver (dClass d) [] (mStatus d) in
  do_ (fun w => (Ok tt, with_heap (<[this := DriverObject d]> (heap w)) w)) ;
  do_ sysfs_write PATH_AMD_PSTATE (mStatus d) ;
  do d <- driver_at this ;
  delete_all (mPolicies d).

(** [delete mImpl], through the virtual destructor. *)
Definition delete_driver (mImpl : option N) : M unit :=
  match mImpl with
  | None => ret tt
  | Some this =>
      do d <- driver_at this ;
      do_ noexcept
            (match dClass d with
             | AMDPStateDriver => CPUAMDPStatePerformanceDriver_dtor this
             | BaseDriver => delete_all (mPolicies d)
             end) ;
      free this
  end.

(** [CPUPerformanceDriver::create]: a null pointer without the AMD driver. *)
Definition create : M (option N) := fun w =>
  match files w !! PATH_AMD_PSTATE with
  | Some _ =>
      (do status <- sysfs_change PATH_AMD_PSTATE "passive" ;
       do this <- new (DriverObject (Driver AMDPStateDriver [] status)) ;
       ret (Some this)) w
  | None => (Ok None, w)
  end.

(** [CPUGovernor::set_frequency]; the result is the new [mImpl].  The
    pointer is assigned before the driver's [set_frequency] runs, so the
    handler deletes the driver that [create] has made. *)
Definition CPUGovernor_set_frequency (mImpl : option N) (set : CPUSet)
    (freq : float) : M (option N) :=
  do_ delete_driver mImpl ;
  do made <- try_catch (do d <- create ; ret (inl d)) std_exception
               (fun e => ret (inr e)) ;
  match made with
  | inr e => do_ cerr ("Failed to set CPU frequency: " +:+ what e) ; ret None
  | inl None =>
      do_ cerr ("Failed to set CPU frequency: " +:+ "std::bad_alloc") ; ret None
  | inl (Some this) =>
      try_catch
        (do_ driver_set_frequency this set freq ; ret (Some this))
        std_exception
        (fun e =>
           do_ cerr ("Failed to set CPU frequency: " +:+ what e) ;
           do_ delete_driver (Some this) ;
           ret None)
  end.

(** [CPUGovernor::~CPUGovernor] *)
Definition CPUGovernor_dtor (mImpl : option N) : M unit := delete_driver mImpl.

End Governor.

(** ** runexcl.cpp *)

Record RunExclArgs := Args {
  aSet : CPUSet;
  mFrequency : float;
  mIsolate : bool
}.

(** How the process ends: [exit]/[return] with a code, or abnormally through
    [std::terminate]; [Blocked] stands for a process that waits for ever. *)
Inductive process_end :=
| Exit (code : Z)
| Aborted
| Blocked.

Section Main.

Variable MaxCpus : Z.

(** [std::stoul]: invalid_argument without a number, out_of_range beyond
    unsigned long. *)
Definition stoul (s : string) : outcome Z :=
  let chars := CPUSet.str s in
  let '(n, end_) := strtoul chars in
  if (length end_ =? length chars)%nat then Throw (Exn invalid_argument "stoul")
  else if strtoul_erange chars then Throw (Exn out_of_range "stoul")
  else Ok n.

(** [events.erase(pos, strlen("populated "))] for the position [find] gave. *)
Definition erase_at (pos len : nat) (s : string) : string :=
  String.substring 0 pos s +:+
  String.substring (pos + len) (String.length s - (pos + len)) s.

(** [CPUCGroup::wait_empty].  Each element of [cgroup_events] is the first
    line of the file at one read; waiting for the change event moves on to
    the next, and blocks for ever when there is none. *)
Fixpoint wait_empty_loop (fuel : nat) (g : CPUCGroup) : M unit :=
  match fuel with
  | O => fun w => (Unfinished, w)
  | S fuel' => fun w =>
      match cgroup_events w with
      | [] => (Unfinished, w)
      | events :: later =>
          match String.index 0 "populated " events with
          | Some pos =>
              let events := chomp (erase_at pos 10 events) in
              match stoul events with
              | Ok n =>
                  if n =? 0 then (Ok tt, w)
                  else wait_empty_loop fuel' g (with_events later w)
              | Throw e => (Throw e, w)
              | Terminate => (Terminate, w)
              | Unfinished => (Unfinished, w)
              end
          | None => cerr ("unexpected input from " +:+ mPath g) w
          end
      end
  end.

Definition wait_empty (g : CPUCGroup) : M unit := fun w =>
  if bool_decide (mPath g ∈ dirs w) && negb (bool_decide (mPath g ∈ refused w))
  then wait_empty_loop (S (length (cgroup_events w))) g w
  else
    throw_system_error (mPath g +:+ "/cgroup.events")
      ("inotify_add_watch(" +:+ dquote +:+ mPath g +:+
       "/cgroup.events" +:+ dquote +:+ ")") w.

(** [waitpid(child, &status, 0)] *)
Definition waitpid : M unit := fun w =>
  if waitpid_result w =? -1
  then throw_system_error "waitpid" "waitpid() failed:" w
  else (Ok tt, w).

(** A block in which an object with the destructor [dtor] lives.  The
    destructor runs when the block is left; it runs for an exception only
    when a handler of the enclosing try block takes the exception, because
    the search for a handler comes first and ends in [std::terminate]
    otherwise. *)
Definition scoped {A} (handler : exn_class) (dtor : M unit) (body : M A) : M A :=
  fun w =>
    match body w with
    | (Ok a, w') => (do_ noexcept dtor ; ret a) w'
    | (Throw e, w') =>
        if catches handler (exn_cls e)
        then (do_ noexcept dtor ; rethrow e) w'
        else (Throw e, w')
    | r => r
    end.

(** The try block of [main], in the parent process; its value is the value
    of a [return] inside the block, or 0 for the [return 0] behind it. *)
Definition main_try (gArgs : RunExclArgs) : M Z :=
  do available <- setupSlice MaxCpus ;
  let set := CPUSet.and available (aSet gArgs) in
  if CPUSet.neq set (aSet gArgs) then
    do_ cerr ("cpuset must be in '" +:+ text_of MaxCpus available +:+ "'.") ;
    ret 1
  else
    do group <- CPUCGroup_new MaxCpus set ;
    scoped system_error (CPUCGroup_delete MaxCpus group)
      (do_ (if mIsolate gArgs then isolate group true else ret tt) ;
       do governor <-
         (if negb (PrimFloat.eqb (mFrequency gArgs) 0)
          then CPUGovernor_set_frequency MaxCpus None set (mFrequency gArgs)
          else ret None) ;
       scoped system_error (CPUGovernor_dtor governor)
         (do child <- clone group ;
          do_ waitpid ;
          do_ wait_empty group ;
          ret 0)).

(** [main] from the check of the command line on.  [has_command] says
    whether a command follows the options, [sigprocmask_ok] whether the
    signals could be blocked. *)
Definition main (has_command sigprocmask_ok : bool) (gArgs : RunExclArgs)
    (w : World) : process_end * World :=
  if negb has_command then (Exit 1, w)
  else if CPUSet.empty MaxCpus (aSet gArgs) then (Exit 1, w)
  else if negb sigprocmask_ok then (Exit 1, w)
  else
    match try_catch (main_try gArgs) system_error
            (fun e => do_ cerr (what e) ; ret 1) w with
    | (Ok code, w') => (Exit code, w')
    | (Throw _, w') => (Aborted, w')
    | (Terminate, w') => (Aborted, w')
    | (Unfinished, w') => (Blocked, w')
    end.

End Main.

(** ** The option loop of [main] *)
Section Options.

Variable MaxCpus : Z.

(** What the handling of one option leaves: the arguments to go on with,
    or the end of the process through [exit]. *)
Inductive option_result :=
| Continue (gArgs : RunExclArgs)
| Exited (code : Z).

(** [case 'c']: the CPUs of [optarg] are added to the set.  The handler
    takes std::invalid_argument; any other exception leaves [main]. *)
Definition option_c (optarg : string) (gArgs : RunExclArgs) : M option_result :=
  try_catch
    (do set <- CPUSet_of_string MaxCpus optarg ;
     ret (Continue
            (if negb (CPUSet.empty MaxCpus set)
             then Args (CPUSet.or (aSet gArgs) set) (mFrequency gArgs) (mIsolate gArgs)
             else gArgs)))
    invalid_argument
    (fun e =>
       do_ cerr ("Invalid CPU specification: " +:+ what e) ;
       ret (Exited 1)).

(** [case 'i'] *)
Definition option_i (gArgs : RunExclArgs) : RunExclArgs :=
  Args (aSet gArgs) (mFrequency gArgs) true.

End Options.

(** ** The size of the sets, from the file

    [fgets(buffer, size, fp)] at the start of a file with the content [s]:
    the characters up to and including the first newline, at most
    [size - 1] of them; a null pointer at the end of the file. *)
Fixpoint fgets_chars (n : nat) (s : list ascii) : list ascii :=
  match n, s with
  | S n', c :: s' =>
      if Ascii.eqb c newline then [c] else c :: fgets_chars n' s'
  | _, _ => []
  end.

Definition fgets (size : nat) (s : list ascii) : option (list ascii) :=
  match s with
  | [] => None
  | _ => Some (fgets_chars (size - 1) s)
  end.

Definition LONG_MAX : Z := 2 ^ 63 - 1.
Definition LONG_MIN : Z := - 2 ^ 63.

(** [strtol(nptr, &end, 10)] on an LP64 target: as [strtoul], but the value
    is signed and saturates at LONG_MIN and LONG_MAX. *)
Definition strtol (nptr : list ascii) : Z * list ascii :=
  let s := skip_space nptr in
  let '(neg, s1) :=
    match s with
    | c :: s' =>
        if Ascii.eqb c "-" then (true, s')
        else if Ascii.eqb c "+" then (false, s')
        else (false, s)
    | [] => (false, s)
    end in
  let '(ds, rest) := span_digits s1 in
  match ds with
  | [] => (0, nptr)
  | _ =>
      let v := if neg then - decimal ds else decimal ds in
      (if v >? LONG_MAX then LONG_MAX
       else if v <? LONG_MIN then LONG_MIN
       else v, rest)
  end.

(** The first call of [getMaxCPUs], with the reading of the file:
    [kernel_max] is the content of /sys/devices/system/cpu/kernel_max, or
    [None] when the file cannot be opened.  The number read is handed on
    only when a newline or the end of the buffer follows it. *)
Definition getMaxCPUs_from_file (kernel_max : option (list ascii)) : Z :=
  match kernel_max with
  | None => getMaxCPUs None
  | Some content =>
      match fgets 128 content with
      | None => getMaxCPUs None
      | Some buffer =>
          let '(n, end_) := strtol buffer in
          if Ascii.eqb newline (cur end_) || Ascii.eqb NUL (cur end_)
          then getMaxCPUs (Some n)
          else getMaxCPUs None
      end
  end.

(** ** Vocabulary of the statements

    Predicates on strings, streams and worlds in which the theorems are
    stated, and the small machine on which the closed statements run. *)

(** A string that is empty or does not begin with a digit. *)
Definition no_digit_ahead (s : list ascii) : Prop := isdigit (cur s) = false.

Definition saturate (v : Z) : Z := if v >? ULONG_MAX then ULONG_MAX else v.

(** Iterations of the loop an item takes. *)
Definition iterations (it : item) : nat :=
  match it with
  | Single _ => 1
  | Range _ _ => 2
  end.

Definition run_item (r : Z * Z) : item :=
  if negb (fst r =? snd r)
  then Range (std_to_string (fst r)) (std_to_string (snd r))
  else Single (std_to_string (fst r)).

Section Runs.

Variable MaxCpus : Z.

(** The maximal runs of set bits that the outer loop of [to_string] visits,
    as pairs (first CPU, last CPU). *)
Fixpoint runs_loop (k : nat) (n : Z) (m : CPUSet) : list (Z * Z) :=
  match k with
  | O => []
  | S k' =>
      if n <? MaxCpus then
        if CPUSet.is_set m n then
          let e := CPUSet.run_end MaxCpus k' (n + 1) m in
          (n, e - 1) :: runs_loop k' (e + 1) m
        else runs_loop k' (n + 1) m
      else []
  end.

Definition in_range (r : Z * Z) : Prop := 0 <= fst r <= snd r /\ snd r < MaxCpus.

End Runs.

Definition is_sign (l : list ascii) : Prop :=
  l = [] \/ l = ["-"%char] \/ l = ["+"%char].

Definition all_space (w : list ascii) : Prop := Forall (fun c => isspace c = true) w.

(** A C string: no NUL before its end. *)
Definition no_nul (s : list ascii) : Prop := Forall (fun c => c <> NUL) s.

(** The three classes [parse] throws. *)
Definition domain_error (e : exception) : Prop :=
  exn_cls e = invalid_argument \/ exn_cls e = range_error \/
  exn_cls e = out_of_range.

(** [pre] ends where an item begins: at the start, or behind a comma. *)
Definition item_start (pre : list ascii) : Prop :=
  pre = [] \/ exists p, pre = p ++ [","%char].

(** [pre] ends where a number is due: where an item begins, or behind the
    hyphen of a range. *)
Definition number_start (pre : list ascii) : Prop :=
  item_start pre \/
  exists p d, pre = p ++ [d; "-"%char] /\ isdigit d = true.

(** A separator [b] behind [x] that the loop takes as a separator. *)
Definition boundary (b : ascii) (x : list ascii) : Prop :=
  b = ","%char \/
  (b = "-"%char /\ exists x0 d, x = x0 ++ [d] /\ isdigit d = true).

(** What [strtoul] takes in front of the digits of a number: white space,
    then at most one sign. *)
Definition number_lead (l : list ascii) : Prop :=
  exists w sg, l = w ++ sg /\ all_space w /\ is_sign sg.

(** The same without a minus sign. *)
Definition plain_lead (l : list ascii) : Prop :=
  exists w sg, l = w ++ sg /\ all_space w /\ (sg = [] \/ sg = ["+"%char]).

(** [suf] begins with a number as [strtoul] takes it. *)
Definition starts_number (suf : list ascii) : Prop :=
  exists l d rest, suf = l ++ d :: rest /\ number_lead l /\ isdigit d = true.

(** The character [c] between [pre] and [suf] is part of what [strtoul]
    takes in front of the digits of a number, and the number stands where
    one is due. *)
Definition fronts_number (pre : list ascii) (c : ascii) (suf : list ascii) : Prop :=
  exists p l1 l2 d rest,
    pre = p ++ l1 /\ suf = l2 ++ d :: rest /\ number_start p /\
    number_lead (l1 ++ c :: l2) /\ isdigit d = true.

(** The strings the loop is built to refuse.  [s] is the whole string; the
    numbers are written in decimal, are followed by a character that is
    not a digit, and may have white space and a plus sign in front. *)
Inductive rejected (MaxCpus : Z) (s : list ascii) : Prop :=
| trailing_separator p c :
    s = p ++ [c] -> c = ","%char \/ c = "-"%char -> rejected MaxCpus s
| missing_number pre suf :
    s = pre ++ suf -> s <> [] -> number_start pre -> ~ starts_number suf ->
    rejected MaxCpus s
| reversed_range pre la a lb b rest :
    s = pre ++ la ++ a ++ "-"%char :: lb ++ b ++ rest -> item_start pre ->
    plain_lead la -> plain_lead lb ->
    all_digits a -> a <> [] -> all_digits b -> b <> [] -> no_digit_ahead rest ->
    decimal b < decimal a -> rejected MaxCpus s
| range_of_three pre la a lb b rest :
    s = pre ++ la ++ a ++ "-"%char :: lb ++ b ++ "-"%char :: rest ->
    item_start pre -> plain_lead la -> plain_lead lb ->
    all_digits a -> a <> [] -> all_digits b -> b <> [] -> rejected MaxCpus s
| index_out_of_range pre l ds rest :
    s = pre ++ l ++ ds ++ rest -> number_start pre -> plain_lead l ->
    all_digits ds -> ds <> [] -> no_digit_ahead rest ->
    MaxCpus <= decimal ds -> rejected MaxCpus s
| stray_character pre c suf :
    s = pre ++ c :: suf ->
    isdigit c = false -> c <> ","%char -> c <> "-"%char ->
    ~ fronts_number pre c suf -> rejected MaxCpus s
| negative_number pre w ds rest :
    s = pre ++ w ++ "-"%char :: ds ++ rest -> number_start pre -> all_space w ->
    all_digits ds -> ds <> [] -> no_digit_ahead rest ->
    1 <= decimal ds <= 2 ^ 63 -> rejected MaxCpus s.

(** A stream in the good state. *)
Definition good_stream (cs ps : list ascii) : istream := IStream cs ps false false false.

Definition effective_path : string := RUNEXCL_SLICE +:+ "/cpuset.cpus.effective".

(** A file that can be read and written and holds the list form of [m],
    as [sysfs_read] and [CPUSet(std::string)] take it. *)
Definition holds_mask (MaxCpus : Z) (w : World) (path : string) (m : CPUSet) : Prop :=
  (path ∉ refused w) /\
  exists content,
    files w !! path = Some content /\
    CPUSet.parse MaxCpus (CPUSet.str (first_token content)) = Ok m.

(** The last character of a string tells the ledger from the interface
    files of a group. *)
Fixpoint last_char (s : string) : ascii :=
  match s with
  | EmptyString => NUL
  | String c EmptyString => c
  | String _ s' => last_char s'
  end.

Definition clamp (p : CPUPolicy) (f : Z) : Z := Z.max (mScalingMinFreq p) f.

Definition example_policy : CPUPolicy :=
  Policy (CPUFREQ_ROOT +:+ "/policy0") "schedutil" "<unsupported>"
         3000000 800000 (Some 1200000).

(** *** Runs on a small machine *)

Definition end_of_line : string := String newline EmptyString.

Definition policy0 : string := CPUFREQ_ROOT +:+ "/policy0".

(** A slice with the effective CPUs 0-7 and the ledger [ledger_text], one
    cpufreq policy for the CPUs 0 and 1, the AMD P-state driver in active
    mode, its status file ending in a newline as the kernel shows it.
    [refuse] lists the paths on which the kernel fails every call, [reply]
    is what it shows in cpuset.cpus.partition after a write.  The error
    number of a failed clone3 reads Bad file descriptor, any other one
    Permission denied. *)
Definition example_world (ledger_text : string) (refuse : list string)
    (reply : string -> string) : World :=
  mkWorld
    (list_to_map
       [(cpuset_cpus_exclusive, ledger_text);
        (effective_path, "0-7");
        (RUNEXCL_SLICE +:+ "/cpuset.cpus", "0-7");
        (RUNEXCL_SLICE +:+ "/cgroup.subtree_control", "cpuset");
        (CGROUP_ROOT +:+ "/cgroup.subtree_control", "cpuset");
        (policy0 +:+ "/affected_cpus", "0 1");
        (policy0 +:+ "/scaling_governor", "schedutil");
        (policy0 +:+ "/scaling_setspeed", "<unsupported>");
        (policy0 +:+ "/scaling_max_freq", "3000000");
        (policy0 +:+ "/scaling_min_freq", "800000");
        (policy0 +:+ "/amd_pstate_lowest_nonlinear_freq", "1200000");
        (PATH_AMD_PSTATE, String.append "active" end_of_line)])
    {[RUNEXCL_SLICE]} (list_to_set refuse) reply
    [("policy0", true)] 4242 4242 ["populated 1"; "populated 0"] [] [] ∅
    (fun call => if String.eqb call "clone3" then "Bad file descriptor"
                 else "Permission denied").

Definition accepted (type : string) : string := type.
Definition rejected_as_member (type : string) : string := "member".

(** The group of the CPUs 1 and 2. *)
Definition group_1_2 : string := RUNEXCL_SLICE +:+ "/runexcl.1-2".

(** The value of [start] in the two parsers: -1, or the first CPU of an
    open range. *)
Definition start_value (MaxCpus start : Z) : Prop :=
  start = -1 \/ 0 <= start < MaxCpus.

(** The characters of the list form. *)
Definition list_form_char (c : ascii) : Prop :=
  isdigit c = true \/ c = ","%char \/ c = "-"%char.

(** The path of the group for a set, as the constructor builds it. *)
Definition group_path (MaxCpus : Z) (set : CPUSet) : string :=
  RUNEXCL_SLICE +:+ "/runexcl." +:+ text_of MaxCpus set.

(** A stream that has reached the end of its input without an error. *)
Definition eof_stream (cs : list ascii) : istream := IStream cs [] true false false.

(** Code that comes to an end in every world: it returns or throws. *)
Definition settles {A} (m : M A) : Prop :=
  forall w, match (m w).1 with Ok _ | Throw _ => True | _ => False end.

(** Code whose writes all satisfy [P]: what it leaves in [written] is what
    was there, with such writes in front. *)
Definition writes_only {A} (P : string * string -> Prop) (m : M A) : Prop :=
  forall w, exists l, written (m w).2 = l ++ written w /\ Forall P l.

(** The writes of [enableCpusetController] in [setupSlice]. *)
Definition enables_cpuset (e : string * string) : Prop :=
  e.2 = "+cpuset" /\
  (e.1 = CGROUP_ROOT +:+ "/cgroup.subtree_control" \/
   e.1 = RUNEXCL_SLICE +:+ "/cgroup.subtree_control").

(** The first line of cgroup.events of a group with [n] processes. *)
Definition populated (n : Z) : string :=
  "populated " +:+ CPUSet.msg (std_to_string n).


(** The content of affected_cpus: the CPU numbers, separated by blanks,
    and a newline. *)
Definition affected_cpus_text (cpus : list Z) : list ascii :=
  match cpus with
  | [] => [newline]
  | c :: cpus' =>
      std_to_string c ++
      flat_map (fun c => " "%char :: std_to_string c) cpus' ++ [newline]
  end.

(** A slice that has been set up before: the cpuset controller is the
    first word of both cgroup.subtree_control files, the directory of the
    slice exists, and cpuset.cpus.effective holds the mask [e]. *)
Definition slice_ready (MaxCpus : Z) (w : World) (e : CPUSet) : Prop :=
  (exists c1,
     files w !! (CGROUP_ROOT +:+ "/cgroup.subtree_control") = Some c1 /\
     contains "cpuset" (first_token c1) = true) /\
  ((CGROUP_ROOT +:+ "/cgroup.subtree_control") ∉ refused w) /\
  (RUNEXCL_SLICE ∈ dirs w) /\ (RUNEXCL_SLICE ∉ refused w) /\
  (exists c2,
     files w !! (RUNEXCL_SLICE +:+ "/cgroup.subtree_control") = Some c2 /\
     contains "cpuset" (first_token c2) = true) /\
  ((RUNEXCL_SLICE +:+ "/cgroup.subtree_control") ∉ refused w) /\
  holds_mask MaxCpus w effective_path e.

(** Complete items of a list form, each followed by its comma. *)
Definition items_prefix (its : list item) : list ascii :=
  flat_map (fun it => render_item it ++ [","%char]) its.

(** The iterations the two parsers need for a list of items. *)
Definition total_iterations (its : list item) : nat :=
  fold_right (fun it n => (iterations it + n)%nat) 0%nat its.



(* ===================================================================== *)
(** * Part II.  Lemmas and theorems                                       *)
(* ===================================================================== *)

(** ** Bits of a mask *)
Section MaskFacts.

Variable MaxCpus : Z.
Hypothesis MaxCpus_range : CPU_SETSIZE <= MaxCpus <= INT_MAX.

#[local] Abbreviation valid := (CPUSet.valid MaxCpus).
#[local] Abbreviation first := (CPUSet.first MaxCpus).
#[local] Abbreviation last := (CPUSet.last MaxCpus).
#[local] Abbreviation empty := (CPUSet.empty MaxCpus).
#[local] Abbreviation count := (CPUSet.count MaxCpus).

Lemma MaxCpus_pos : 0 < MaxCpus.
Proof. unfold CPU_SETSIZE in MaxCpus_range. lia. Qed.

Lemma valid_high_bits m i : valid m -> MaxCpus <= i -> Z.testbit m i = false.
Proof.
  intros [Hlo Hhi] Hi.
  destruct (Z.eq_dec m 0) as [->|Hne]; [apply Z.bits_0|].
  apply Z.bits_above_log2; [lia|].
  assert (Z.log2 m < MaxCpus); [|lia].
  apply Z.log2_lt_pow2; lia.
Qed.

Lemma valid_bits m i : valid m -> Z.testbit m i = true -> 0 <= i < MaxCpus.
Proof.
  intros Hv Hb. split.
  - destruct (Z_lt_le_dec i 0) as [Hneg|]; [|assumption].
    rewrite Z.testbit_neg_r in Hb by assumption. discriminate.
  - destruct (Z_lt_le_dec i MaxCpus) as [|Hge]; [assumption|].
    rewrite (valid_high_bits m i Hv Hge) in Hb. discriminate.
Qed.

Lemma valid_of_bits m :
  0 <= m -> (forall i, MaxCpus <= i -> Z.testbit m i = false) -> valid m.
Proof.
  intros Hm Hb. split; [assumption|].
  destruct (Z.eq_dec m 0) as [->|Hne].
  - apply Z.pow_pos_nonneg; pose proof MaxCpus_pos; lia.
  - apply Z.log2_lt_pow2; [lia|].
    destruct (Z_lt_le_dec (Z.log2 m) MaxCpus) as [|Hge]; [assumption|].
    specialize (Hb _ Hge). rewrite Z.bit_log2 in Hb by lia. discriminate.
Qed.

Lemma valid_zero : valid CPUSet.zero.
Proof.
  split; [reflexivity|]. apply Z.pow_pos_nonneg; pose proof MaxCpus_pos; lia.
Qed.

Lemma zero_of_no_bits m :
  valid m -> (forall i, 0 <= i < MaxCpus -> Z.testbit m i = false) -> m = 0.
Proof.
  intros Hv Hb. apply Z.bits_inj'. intros i Hi. rewrite Z.bits_0.
  destruct (Z_lt_le_dec i MaxCpus); [apply Hb; lia|].
  apply valid_high_bits; assumption.
Qed.

(** *** [count] and [empty] *)

Lemma count_loop_nonneg k : forall i m, 0 <= CPUSet.count_loop k i m.
Proof.
  induction k as [|k IH]; intros i m; simpl; [lia|].
  specialize (IH (i + 1) m). destruct (Z.testbit m i); lia.
Qed.

Lemma count_loop_zero k : forall i m,
  CPUSet.count_loop k i m = 0 <->
  (forall j, i <= j < i + Z.of_nat k -> Z.testbit m j = false).
Proof.
  induction k as [|k IH]; intros i m; simpl CPUSet.count_loop.
  - split; [intros _ j Hj; lia|reflexivity].
  - pose proof (count_loop_nonneg k (i + 1) m) as Hnn.
    specialize (IH (i + 1) m). split.
    + intros H j Hj.
      destruct (Z.testbit m i) eqn:Hi; [lia|].
      destruct (Z.eq_dec j i) as [->|Hne]; [assumption|].
      apply IH; lia.
    + intros H. rewrite (H i) by lia.
      assert (CPUSet.count_loop k (i + 1) m = 0); [|lia].
      apply IH. intros j Hj. apply H. lia.
Qed.

Lemma alloc_bits_cover : MaxCpus <= 8 * CPUSet.mSize MaxCpus.
Proof.
  unfold CPUSet.mSize.
  pose proof (Z.div_mod (MaxCpus + 63) 64 ltac:(lia)).
  pose proof (Z.mod_pos_bound (MaxCpus + 63) 64 ltac:(lia)). lia.
Qed.

Lemma empty_iff_zero m : valid m -> (empty m = true <-> m = 0).
Proof.
  intros Hv. unfold CPUSet.empty, CPUSet.count.
  rewrite Z.eqb_eq. split.
  - intros H. symmetry in H. rewrite count_loop_zero in H.
    apply zero_of_no_bits; [assumption|].
    intros i Hi. apply H. pose proof alloc_bits_cover.
    rewrite Z2Nat.id by lia. lia.
  - intros ->. symmetry. apply count_loop_zero. intros j _. apply Z.bits_0.
Qed.

(** *** [first] and [last] *)

Lemma first_loop_spec m k : forall i,
  0 <= i -> MaxCpus - i <= Z.of_nat k ->
  (CPUSet.first_loop MaxCpus k i m = -1 /\
   forall j, i <= j < MaxCpus -> Z.testbit m j = false) \/
  (i <= CPUSet.first_loop MaxCpus k i m < MaxCpus /\
   Z.testbit m (CPUSet.first_loop MaxCpus k i m) = true /\
   forall j, i <= j < CPUSet.first_loop MaxCpus k i m -> Z.testbit m j = false).
Proof.
  induction k as [|k IH]; intros i Hi Hk; simpl.
  - left. split; [reflexivity|]. intros j Hj. lia.
  - destruct (Z.ltb_spec i MaxCpus) as [Hlt|Hge].
    + unfold CPUSet.is_set. destruct (Z.testbit m i) eqn:Hb.
      * right. split; [lia|]. split; [assumption|]. intros j Hj. lia.
      * destruct (IH (i + 1)) as [[-> Hall]|(Hr & Hset & Hall)]; try lia.
        -- left. split; [reflexivity|]. intros j Hj.
           destruct (Z.eq_dec j i) as [->|]; [assumption|apply Hall; lia].
        -- right. split; [lia|]. split; [assumption|]. intros j Hj.
           destruct (Z.eq_dec j i) as [->|]; [assumption|apply Hall; lia].
    + left. split; [reflexivity|]. intros j Hj. lia.
Qed.

Lemma last_loop_spec m k : forall i,
  i < MaxCpus -> i + 1 <= Z.of_nat k ->
  (CPUSet.last_loop k i m = -1 /\
   forall j, 0 <= j <= i -> Z.testbit m j = false) \/
  (0 <= CPUSet.last_loop k i m <= i /\
   Z.testbit m (CPUSet.last_loop k i m) = true /\
   forall j, CPUSet.last_loop k i m < j <= i -> Z.testbit m j = false).
Proof.
  induction k as [|k IH]; intros i Hi Hk; simpl.
  - left. split; [reflexivity|]. intros j Hj. lia.
  - destruct (Z.geb_spec i 0) as [Hge|Hlt].
    + unfold CPUSet.is_set. destruct (Z.testbit m i) eqn:Hb.
      * right. split; [lia|]. split; [assumption|]. intros j Hj. lia.
      * destruct (IH (i - 1)) as [[-> Hall]|(Hr & Hset & Hall)]; try lia.
        -- left. split; [reflexivity|]. intros j Hj.
           destruct (Z.eq_dec j i) as [->|]; [assumption|apply Hall; lia].
        -- right. split; [lia|]. split; [assumption|]. intros j Hj.
           destruct (Z.eq_dec j i) as [->|]; [assumption|apply Hall; lia].
    + left. split; [reflexivity|]. intros j Hj. lia.
Qed.

(** C10.  For the empty mask [first()] and [last()] both return -1; for a
    non-empty mask [first()] is the smallest and [last()] the largest set
    index, both below MaxCpus. *)
Theorem first_last_spec (m : CPUSet) :
  valid m ->
  (empty m = true -> first m = -1 /\ last m = -1) /\
  (empty m = false ->
     0 <= first m /\ first m <= last m /\ last m < MaxCpus /\
     CPUSet.is_set m (first m) = true /\
     CPUSet.is_set m (last m) = true /\
     forall i, CPUSet.is_set m i = true -> first m <= i <= last m).
Proof.
  intros Hv. pose proof MaxCpus_pos as Hpos.
  pose proof (first_loop_spec m (Z.to_nat MaxCpus) 0 ltac:(lia) ltac:(lia)) as Hf.
  pose proof (last_loop_spec m (Z.to_nat MaxCpus) (MaxCpus - 1)
                ltac:(lia) ltac:(lia)) as Hl.
  fold (first m) in Hf. fold (last m) in Hl. split.
  - intros He. apply empty_iff_zero in He; [|assumption]. subst m.
    destruct Hf as [[Hf _]|(_ & Hset & _)];
      [|rewrite Z.bits_0 in Hset; discriminate].
    destruct Hl as [[Hl _]|(_ & Hset & _)];
      [|rewrite Z.bits_0 in Hset; discriminate].
    split; assumption.
  - intros He.
    assert (m <> 0) as Hne.
    { intros ->. rewrite (proj2 (empty_iff_zero 0 Hv)) in He by reflexivity.
      discriminate. }
    destruct Hf as [[_ Hall]|(Hfr & Hfs & Hfa)].
    { exfalso. apply Hne, zero_of_no_bits; [assumption|].
      intros i Hi. apply Hall. lia. }
    destruct Hl as [[_ Hall]|(Hlr & Hls & Hla)].
    { exfalso. apply Hne, zero_of_no_bits; [assumption|].
      intros i Hi. apply Hall. lia. }
    assert (forall i, CPUSet.is_set m i = true -> first m <= i <= last m) as Hb.
    { intros i Hi. unfold CPUSet.is_set in Hi.
      pose proof (valid_bits m i Hv Hi) as Hr. split.
      - destruct (Z_lt_le_dec i (first m)) as [Hlt|]; [|assumption].
        rewrite Hfa in Hi by lia. discriminate.
      - destruct (Z_lt_le_dec (last m) i) as [Hlt|]; [|assumption].
        rewrite Hla in Hi by lia. discriminate. }
    pose proof (Hb (first m) Hfs).
    split; [lia|]. split; [lia|]. split; [lia|].
    split; [assumption|]. split; assumption.
Qed.

End MaskFacts.

(** ** Characters, digits and [strtoul] *)

#[local] Arguments isdigit : simpl never.
#[local] Arguments isspace : simpl never.
#[local] Arguments Ascii.eqb : simpl never.
#[local] Arguments chr : simpl never.
#[local] Arguments digit_val : simpl never.
#[local] Arguments digit_char : simpl never.
#[local] Arguments Z.pow : simpl never.

Lemma chr_range c : 0 <= chr c < 256.
Proof.
  unfold chr. pose proof (N_ascii_bounded c) as H. lia.
Qed.

Lemma chr_inj c d : chr c = chr d -> c = d.
Proof.
  unfold chr. intros H. apply N2Z.inj in H.
  rewrite <- (ascii_N_embedding c), <- (ascii_N_embedding d). congruence.
Qed.

Lemma isdigit_chr c : isdigit c = true <-> 48 <= chr c <= 57.
Proof. unfold isdigit. rewrite andb_true_iff, !Z.leb_le. reflexivity. Qed.

Lemma isdigit_not_space c : isdigit c = true -> isspace c = false.
Proof.
  rewrite isdigit_chr. intros H. unfold isspace.
  apply orb_false_iff. split; [apply Z.eqb_neq; lia|].
  apply andb_false_iff. right. apply Z.leb_gt. lia.
Qed.

Lemma isdigit_not c x : isdigit c = true -> isdigit x = false -> Ascii.eqb c x = false.
Proof.
  intros Hc Hx. apply Ascii.eqb_neq. intros ->. congruence.
Qed.

Lemma digit_val_range c : isdigit c = true -> 0 <= digit_val c <= 9.
Proof. rewrite isdigit_chr. unfold digit_val. lia. Qed.

Lemma digit_char_spec d :
  0 <= d <= 9 -> isdigit (digit_char d) = true /\ digit_val (digit_char d) = d.
Proof.
  intros H.
  assert (d = 0 \/ d = 1 \/ d = 2 \/ d = 3 \/ d = 4 \/
          d = 5 \/ d = 6 \/ d = 7 \/ d = 8 \/ d = 9) as Hd by lia.
  repeat (destruct Hd as [->|Hd]; [split; reflexivity|]).
  subst d. split; reflexivity.
Qed.

Lemma span_digits_app ds rest :
  all_digits ds -> no_digit_ahead rest -> span_digits (ds ++ rest) = (ds, rest).
Proof.
  intros Hds Hrest. induction Hds as [|c ds Hc _ IH]; simpl.
  - destruct rest as [|c r]; [reflexivity|].
    unfold no_digit_ahead in Hrest. simpl in Hrest. simpl. rewrite Hrest.
    reflexivity.
  - rewrite Hc, IH. reflexivity.
Qed.

Lemma span_digits_spec s ds rest :
  span_digits s = (ds, rest) ->
  s = ds ++ rest /\ all_digits ds /\ no_digit_ahead rest.
Proof.
  revert ds rest. induction s as [|c s IH]; intros ds rest H; simpl in H.
  - inversion H; subst. split; [reflexivity|]. split; [constructor|reflexivity].
  - destruct (isdigit c) eqn:Hc.
    + destruct (span_digits s) as [ds' r'] eqn:Hs. inversion H; subst.
      destruct (IH _ _ eq_refl) as (-> & Hd & Hr).
      split; [reflexivity|]. split; [constructor; assumption|assumption].
    + inversion H; subst. split; [reflexivity|]. split; [constructor|exact Hc].
Qed.

Lemma decimal_snoc ds c : decimal (ds ++ [c]) = decimal ds * 10 + digit_val c.
Proof. unfold decimal. rewrite fold_left_app. reflexivity. Qed.

Lemma decimal_nonneg ds : all_digits ds -> 0 <= decimal ds.
Proof.
  intros H. induction ds as [|c ds IH] using rev_ind; [reflexivity|].
  apply Forall_app in H as [Hds Hc]. inversion Hc; subst.
  rewrite decimal_snoc. pose proof (digit_val_range c ltac:(assumption)).
  specialize (IH Hds). lia.
Qed.

(** *** [std::to_string] *)

Lemma digits_of_acc k : forall n acc, digits_of k n acc = digits_of k n [] ++ acc.
Proof.
  induction k as [|k IH]; intros n acc; simpl; [reflexivity|].
  destruct (n <? 10); [reflexivity|].
  rewrite (IH _ (_ :: acc)), (IH _ [_]), <- app_assoc. reflexivity.
Qed.

Lemma digits_of_spec k : forall n,
  0 <= n < 10 ^ Z.of_nat k -> (0 < k)%nat ->
  all_digits (digits_of k n []) /\ digits_of k n [] <> [] /\
  decimal (digits_of k n []) = n.
Proof.
  induction k as [|k IH]; intros n Hn Hk; [lia|]. simpl digits_of.
  pose proof (Z.mod_pos_bound n 10 ltac:(lia)) as Hm.
  destruct (digit_char_spec (n mod 10) ltac:(lia)) as [Hd Hv].
  destruct (Z.ltb_spec n 10) as [Hlt|Hge].
  - split; [|split].
    + constructor; [assumption|constructor].
    + discriminate.
    + rewrite Z.mod_small in * by lia. unfold decimal. simpl. lia.
  - rewrite digits_of_acc.
    assert (0 <= n / 10 < 10 ^ Z.of_nat k) as Hq.
    { rewrite Nat2Z.inj_succ, Z.pow_succ_r in Hn by lia.
      split; [apply Z.div_pos; lia|apply Z.div_lt_upper_bound; lia]. }
    assert (0 < k)%nat as Hk'.
    { destruct k; [|lia]. simpl in Hq. lia. }
    destruct (IH (n / 10) Hq Hk') as (Ha & Hne & Hdec).
    split; [|split].
    + apply Forall_app. split; [assumption|]. constructor; [assumption|constructor].
    + intros H. apply app_eq_nil in H as [_ H]. discriminate.
    + rewrite decimal_snoc, Hdec, Hv. pose proof (Z.div_mod n 10). lia.
Qed.

Lemma std_to_string_spec n :
  0 <= n <= ULONG_MAX ->
  all_digits (std_to_string n) /\ std_to_string n <> [] /\
  decimal (std_to_string n) = n.
Proof.
  intros Hn. unfold std_to_string.
  destruct (Z.ltb_spec n 0); [lia|].
  apply digits_of_spec; [|lia].
  unfold ULONG_MAX in Hn. split; [lia|].
  change (10 ^ Z.of_nat 20) with 100000000000000000000. lia.
Qed.

(** *** [strtoul] on a number that stands at the front *)

Lemma skip_space_digit c s : isdigit c = true -> skip_space (c :: s) = c :: s.
Proof. intros H. simpl. rewrite (isdigit_not_space c H). reflexivity. Qed.

Lemma strtoul_digits ds rest :
  all_digits ds -> ds <> [] -> no_digit_ahead rest ->
  strtoul (ds ++ rest) = (saturate (decimal ds), rest).
Proof.
  intros Hds Hne Hrest. unfold strtoul.
  destruct ds as [|c ds]; [congruence|]. inversion Hds as [|? ? Hc Hds']; subst.
  change ((c :: ds) ++ rest) with (c :: ds ++ rest).
  rewrite (skip_space_digit c _ Hc).
  rewrite (isdigit_not c "-" Hc eq_refl), (isdigit_not c "+" Hc eq_refl).
  change (c :: ds ++ rest) with ((c :: ds) ++ rest).
  rewrite (span_digits_app (c :: ds) rest Hds Hrest). reflexivity.
Qed.

Lemma strtoul_minus ds rest :
  all_digits ds -> ds <> [] -> no_digit_ahead rest ->
  strtoul ("-"%char :: ds ++ rest) =
    (if decimal ds >? ULONG_MAX then ULONG_MAX
     else (2 ^ 64 - decimal ds) mod 2 ^ 64, rest).
Proof.
  intros Hds Hne Hrest. unfold strtoul.
  change (skip_space ("-"%char :: ds ++ rest)) with ("-"%char :: ds ++ rest).
  cbv beta iota zeta. change (Ascii.eqb "-" "-") with true. cbv beta iota zeta.
  rewrite (span_digits_app ds rest Hds Hrest).
  destruct ds; [congruence|reflexivity].
Qed.

(** ** Setting bits *)

Lemma testbit_set m n i :
  0 <= n -> Z.testbit (CPUSet.set m n) i = Z.testbit m i || (i =? n).
Proof.
  intros Hn. unfold CPUSet.set.
  rewrite Z.lor_spec, Z.shiftl_1_l, Z.pow2_bits_eqb by assumption.
  rewrite (Z.eqb_sym n i). reflexivity.
Qed.

Lemma set_nonneg m n : 0 <= m -> 0 <= n -> 0 <= CPUSet.set m n.
Proof.
  intros Hm Hn. unfold CPUSet.set. apply Z.lor_nonneg. split; [assumption|].
  apply Z.shiftl_nonneg. lia.
Qed.

Lemma set_range_spec k : forall start cpu m,
  0 <= start -> 0 <= m -> cpu - start + 1 <= Z.of_nat k ->
  0 <= CPUSet.set_range k start cpu m /\
  forall i, Z.testbit (CPUSet.set_range k start cpu m) i =
            Z.testbit m i || ((start <=? i) && (i <=? cpu)).
Proof.
  induction k as [|k IH]; intros start cpu m Hs Hm Hk; simpl.
  - split; [assumption|]. intros i.
    destruct (Z.leb_spec start i), (Z.leb_spec i cpu); try lia;
      rewrite ?orb_false_r; reflexivity.
  - destruct (Z.leb_spec start cpu) as [Hle|Hgt].
    + destruct (IH (start + 1) cpu (CPUSet.set m start)) as [Hnn Hbits];
        [lia|apply set_nonneg; assumption|lia|].
      split; [assumption|]. intros i. rewrite Hbits, testbit_set by assumption.
      destruct (Z.eqb_spec i start), (Z.leb_spec start i),
        (Z.leb_spec (start + 1) i), (Z.leb_spec i cpu); try lia;
        rewrite ?orb_false_r, ?orb_true_r; reflexivity.
    + split; [assumption|]. intros i.
      destruct (Z.leb_spec start i), (Z.leb_spec i cpu); try lia;
        rewrite ?orb_false_r; reflexivity.
Qed.

Lemma set_from_to_spec start cpu m :
  0 <= start -> 0 <= m ->
  0 <= CPUSet.set_from_to start cpu m /\
  forall i, Z.testbit (CPUSet.set_from_to start cpu m) i =
            Z.testbit m i || ((start <=? i) && (i <=? cpu)).
Proof.
  intros Hs Hm. apply set_range_spec; [assumption|assumption|lia].
Qed.

(** ** [parse] on the strings of the list form *)
Section ParseFacts.

Variable MaxCpus : Z.
Hypothesis MaxCpus_range : CPU_SETSIZE <= MaxCpus <= INT_MAX.

#[local] Abbreviation parse_loop := (CPUSet.parse_loop MaxCpus).
#[local] Abbreviation parse_body := (CPUSet.parse_body MaxCpus).
#[local] Abbreviation parse := (CPUSet.parse MaxCpus).

Lemma saturate_small v : v < MaxCpus -> saturate v = v.
Proof.
  intros Hv. unfold saturate, ULONG_MAX. unfold INT_MAX in MaxCpus_range.
  destruct (Z.gtb_spec v (2 ^ 64 - 1)); [lia|reflexivity].
Qed.

Lemma length_suffix_neq (ds rest : list ascii) :
  ds <> [] -> (length rest =? length (ds ++ rest))%nat = false.
Proof.
  intros Hne. apply Nat.eqb_neq. rewrite length_app.
  destruct ds; [congruence|simpl; lia].
Qed.

Lemma parse_body_number continue at_str start ds rest m :
  cpu_number MaxCpus ds -> no_digit_ahead rest ->
  parse_body continue at_str start (ds ++ rest) m =
  CPUSet.parse_switch continue start (decimal ds) rest m.
Proof.
  intros (Hds & Hne & Hlt) Hrest. unfold CPUSet.parse_body.
  rewrite (strtoul_digits ds rest Hds Hne Hrest), (saturate_small _ Hlt).
  rewrite (length_suffix_neq ds rest Hne).
  destruct (Z.geb_spec (decimal ds) MaxCpus); [lia|reflexivity].
Qed.

Lemma parse_switch_comma continue start cpu rest m :
  CPUSet.parse_switch continue start cpu (","%char :: rest) m =
  if -1 =? start then continue false start rest (CPUSet.set m cpu)
  else if start >? cpu then
    Throw (Exn out_of_range
             (CPUSet.msg (CPUSet.str "Invalid CPU range " ++ std_to_string start ++
                          CPUSet.str "-" ++ std_to_string cpu ++
                          CPUSet.str " in cpuset string")))
  else continue false (-1) rest (CPUSet.set_from_to start cpu m).
Proof. reflexivity. Qed.

Lemma parse_switch_nil continue start cpu m :
  CPUSet.parse_switch continue start cpu [] m =
  if -1 =? start then Ok (CPUSet.set m cpu)
  else if start >? cpu then
    Throw (Exn out_of_range
             (CPUSet.msg (CPUSet.str "Invalid CPU range " ++ std_to_string start ++
                          CPUSet.str "-" ++ std_to_string cpu ++
                          CPUSet.str " in cpuset string")))
  else Ok (CPUSet.set_from_to start cpu m).
Proof. reflexivity. Qed.

Lemma parse_switch_hyphen continue start cpu rest m :
  CPUSet.parse_switch continue start cpu ("-"%char :: rest) m =
  if negb (-1 =? start) then
    Throw (Exn invalid_argument "Invalid syntax in cpuset string")
  else continue false cpu rest m.
Proof. reflexivity. Qed.

Lemma no_digit_ahead_nil : no_digit_ahead [].
Proof. reflexivity. Qed.

Lemma no_digit_ahead_comma r : no_digit_ahead (","%char :: r).
Proof. reflexivity. Qed.

Lemma no_digit_ahead_hyphen r : no_digit_ahead ("-"%char :: r).
Proof. reflexivity. Qed.

Lemma cpu_number_nonneg ds : cpu_number MaxCpus ds -> 0 <= decimal ds.
Proof. intros (Hds & _). apply decimal_nonneg. assumption. Qed.

Lemma iterations_le_length it :
  valid_item MaxCpus it -> (iterations it <= length (render_item it))%nat.
Proof.
  destruct it as [a|a b]; simpl.
  - intros (_ & Hne & _). destruct a; [congruence|simpl; lia].
  - intros ((_ & Hne & _) & _). rewrite length_app. simpl.
    destruct a; [congruence|simpl; lia].
Qed.

(** What the ranges of a valid item give in the switch. *)
Lemma range_checks a b :
  cpu_number MaxCpus a -> decimal a <= decimal b ->
  (-1 =? decimal a) = false /\ (decimal a >? decimal b) = false.
Proof.
  intros Ha Hle. pose proof (cpu_number_nonneg a Ha). split.
  - apply Z.eqb_neq. lia.
  - destruct (Z.gtb_spec (decimal a) (decimal b)); [lia|reflexivity].
Qed.

Lemma parse_item_comma it at_str rest m f :
  valid_item MaxCpus it ->
  parse_loop (iterations it + f) at_str (-1) (render_item it ++ ","%char :: rest) m =
  parse_loop f false (-1) rest (add_item m it).
Proof.
  destruct it as [a|a b]; simpl iterations; simpl render_item.
  - intros Ha. simpl CPUSet.parse_loop.
    rewrite (parse_body_number _ _ _ a _ _ Ha (no_digit_ahead_comma rest)).
    rewrite parse_switch_comma. reflexivity.
  - intros (Ha & Hb & Hle). simpl CPUSet.parse_loop.
    rewrite <- app_assoc, <- app_comm_cons.
    rewrite (parse_body_number _ _ _ a _ _ Ha (no_digit_ahead_hyphen _)).
    rewrite parse_switch_hyphen. simpl negb. cbv iota.
    rewrite (parse_body_number _ _ _ b _ _ Hb (no_digit_ahead_comma rest)).
    rewrite parse_switch_comma.
    destruct (range_checks a b Ha Hle) as [-> ->]. reflexivity.
Qed.

Lemma parse_item_end it at_str m f :
  valid_item MaxCpus it ->
  parse_loop (iterations it + f) at_str (-1) (render_item it) m =
  Ok (add_item m it).
Proof.
  destruct it as [a|a b]; simpl iterations; simpl render_item.
  - intros Ha. simpl CPUSet.parse_loop. rewrite <- (app_nil_r a) at 1.
    rewrite (parse_body_number _ _ _ a _ _ Ha no_digit_ahead_nil).
    rewrite parse_switch_nil. reflexivity.
  - intros (Ha & Hb & Hle). simpl CPUSet.parse_loop.
    rewrite (parse_body_number _ _ _ a _ _ Ha (no_digit_ahead_hyphen _)).
    rewrite parse_switch_hyphen. simpl negb. cbv iota.
    rewrite <- (app_nil_r b) at 1.
    rewrite (parse_body_number _ _ _ b _ _ Hb no_digit_ahead_nil).
    rewrite parse_switch_nil.
    destruct (range_checks a b Ha Hle) as [-> ->]. reflexivity.
Qed.

Lemma render_cons it it' its :
  render (it :: it' :: its) = render_item it ++ ","%char :: render (it' :: its).
Proof. reflexivity. Qed.

Lemma parse_loop_items its :
  Forall (valid_item MaxCpus) its -> its <> [] ->
  forall fuel at_str m,
    (length (render its) < fuel)%nat ->
    parse_loop fuel at_str (-1) (render its) m = Ok (fold_left add_item its m).
Proof.
  induction its as [|it its IH]; intros Hv Hne fuel at_str m Hfuel; [congruence|].
  inversion Hv as [|? ? Hit Hits]; subst.
  pose proof (iterations_le_length it Hit) as Hlen.
  destruct its as [|it' its].
  - simpl render in *. rewrite app_nil_r in *.
    replace fuel with (iterations it + (fuel - iterations it))%nat by lia.
    rewrite (parse_item_end it at_str m _ Hit). reflexivity.
  - rewrite render_cons in *. rewrite length_app in Hfuel. cbn [length] in Hfuel.
    replace fuel with (iterations it + (fuel - iterations it))%nat by lia.
    rewrite (parse_item_comma it at_str _ m _ Hit).
    rewrite IH; [reflexivity|assumption|discriminate|lia].
Qed.

(** Every string of the list form parses, to the mask it stands for. *)
Lemma parse_render its :
  Forall (valid_item MaxCpus) its -> parse (render its) = Ok (mask_of its).
Proof.
  intros Hv. destruct its as [|it its]; [reflexivity|].
  unfold CPUSet.parse, mask_of.
  apply parse_loop_items; [assumption|discriminate|lia].
Qed.

End ParseFacts.

(** ** [to_string] and the round trip through [parse] *)
Section FormatFacts.

Variable MaxCpus : Z.
Hypothesis MaxCpus_range : CPU_SETSIZE <= MaxCpus <= INT_MAX.

#[local] Abbreviation valid := (CPUSet.valid MaxCpus).
#[local] Abbreviation parse := (CPUSet.parse MaxCpus).
#[local] Abbreviation to_string := (CPUSet.to_string MaxCpus).
#[local] Abbreviation run_end := (CPUSet.run_end MaxCpus).

Lemma to_string_loop_runs m k : forall n first result,
  CPUSet.to_string_loop MaxCpus k n first result m =
  result ++ (if first then render (map run_item (runs_loop MaxCpus k n m))
             else render_tail (map run_item (runs_loop MaxCpus k n m))).
Proof.
  induction k as [|k IH]; intros n first result; simpl.
  - destruct first; simpl; rewrite app_nil_r; reflexivity.
  - destruct (n <? MaxCpus).
    + destruct (CPUSet.is_set m n).
      * rewrite IH. simpl map.
        set (e := run_end k (n + 1) m).
        set (rest := render_tail (map run_item (runs_loop MaxCpus k (e + 1) m))).
        unfold run_item. simpl fst. simpl snd.
        destruct first, (negb (n =? e - 1)); simpl render; simpl render_tail;
          fold rest; simpl render_item;
          repeat rewrite <- app_assoc; reflexivity.
      * apply IH.
    + destruct first; simpl; rewrite app_nil_r; reflexivity.
Qed.

Lemma to_string_runs m :
  to_string m = render (map run_item (runs_loop MaxCpus (Z.to_nat MaxCpus) 0 m)).
Proof. unfold CPUSet.to_string. rewrite to_string_loop_runs. reflexivity. Qed.

Lemma run_end_spec m k : forall n,
  n <= MaxCpus -> MaxCpus - n <= Z.of_nat k ->
  n <= run_end k n m <= MaxCpus /\
  (forall j, n <= j < run_end k n m -> Z.testbit m j = true) /\
  (run_end k n m < MaxCpus -> Z.testbit m (run_end k n m) = false).
Proof.
  induction k as [|k IH]; intros n Hn Hk; simpl.
  - split; [lia|]. split; [intros j Hj; lia|intros; lia].
  - destruct (Z.ltb_spec n MaxCpus) as [Hlt|Hge].
    + unfold CPUSet.is_set. destruct (Z.testbit m n) eqn:Hb; simpl negb; cbv iota.
      * destruct (IH (n + 1)) as (Hr & Hall & Hstop); [lia|lia|].
        split; [lia|]. split; [|assumption].
        intros j Hj. destruct (Z.eq_dec j n) as [->|]; [assumption|apply Hall; lia].
      * split; [lia|]. split; [intros j Hj; lia|intros _; assumption].
    + split; [lia|]. split; [intros j Hj; lia|intros; lia].
Qed.

Lemma run_item_valid r : in_range MaxCpus r -> valid_item MaxCpus (run_item r).
Proof.
  destruct r as [a b]. unfold in_range, run_item. simpl. intros [Hab Hb].
  unfold INT_MAX in MaxCpus_range.
  assert (forall n, 0 <= n < MaxCpus -> cpu_number MaxCpus (std_to_string n)) as Hnum.
  { intros n Hn.
    destruct (std_to_string_spec n) as (H1 & H2 & H3); [unfold ULONG_MAX; lia|].
    split; [assumption|]. split; [assumption|]. rewrite H3. lia. }
  destruct (Z.eqb_spec a b) as [->|Hne]; simpl.
  - apply Hnum. lia.
  - split; [apply Hnum; lia|]. split; [apply Hnum; lia|].
    destruct (std_to_string_spec a) as (_ & _ & ->); [unfold ULONG_MAX; lia|].
    destruct (std_to_string_spec b) as (_ & _ & ->); [unfold ULONG_MAX; lia|].
    lia.
Qed.

Lemma add_run_item acc a b :
  0 <= a <= b -> b < MaxCpus -> 0 <= acc ->
  0 <= add_item acc (run_item (a, b)) /\
  forall i, Z.testbit (add_item acc (run_item (a, b))) i =
            Z.testbit acc i || ((a <=? i) && (i <=? b)).
Proof.
  intros Hab Hb Hacc. unfold run_item. simpl fst. simpl snd.
  unfold INT_MAX in MaxCpus_range.
  destruct (std_to_string_spec a) as (_ & _ & Ha); [unfold ULONG_MAX; lia|].
  destruct (std_to_string_spec b) as (_ & _ & Hb'); [unfold ULONG_MAX; lia|].
  destruct (Z.eqb_spec a b) as [->|Hne]; simpl negb; cbv iota; simpl add_item.
  - rewrite Ha. split; [apply set_nonneg; lia|].
    intros i. rewrite testbit_set by lia.
    destruct (Z.eqb_spec i b), (Z.leb_spec b i), (Z.leb_spec i b); try lia;
      reflexivity.
  - rewrite Ha, Hb'. apply set_from_to_spec; lia.
Qed.

Lemma runs_loop_spec m k : forall n acc,
  0 <= n -> MaxCpus - n <= Z.of_nat k -> 0 <= acc ->
  Forall (in_range MaxCpus) (runs_loop MaxCpus k n m) /\
  0 <= fold_left add_item (map run_item (runs_loop MaxCpus k n m)) acc /\
  forall i, Z.testbit (fold_left add_item (map run_item (runs_loop MaxCpus k n m)) acc) i =
            Z.testbit acc i || ((n <=? i) && (i <? MaxCpus) && Z.testbit m i).
Proof.
  induction k as [|k IH]; intros n acc Hn Hk Hacc; simpl runs_loop.
  - simpl. split; [constructor|]. split; [assumption|]. intros i.
    destruct (Z.leb_spec n i), (Z.ltb_spec i MaxCpus); try lia;
      simpl; rewrite orb_false_r; reflexivity.
  - destruct (Z.ltb_spec n MaxCpus) as [Hlt|Hge].
    + unfold CPUSet.is_set. destruct (Z.testbit m n) eqn:Hb.
      * destruct (run_end_spec m k (n + 1)) as (Hr & Hall & Hstop); [lia|lia|].
        set (e := run_end k (n + 1) m) in *.
        destruct (add_run_item acc n (e - 1)) as [Hnn Hbits]; [lia|lia|assumption|].
        destruct (IH (e + 1) (add_item acc (run_item (n, e - 1))))
          as (Hin & Hnn' & Hbits'); [lia|lia|assumption|].
        simpl map. simpl fold_left.
        split; [constructor; [unfold in_range; cbn [fst snd]; lia|assumption]|].
        split; [assumption|].
        intros i. rewrite Hbits', Hbits.
        destruct (Z.leb_spec n i), (Z.leb_spec i (e - 1)), (Z.leb_spec (e + 1) i),
          (Z.ltb_spec i MaxCpus); try lia; simpl;
          rewrite ?orb_false_r, ?orb_true_r; try reflexivity.
        -- destruct (Z.eq_dec i n) as [->|]; [rewrite Hb|rewrite Hall by lia];
             rewrite orb_true_r; reflexivity.
        -- assert (i = e) as -> by lia. rewrite Hstop by lia.
           rewrite orb_false_r. reflexivity.
      * destruct (IH (n + 1) acc) as (Hin & Hnn & Hbits); [lia|lia|assumption|].
        split; [assumption|]. split; [assumption|].
        intros i. rewrite Hbits.
        destruct (Z.eq_dec i n) as [->|Hne].
        -- rewrite Hb. rewrite !andb_false_r. reflexivity.
        -- destruct (Z.leb_spec n i), (Z.leb_spec (n + 1) i); try lia; reflexivity.
    + simpl. split; [constructor|]. split; [assumption|]. intros i.
      destruct (Z.leb_spec n i), (Z.ltb_spec i MaxCpus); try lia;
        simpl; rewrite orb_false_r; reflexivity.
Qed.

Lemma mask_of_runs m :
  valid m -> mask_of (map run_item (runs_loop MaxCpus (Z.to_nat MaxCpus) 0 m)) = m.
Proof.
  intros Hv. unfold mask_of, CPUSet.zero.
  destruct (runs_loop_spec m (Z.to_nat MaxCpus) 0 0) as (_ & _ & Hbits);
    [lia|unfold CPU_SETSIZE in MaxCpus_range; lia|lia|].
  apply Z.bits_inj'. intros i Hi. rewrite Hbits, Z.bits_0. simpl orb.
  destruct (Z.leb_spec 0 i); [|lia]. simpl.
  destruct (Z.ltb_spec i MaxCpus); simpl; [reflexivity|].
  symmetry. apply (valid_high_bits MaxCpus); assumption.
Qed.

Lemma to_string_zero : to_string CPUSet.zero = [].
Proof.
  unfold CPUSet.to_string.
  assert (forall k n first result,
             CPUSet.to_string_loop MaxCpus k n first result CPUSet.zero = result) as H.
  { induction k as [|k IH]; intros n first result; simpl; [reflexivity|].
    unfold CPUSet.is_set, CPUSet.zero. rewrite Z.bits_0.
    destruct (n <? MaxCpus); [apply IH|reflexivity]. }
  apply H.
Qed.

(** *** The counter of [to_string] as an [int] *)

Lemma int_succ_below n : n < INT_MAX -> CPUSet.int_succ n = Some (n + 1).
Proof.
  intros H. unfold CPUSet.int_succ. destruct (Z.ltb_spec n INT_MAX); [reflexivity|lia].
Qed.

Lemma run_end_int_agrees m k : forall n,
  n <= MaxCpus ->
  CPUSet.run_end_int MaxCpus k n m = Some (run_end k n m) /\
  run_end k n m <= MaxCpus.
Proof.
  induction k as [|k IH]; intros n Hn; cbn [CPUSet.run_end_int CPUSet.run_end];
    [split; [reflexivity|exact Hn]|].
  destruct (Z.ltb_spec n MaxCpus) as [Hlt|Hge]; [|split; [reflexivity|exact Hn]].
  destruct (negb (CPUSet.is_set m n)); [split; [reflexivity|exact Hn]|].
  rewrite int_succ_below by lia. apply IH. lia.
Qed.

(** As long as the kernel's maximum is below INT_MAX no increment
    overflows, and the counter without a bound is the counter of the
    program. *)
Lemma to_string_loop_int_agrees m k : forall n first result,
  MaxCpus < INT_MAX ->
  CPUSet.to_string_loop_int MaxCpus k n first result m =
  Some (CPUSet.to_string_loop MaxCpus k n first result m).
Proof.
  induction k as [|k IH]; intros n first result Hmax;
    cbn [CPUSet.to_string_loop_int CPUSet.to_string_loop]; [reflexivity|].
  destruct (Z.ltb_spec n MaxCpus) as [Hlt|Hge]; [|reflexivity].
  rewrite int_succ_below by lia.
  destruct (CPUSet.is_set m n); [|apply IH; exact Hmax].
  destruct (run_end_int_agrees m k (n + 1) ltac:(lia)) as (-> & Hle).
  cbv zeta. rewrite int_succ_below by lia. apply IH. exact Hmax.
Qed.

Lemma to_string_int_agrees m :
  MaxCpus < INT_MAX -> CPUSet.to_string_int MaxCpus m = Some (to_string m).
Proof.
  intros Hmax. apply to_string_loop_int_agrees. exact Hmax.
Qed.

(** With the maximum at INT_MAX and the last CPU set, the increment behind
    the last run overflows. *)
Lemma to_string_loop_int_overflows m k : forall n first result,
  MaxCpus = INT_MAX -> CPUSet.is_set m (MaxCpus - 1) = true ->
  n < MaxCpus -> MaxCpus - n <= Z.of_nat k ->
  CPUSet.to_string_loop_int MaxCpus k n first result m = None.
Proof.
  induction k as [|k IH]; intros n first result Hmax Hlast Hn Hk; [lia|].
  cbn [CPUSet.to_string_loop_int].
  destruct (Z.ltb_spec n MaxCpus) as [_|Hge]; [|lia].
  rewrite int_succ_below by lia.
  destruct (CPUSet.is_set m n) eqn:Hset.
  - destruct (run_end_int_agrees m k (n + 1) ltac:(lia)) as (-> & Hle).
    cbv zeta.
    destruct (run_end_spec m k (n + 1) ltac:(lia) ltac:(lia)) as (Hb & _ & Hstop).
    destruct (Z.eq_dec (run_end k (n + 1) m) MaxCpus) as [He|He].
    + unfold CPUSet.int_succ. rewrite He.
      destruct (Z.ltb_spec MaxCpus INT_MAX); [lia|reflexivity].
    + rewrite int_succ_below by lia.
      assert (run_end k (n + 1) m <> MaxCpus - 1) as Hnot.
      { intros Heq. specialize (Hstop ltac:(lia)). rewrite Heq in Hstop.
        unfold CPUSet.is_set in Hlast. congruence. }
      apply IH; [exact Hmax|exact Hlast|lia|lia].
  - assert (n <> MaxCpus - 1) as Hnot by (intros ->; congruence).
    apply IH; [exact Hmax|exact Hlast|lia|lia].
Qed.

Lemma to_string_int_overflows m :
  MaxCpus = INT_MAX -> CPUSet.is_set m (MaxCpus - 1) = true ->
  CPUSet.to_string_int MaxCpus m = None.
Proof.
  intros Hmax Hlast. apply to_string_loop_int_overflows; [exact Hmax|exact Hlast| |].
  - unfold CPU_SETSIZE in MaxCpus_range. lia.
  - unfold CPU_SETSIZE in MaxCpus_range. rewrite Z2Nat.id by lia. lia.
Qed.

(** C7.  On a machine whose maximum number of CPUs is below INT_MAX,
    [to_string] formats every mask without an overflow of its counter, and
    parsing the list form it produces gives the mask back; the empty mask
    is formatted as the empty string, and the empty string parses to the
    empty mask. *)
Theorem parse_to_string_roundtrip :
  MaxCpus < INT_MAX ->
  (forall m : CPUSet,
      valid m ->
      CPUSet.to_string_int MaxCpus m = Some (to_string m) /\
      parse (to_string m) = Ok m) /\
  to_string CPUSet.zero = [] /\
  CPUSet.to_string_int MaxCpus CPUSet.zero = Some [] /\
  parse [] = Ok CPUSet.zero.
Proof.
  intros Hmax.
  split; [|split; [apply to_string_zero|split; [|reflexivity]]].
  - intros m Hv. split; [apply to_string_int_agrees; exact Hmax|].
    rewrite to_string_runs.
    rewrite (parse_render MaxCpus MaxCpus_range).
    + rewrite (mask_of_runs m Hv). reflexivity.
    + apply List.Forall_map.
      destruct (runs_loop_spec m (Z.to_nat MaxCpus) 0 0) as (Hin & _);
        [lia|unfold CPU_SETSIZE in MaxCpus_range; lia|lia|].
      eapply List.Forall_impl; [|exact Hin]. intros r Hr. apply run_item_valid.
      exact Hr.
  - rewrite (to_string_int_agrees CPUSet.zero Hmax), to_string_zero. reflexivity.
Qed.

End FormatFacts.

(** ** The shape of what [strtoul] takes *)

Lemma skip_space_spec s :
  exists w, s = w ++ skip_space s /\ all_space w /\ isspace (cur (skip_space s)) = false.
Proof.
  induction s as [|c s (w & Hs & Hw & Hc)]; simpl.
  - exists []. split; [reflexivity|]. split; [constructor|reflexivity].
  - destruct (isspace c) eqn:Hsp.
    + exists (c :: w). split; [simpl; congruence|].
      split; [constructor; assumption|assumption].
    + exists []. split; [reflexivity|]. split; [constructor|exact Hsp].
Qed.

(** Either nothing is converted and [end] is the start, or the string begins
    with white space, an optional sign and at least one digit, and [end] is
    what follows the digits. *)
Lemma strtoul_cases pos :
  strtoul pos = (0, pos) \/
  exists w sg ds e,
    pos = w ++ sg ++ ds ++ e /\ all_space w /\ is_sign sg /\
    all_digits ds /\ ds <> [] /\ no_digit_ahead e /\
    snd (strtoul pos) = e /\ 0 <= fst (strtoul pos).
Proof.
  unfold strtoul.
  destruct (skip_space_spec pos) as (w & Hpos & Hw & Hns).
  set (s := skip_space pos) in *.
  assert (exists neg sg s1, s = sg ++ s1 /\ is_sign sg /\
            (match s with
             | c :: s' =>
                 if Ascii.eqb c "-" then (true, s')
                 else if Ascii.eqb c "+" then (false, s')
                 else (false, s)
             | [] => (false, s)
             end) = (neg, s1)) as (neg & sg & s1 & Hs & Hsg & ->).
  { destruct s as [|c s'].
    - exists false, [], []. split; [reflexivity|]. split; [left; reflexivity|reflexivity].
    - destruct (Ascii.eqb_spec c "-") as [->|];
        [exists true, ["-"%char], s'; split; [reflexivity|];
         split; [right; left; reflexivity|reflexivity]|].
      destruct (Ascii.eqb_spec c "+") as [->|];
        [exists false, ["+"%char], s'; split; [reflexivity|];
         split; [right; right; reflexivity|reflexivity]|].
      exists false, [], (c :: s'). split; [reflexivity|].
      split; [left; reflexivity|reflexivity]. }
  destruct (span_digits s1) as [ds e] eqn:Hspan.
  destruct (span_digits_spec _ _ _ Hspan) as (-> & Hds & He).
  destruct ds as [|d ds]; [left; reflexivity|].
  right. exists w, sg, (d :: ds), e.
  split; [rewrite Hpos at 1; rewrite Hs; reflexivity|].
  split; [assumption|]. split; [assumption|]. split; [assumption|].
  split; [discriminate|]. split; [assumption|]. split; [reflexivity|].
  cbn [fst]. pose proof (decimal_nonneg _ Hds) as Hnn. unfold ULONG_MAX.
  destruct (decimal (d :: ds) >? 2 ^ 64 - 1); [lia|].
  destruct neg; [apply Z.mod_pos_bound; lia|assumption].
Qed.

Lemma strtoul_progress (pos w sg ds e : list ascii) :
  pos = w ++ sg ++ ds ++ e -> ds <> [] ->
  (length e =? length pos)%nat = false.
Proof.
  intros -> Hne. apply Nat.eqb_neq. rewrite !length_app.
  destruct ds; [congruence|simpl; lia].
Qed.

(** *** A separator behind the text does not change what [strtoul] takes *)

Lemma skip_space_app x b y :
  isspace b = false -> skip_space (x ++ b :: y) = skip_space x ++ b :: y.
Proof.
  intros Hb. induction x as [|c x IH]; simpl.
  - rewrite Hb. reflexivity.
  - destruct (isspace c); [assumption|reflexivity].
Qed.

Lemma span_digits_sep s b y :
  isdigit b = false ->
  span_digits (s ++ b :: y) = (fst (span_digits s), snd (span_digits s) ++ b :: y).
Proof.
  intros Hb. induction s as [|c s IH]; simpl.
  - rewrite Hb. reflexivity.
  - destruct (isdigit c); [|reflexivity].
    rewrite IH. destruct (span_digits s). reflexivity.
Qed.

Lemma strtoul_sep x b y :
  isdigit b = false -> isspace b = false ->
  (Ascii.eqb b "-" = false /\ Ascii.eqb b "+" = false) \/ skip_space x <> [] ->
  strtoul (x ++ b :: y) = (fst (strtoul x), snd (strtoul x) ++ b :: y).
Proof.
  intros Hd Hs Hsign. unfold strtoul. rewrite (skip_space_app x b y Hs).
  destruct (skip_space x) as [|c s] eqn:Hskip.
  - destruct Hsign as [[Hm Hp]|]; [|congruence].
    simpl app. cbv beta iota. rewrite Hm, Hp. simpl span_digits. rewrite Hd.
    reflexivity.
  - simpl app. cbv beta iota.
    destruct (Ascii.eqb c "-"); [|destruct (Ascii.eqb c "+")];
      rewrite ?app_comm_cons, span_digits_sep by assumption;
      match goal with
      | |- context [span_digits ?l] => destruct (span_digits l) as [[|? ?] ?]
      end; reflexivity.
Qed.

Lemma skip_space_ends_digit x0 d : isdigit d = true -> skip_space (x0 ++ [d]) <> [].
Proof.
  intros Hd. induction x0 as [|c x0 IH]; simpl.
  - rewrite (isdigit_not_space d Hd). discriminate.
  - destruct (isspace c); [assumption|discriminate].
Qed.

(** ** What a successful [parse] says about the string *)

Lemma no_nul_cur s : no_nul s -> cur s = NUL -> s = [].
Proof.
  intros Hs Hc. destruct s as [|c s]; [reflexivity|].
  inversion Hs; subst. simpl in Hc. congruence.
Qed.

Lemma no_nul_app_r a b : no_nul (a ++ b) -> no_nul b.
Proof. intros H. apply Forall_app in H. tauto. Qed.

Lemma no_nul_app_l a b : no_nul (a ++ b) -> no_nul a.
Proof. intros H. apply Forall_app in H. tauto. Qed.

Lemma no_nul_tl c s : no_nul (c :: s) -> no_nul s.
Proof. intros H. inversion H; assumption. Qed.

Lemma all_digits_last ds :
  all_digits ds -> ds <> [] -> exists p d, ds = p ++ [d] /\ isdigit d = true.
Proof.
  intros Hds Hne. destruct (exists_last Hne) as (p & d & ->).
  apply Forall_app in Hds as [_ Hd]. inversion Hd; subst. eauto.
Qed.

Section ParseInversion.

Variable MaxCpus : Z.

#[local] Abbreviation parse_loop := (CPUSet.parse_loop MaxCpus).
#[local] Abbreviation parse_body := (CPUSet.parse_body MaxCpus).
#[local] Abbreviation parse := (CPUSet.parse MaxCpus).

Lemma parse_switch_Ok continue start cpu e m r :
  CPUSet.parse_switch continue start cpu e m = Ok r ->
  cur e = NUL \/
  (exists e', e = ","%char :: e' /\ exists m', continue false (-1) e' m' = Ok r) \/
  (exists e', e = "-"%char :: e' /\ continue false cpu e' m = Ok r).
Proof.
  unfold CPUSet.parse_switch. destruct e as [|c e']; [left; reflexivity|].
  cbn [cur tl].
  destruct (Ascii.eqb_spec c NUL) as [->|Hnul]; [left; reflexivity|].
  destruct (Ascii.eqb_spec c ",") as [->|Hcomma]; cbn [orb].
  - intros H. right. left. exists e'. split; [reflexivity|].
    change (Ascii.eqb NUL ",") with false in H. cbv iota in H.
    destruct (Z.eqb_spec (-1) start) as [<-|_]; [eauto|].
    destruct (start >? cpu); [discriminate|eauto].
  - destruct (Ascii.eqb_spec c "-") as [->|Hhyphen]; [|discriminate].
    intros H. right. right. exists e'. split; [reflexivity|].
    destruct (-1 =? start); [exact H|discriminate].
Qed.

Lemma parse_body_Ok continue at_str start pos m r :
  parse_body continue at_str start pos m = Ok r ->
  (cur pos = NUL /\ at_str = true /\ r = m) \/
  exists w sg ds e,
    pos = w ++ sg ++ ds ++ e /\ all_space w /\ is_sign sg /\
    all_digits ds /\ ds <> [] /\ no_digit_ahead e /\
    snd (strtoul pos) = e /\
    0 <= fst (strtoul pos) < MaxCpus /\
    CPUSet.parse_switch continue start (fst (strtoul pos)) e m = Ok r.
Proof.
  unfold CPUSet.parse_body.
  destruct (strtoul_cases pos)
    as [Hnone|(w & sg & ds & e & Hpos & Hw & Hsg & Hds & Hne & He & Hsnd & Hfst)].
  - rewrite Hnone, Nat.eqb_refl. intros H. left.
    destruct (Ascii.eqb_spec NUL (cur pos)) as [Hc|_]; cbn [andb] in H.
    + destruct at_str; [inversion H; auto|].
      destruct (-1 =? start); discriminate.
    + destruct (-1 =? start); discriminate.
  - destruct (strtoul pos) as [n e0]. cbn [fst snd] in *. subst e0.
    rewrite (strtoul_progress pos w sg ds e Hpos Hne).
    destruct (Z.geb_spec n MaxCpus) as [|Hlt]; [discriminate|].
    intros H. right. exists w, sg, ds, e.
    repeat (split; [assumption|]). split; [reflexivity|].
    split; [lia|exact H].
Qed.

(** The string is empty, or its last character is a digit. *)
Lemma parse_loop_Ok_last fuel : forall at_str start pos m r,
  no_nul pos -> parse_loop fuel at_str start pos m = Ok r ->
  (pos = [] /\ at_str = true) \/
  exists p d, pos = p ++ [d] /\ isdigit d = true.
Proof.
  induction fuel as [|fuel IH]; intros at_str start pos m r Hnul H;
    [discriminate|].
  cbn [CPUSet.parse_loop] in H.
  apply parse_body_Ok in H
    as [(Hc & -> & _)|(w & sg & ds & e & Hpos & _ & _ & Hds & Hne & _ & _ & _ & H)].
  - left. split; [apply no_nul_cur; assumption|reflexivity].
  - right. subst pos.
    assert (no_nul e) as Hnul_e by (do 3 apply no_nul_app_r in Hnul; exact Hnul).
    apply parse_switch_Ok in H as [Hc|[(e' & -> & m' & H)|(e' & -> & H)]].
    + rewrite (no_nul_cur e Hnul_e Hc), app_nil_r.
      destruct (all_digits_last ds Hds Hne) as (p & d & -> & Hd).
      exists (w ++ sg ++ p), d. rewrite <- !app_assoc. auto.
    + apply IH in H as [[_ Hf]|(p & d & -> & Hd)];
        [discriminate| |apply (no_nul_tl _ _ Hnul_e)].
      exists (w ++ sg ++ ds ++ ","%char :: p), d.
      rewrite <- !app_assoc. auto.
    + apply IH in H as [[_ Hf]|(p & d & -> & Hd)];
        [discriminate| |apply (no_nul_tl _ _ Hnul_e)].
      exists (w ++ sg ++ ds ++ "-"%char :: p), d.
      rewrite <- !app_assoc. auto.
Qed.

(** Where a character of [a ++ b] stands. *)
Lemma locate_in_app (pre suf a b : list ascii) c :
  pre ++ c :: suf = a ++ b ->
  (exists l2, a = pre ++ c :: l2 /\ suf = l2 ++ b) \/
  (exists l1, pre = a ++ l1 /\ b = l1 ++ c :: suf).
Proof.
  intros H. apply app_eq_app in H as [l [[H1 H2]|[H1 H2]]].
  - right. exists l. split; assumption.
  - destruct l as [|x l].
    + right. exists []. rewrite app_nil_r in *. split; [congruence|].
      symmetry. exact H2.
    + injection H2 as -> ->. left. exists l. split; [exact H1|reflexivity].
Qed.

(** Every character that is no digit, comma or hyphen belongs to what
    [strtoul] takes in front of the digits of a number that stands where
    one is due. *)
Lemma parse_loop_Ok_leads fuel : forall at_str start pos m r pre0,
  no_nul pos -> number_start pre0 ->
  parse_loop fuel at_str start pos m = Ok r ->
  forall pre c suf,
    pos = pre ++ c :: suf ->
    isdigit c = false -> c <> ","%char -> c <> "-"%char ->
    fronts_number (pre0 ++ pre) c suf.
Proof.
  induction fuel as [|fuel IH];
    intros at_str start pos m r pre0 Hnul Hpre0 H pre c suf Hpos Hcd Hcc Hch;
    [discriminate|].
  cbn [CPUSet.parse_loop] in H.
  apply parse_body_Ok in H
    as [(Hc & _)|(w & sg & ds & e & Hdec & Hw & Hsg & Hds & Hne & _ & _ & _ & H)].
  { apply (no_nul_cur pos Hnul) in Hc. subst pos. destruct pre; discriminate. }
  assert (no_nul e) as Hnul_e.
  { rewrite Hdec in Hnul. do 3 apply no_nul_app_r in Hnul. exact Hnul. }
  destruct ds as [|d0 ds']; [congruence|].
  assert (isdigit d0 = true) as Hd0 by (inversion Hds; assumption).
  rewrite Hpos in Hdec.
  apply locate_in_app in Hdec as [(l2 & Hw2 & Hsuf)|(l1 & Hpre & Hrest)].
  { (* in the white space *)
    exists pre0, pre, (l2 ++ sg), d0, (ds' ++ e).
    split; [reflexivity|]. split; [rewrite Hsuf, <- app_assoc; reflexivity|].
    split; [exact Hpre0|]. split; [|exact Hd0].
    exists w, sg. split; [|split; assumption].
    rewrite Hw2, <- app_assoc. reflexivity. }
  symmetry in Hrest.
  apply locate_in_app in Hrest as [(l2 & Hsg2 & Hsuf)|(l1' & Hl1 & Hrest)].
  { (* the sign *)
    exists pre0, pre, l2, d0, (ds' ++ e).
    split; [reflexivity|]. split; [exact Hsuf|].
    split; [exact Hpre0|]. split; [|exact Hd0].
    exists w, sg. split; [|split; assumption].
    rewrite Hpre, Hsg2, <- app_assoc. reflexivity. }
  symmetry in Hrest.
  apply locate_in_app in Hrest as [(l2 & Hds2 & _)|(l1'' & Hl1' & He)].
  { (* among the digits *)
    exfalso. rewrite Hds2 in Hds. apply Forall_app in Hds as [_ Hds].
    inversion Hds; subst. congruence. }
  (* behind the number *)
  assert (pre0 ++ pre = (pre0 ++ w ++ sg ++ (d0 :: ds')) ++ l1'') as Hwhole.
  { rewrite Hpre, Hl1, Hl1', <- !app_assoc. reflexivity. }
  apply parse_switch_Ok in H as [Hc|[(e' & -> & m' & H)|(e' & -> & H)]].
  - apply (no_nul_cur e Hnul_e) in Hc. subst e. destruct l1''; discriminate.
  - destruct l1'' as [|x l]; [injection He as <- _; congruence|].
    injection He as <- He.
    rewrite Hwhole.
    change ("," :: l)%char with ([","%char] ++ l). rewrite app_assoc.
    assert (number_start ((pre0 ++ w ++ sg ++ d0 :: ds') ++ [","%char])) as Hns
      by (left; right; eexists; reflexivity).
    exact (IH _ _ _ _ _ _ (no_nul_tl _ _ Hnul_e) Hns H _ _ _ He Hcd Hcc Hch).
  - destruct l1'' as [|x l]; [injection He as <- _; congruence|].
    injection He as <- He.
    rewrite Hwhole.
    change ("-" :: l)%char with (["-"%char] ++ l). rewrite app_assoc.
    assert (number_start ((pre0 ++ w ++ sg ++ d0 :: ds') ++ ["-"%char])) as Hns.
    { right.
      destruct (all_digits_last (d0 :: ds') Hds Hne) as (q & d & Hq & Hd).
      exists (pre0 ++ w ++ sg ++ q), d. split; [|exact Hd].
      rewrite Hq, <- !app_assoc. reflexivity. }
    exact (IH _ _ _ _ _ _ (no_nul_tl _ _ Hnul_e) Hns H _ _ _ He Hcd Hcc Hch).
Qed.

End ParseInversion.

(** ** Strings that [parse] rejects *)

Lemma skip_space_word sp x :
  all_space sp -> isspace (cur x) = false -> skip_space (sp ++ x) = x.
Proof.
  intros Hsp Hx. induction Hsp as [|c sp Hc _ IH]; cbn [app].
  - destruct x as [|c x]; [reflexivity|]. cbn [cur] in Hx. cbn [skip_space].
    rewrite Hx. reflexivity.
  - cbn [skip_space]. rewrite Hc. exact IH.
Qed.

Lemma strtoul_suffix x : exists pre, x = pre ++ snd (strtoul x).
Proof.
  destruct (strtoul_cases x) as [->|(w & sg & ds & e & Hx & _ & _ & _ & _ & _ & -> & _)].
  - exists []. reflexivity.
  - exists (w ++ sg ++ ds). rewrite <- !app_assoc. exact Hx.
Qed.

Lemma boundary_not_nul b x : boundary b x -> b <> NUL.
Proof. intros [->|[-> _]]; discriminate. Qed.

Lemma boundary_tail b pre c r :
  boundary b (pre ++ c :: r) -> isdigit c = false -> boundary b r.
Proof.
  intros [->|(-> & x0 & d & Hx & Hd)] Hc; [left; reflexivity|].
  right. split; [reflexivity|].
  destruct r as [|z r] using rev_ind.
  - apply app_inj_tail in Hx as [_ ->]. congruence.
  - exists r, d. split; [|assumption].
    rewrite app_comm_cons, app_assoc in Hx.
    apply app_inj_tail in Hx as [_ ->]. reflexivity.
Qed.

Section ParseRejects.

Variable MaxCpus : Z.
Hypothesis MaxCpus_range : CPU_SETSIZE <= MaxCpus <= INT_MAX.

#[local] Abbreviation parse_loop := (CPUSet.parse_loop MaxCpus).
#[local] Abbreviation parse_body := (CPUSet.parse_body MaxCpus).
#[local] Abbreviation parse := (CPUSet.parse MaxCpus).

(** A successful run on [x ++ b :: suf], with [b] a separator, passes through
    the loop head with [pos] at [suf]. *)
Lemma parse_loop_reach fuel : forall x b suf at_str start m r,
  no_nul x -> boundary b x ->
  parse_loop fuel at_str start (x ++ b :: suf) m = Ok r ->
  exists fuel' start' m',
    parse_loop fuel' false start' suf m' = Ok r /\
    (b = ","%char -> start' = -1).
Proof.
  induction fuel as [|fuel IH]; intros x b suf at_str start m r Hnul Hb H;
    [discriminate|].
  cbn [CPUSet.parse_loop] in H.
  pose proof (boundary_not_nul b x Hb) as Hbn.
  assert (strtoul (x ++ b :: suf) =
          (fst (strtoul x), snd (strtoul x) ++ b :: suf)) as Hsep.
  { destruct Hb as [->|(-> & x0 & d & -> & Hd)].
    - apply strtoul_sep; [reflexivity|reflexivity|left; split; reflexivity].
    - apply strtoul_sep; [reflexivity|reflexivity|].
      right. apply skip_space_ends_digit. assumption. }
  destruct (strtoul_suffix x) as (pre & Hpre).
  remember (snd (strtoul x)) as r0 eqn:Hr0.
  assert (no_nul r0) as Hnul0 by (rewrite Hpre in Hnul; apply (no_nul_app_r _ _ Hnul)).
  apply parse_body_Ok in H
    as [(Hc & _)|(w & sg & ds & e & _ & _ & _ & _ & _ & He & Hsnd & _ & H)].
  - exfalso. destruct x as [|c x]; simpl in Hc; [congruence|].
    inversion Hnul; subst. congruence.
  - rewrite Hsep in Hsnd, H. cbn [fst snd] in Hsnd, H. subst e.
    destruct r0 as [|c r0'].
    + cbn [app] in H, He.
      apply parse_switch_Ok in H as [Hc|[(e' & He' & m' & H)|(e' & He' & H)]].
      * simpl in Hc. congruence.
      * inversion He'; subst. exists fuel, (-1), m'. auto.
      * inversion He'; subst. exists fuel. eexists. exists m.
        split; [exact H|discriminate].
    + assert (isdigit c = false) as Hcd by exact He.
      assert (boundary b r0') as Hb'.
      { rewrite Hpre in Hb. exact (boundary_tail b pre c r0' Hb Hcd). }
      pose proof (no_nul_tl _ _ Hnul0) as Hnul'.
      cbn [app] in H.
      apply parse_switch_Ok in H as [Hc|[(e' & He' & m' & H)|(e' & He' & H)]].
      * simpl in Hc. inversion Hnul0; subst. congruence.
      * inversion He'; subst. exact (IH _ _ _ _ _ _ _ Hnul' Hb' H).
      * inversion He'; subst. exact (IH _ _ _ _ _ _ _ Hnul' Hb' H).
Qed.

(** *** Positions at which every run throws *)

Lemma saturate_large v : MaxCpus <= v -> MaxCpus <= saturate v.
Proof.
  intros Hv. unfold saturate, ULONG_MAX. unfold INT_MAX in MaxCpus_range.
  destruct (2 ^ 64 - 1 <? v) eqn:Hc; rewrite Z.gtb_ltb, Hc; lia.
Qed.

(** [strtoul] on a number with white space and at most a plus sign in
    front, and on one with a minus sign. *)
Lemma strtoul_plain w sg ds rest :
  all_space w -> sg = [] \/ sg = ["+"%char] ->
  all_digits ds -> ds <> [] -> no_digit_ahead rest ->
  strtoul (w ++ sg ++ ds ++ rest) = (saturate (decimal ds), rest).
Proof.
  intros Hw Hsg Hds Hne Hrest. unfold strtoul.
  destruct ds as [|d ds]; [congruence|]. inversion Hds as [|? ? Hd Hds']; subst.
  rewrite (skip_space_word w (sg ++ (d :: ds) ++ rest) Hw)
    by (destruct Hsg as [-> | ->]; cbn [app cur];
        [apply isdigit_not_space; exact Hd|reflexivity]).
  destruct Hsg as [-> | ->]; cbn [app].
  - rewrite (isdigit_not d "-" Hd eq_refl), (isdigit_not d "+" Hd eq_refl).
    change (d :: ds ++ rest) with ((d :: ds) ++ rest).
    rewrite (span_digits_app (d :: ds) rest Hds Hrest). reflexivity.
  - change (Ascii.eqb "+" "-") with false. change (Ascii.eqb "+" "+") with true.
    cbv iota. change (d :: ds ++ rest) with ((d :: ds) ++ rest).
    rewrite (span_digits_app (d :: ds) rest Hds Hrest). reflexivity.
Qed.

Lemma strtoul_negative w ds rest :
  all_space w -> all_digits ds -> ds <> [] -> no_digit_ahead rest ->
  strtoul (w ++ "-"%char :: ds ++ rest) =
    (if decimal ds >? ULONG_MAX then ULONG_MAX
     else (2 ^ 64 - decimal ds) mod 2 ^ 64, rest).
Proof.
  intros Hw Hds Hne Hrest. unfold strtoul.
  rewrite (skip_space_word w ("-"%char :: ds ++ rest) Hw) by reflexivity.
  cbv beta iota zeta. change (Ascii.eqb "-" "-") with true. cbv beta iota zeta.
  rewrite (span_digits_app ds rest Hds Hrest).
  destruct ds; [congruence|reflexivity].
Qed.

(** One iteration on such a number. *)
Lemma parse_loop_plain fuel at_str start l ds rest m :
  plain_lead l -> all_digits ds -> ds <> [] -> no_digit_ahead rest ->
  parse_loop (S fuel) at_str start (l ++ ds ++ rest) m =
  if saturate (decimal ds) >=? MaxCpus
  then Throw (Exn range_error
                (CPUSet.msg (CPUSet.str "CPU #" ++
                             std_to_string (saturate (decimal ds)) ++
                             CPUSet.str " out of range in cpuset string")))
  else CPUSet.parse_switch (parse_loop fuel) start (saturate (decimal ds)) rest m.
Proof.
  intros (w & sg & -> & Hw & Hsg) Hds Hne Hrest.
  cbn [CPUSet.parse_loop]. unfold CPUSet.parse_body. rewrite <- app_assoc.
  rewrite (strtoul_plain w sg ds rest Hw Hsg Hds Hne Hrest).
  rewrite (strtoul_progress _ w sg ds rest eq_refl Hne). reflexivity.
Qed.

Lemma saturate_below v : 0 <= v -> saturate v < MaxCpus -> saturate v = v.
Proof.
  unfold saturate, ULONG_MAX. unfold INT_MAX in MaxCpus_range.
  destruct (Z.gtb_spec v (2 ^ 64 - 1)); lia.
Qed.

Lemma parse_loop_index_too_large fuel at_str start l ds rest m r :
  plain_lead l -> all_digits ds -> ds <> [] -> no_digit_ahead rest ->
  MaxCpus <= decimal ds ->
  parse_loop fuel at_str start (l ++ ds ++ rest) m <> Ok r.
Proof.
  intros Hl Hds Hne Hrest Hbig. destruct fuel as [|fuel]; [discriminate|].
  rewrite (parse_loop_plain _ _ _ _ _ _ _ Hl Hds Hne Hrest).
  pose proof (saturate_large _ Hbig).
  destruct (Z.geb_spec (saturate (decimal ds)) MaxCpus); [discriminate|lia].
Qed.

Lemma parse_switch_reversed continue start cpu e m r :
  0 <= start -> cpu < start ->
  CPUSet.parse_switch continue start cpu e m <> Ok r.
Proof.
  intros Hs Hlt. unfold CPUSet.parse_switch.
  assert ((-1 =? start) = false) as -> by (apply Z.eqb_neq; lia).
  assert ((start >? cpu) = true) as -> by (apply Z.gtb_lt; lia).
  cbn [negb].
  destruct (_ || _); [discriminate|]. destruct (Ascii.eqb _ _); discriminate.
Qed.

Lemma parse_loop_reversed fuel at_str la a lb b rest m r :
  plain_lead la -> plain_lead lb ->
  all_digits a -> a <> [] -> all_digits b -> b <> [] -> no_digit_ahead rest ->
  decimal b < decimal a ->
  parse_loop fuel at_str (-1) (la ++ a ++ "-"%char :: lb ++ b ++ rest) m <> Ok r.
Proof.
  intros Hla Hlb Ha Hane Hb Hbne Hrest Hlt.
  pose proof (decimal_nonneg a Ha) as Hna. pose proof (decimal_nonneg b Hb) as Hnb.
  destruct fuel as [|fuel]; [discriminate|].
  rewrite (parse_loop_plain _ _ _ _ _ _ _ Hla Ha Hane (no_digit_ahead_hyphen _)).
  destruct (Z.geb_spec (saturate (decimal a)) MaxCpus) as [|Hsa]; [discriminate|].
  rewrite (saturate_below _ Hna Hsa).
  rewrite parse_switch_hyphen. change (negb (-1 =? -1)) with false. cbv iota.
  destruct fuel as [|fuel]; [discriminate|].
  rewrite (parse_loop_plain _ _ _ _ _ _ _ Hlb Hb Hbne Hrest).
  destruct (Z.geb_spec (saturate (decimal b)) MaxCpus) as [|Hsb]; [discriminate|].
  rewrite (saturate_below _ Hnb Hsb).
  apply parse_switch_reversed; assumption.
Qed.

Lemma parse_loop_range_of_three fuel at_str la a lb b rest m r :
  plain_lead la -> plain_lead lb ->
  all_digits a -> a <> [] -> all_digits b -> b <> [] ->
  parse_loop fuel at_str (-1)
    (la ++ a ++ "-"%char :: lb ++ b ++ "-"%char :: rest) m <> Ok r.
Proof.
  intros Hla Hlb Ha Hane Hb Hbne.
  pose proof (decimal_nonneg a Ha) as Hna.
  destruct fuel as [|fuel]; [discriminate|].
  rewrite (parse_loop_plain _ _ _ _ _ _ _ Hla Ha Hane (no_digit_ahead_hyphen _)).
  destruct (Z.geb_spec (saturate (decimal a)) MaxCpus) as [|Hsa]; [discriminate|].
  rewrite (saturate_below _ Hna Hsa).
  rewrite parse_switch_hyphen. change (negb (-1 =? -1)) with false. cbv iota.
  destruct fuel as [|fuel]; [discriminate|].
  rewrite (parse_loop_plain _ _ _ _ _ _ _ Hlb Hb Hbne (no_digit_ahead_hyphen _)).
  destruct (Z.geb_spec (saturate (decimal b)) MaxCpus) as [|Hsb]; [discriminate|].
  rewrite parse_switch_hyphen.
  assert ((-1 =? decimal a) = false) as -> by (apply Z.eqb_neq; lia).
  discriminate.
Qed.

Lemma parse_loop_negative fuel at_str start w ds rest m r :
  all_space w -> all_digits ds -> ds <> [] -> no_digit_ahead rest ->
  1 <= decimal ds <= 2 ^ 63 ->
  parse_loop fuel at_str start (w ++ "-"%char :: ds ++ rest) m <> Ok r.
Proof.
  intros Hw Hds Hne Hrest Hv. destruct fuel as [|fuel]; [discriminate|].
  cbn [CPUSet.parse_loop]. unfold CPUSet.parse_body.
  rewrite (strtoul_negative w ds rest Hw Hds Hne Hrest).
  pose proof (strtoul_progress _ w ["-"%char] ds rest eq_refl Hne) as Hlen.
  cbn [app] in Hlen. rewrite Hlen.
  unfold ULONG_MAX. unfold CPU_SETSIZE, INT_MAX in MaxCpus_range.
  destruct (Z.gtb_spec (decimal ds) (2 ^ 64 - 1)); [lia|].
  rewrite Z.mod_small by lia.
  destruct (Z.geb_spec (2 ^ 64 - decimal ds) MaxCpus); [discriminate|lia].
Qed.

Lemma parse_loop_no_number fuel at_str start pos m r :
  strtoul pos = (0, pos) -> Ascii.eqb NUL (cur pos) && at_str = false ->
  parse_loop fuel at_str start pos m <> Ok r.
Proof.
  intros Hnone Hc. destruct fuel as [|fuel]; [discriminate|].
  cbn [CPUSet.parse_loop]. unfold CPUSet.parse_body.
  rewrite Hnone, Nat.eqb_refl, Hc. destruct (-1 =? start); discriminate.
Qed.

(** Without a number in front, [strtoul] converts nothing. *)
Lemma strtoul_none pos : ~ starts_number pos -> strtoul pos = (0, pos).
Proof.
  intros Hno.
  destruct (strtoul_cases pos)
    as [H|(w & sg & ds & e & Hpos & Hw & Hsg & Hds & Hne & _)]; [exact H|].
  exfalso. apply Hno. destruct ds as [|d ds]; [congruence|].
  exists (w ++ sg), d, (ds ++ e).
  split; [rewrite Hpos, <- app_assoc; reflexivity|].
  split; [exists w, sg; auto|]. inversion Hds; assumption.
Qed.

End ParseRejects.

Section ParseClaims.

Variable MaxCpus : Z.
Hypothesis MaxCpus_range : CPU_SETSIZE <= MaxCpus <= INT_MAX.

#[local] Abbreviation parse_loop := (CPUSet.parse_loop MaxCpus).
#[local] Abbreviation parse := (CPUSet.parse MaxCpus).

(** The three ways an iteration can go on. *)
Ltac returns_ok := left; eexists; reflexivity.
Ltac throws_domain_error :=
  right; left; eexists; split; [reflexivity|unfold domain_error; cbn; auto].
Ltac iterates := right; right; do 4 eexists; split; reflexivity.

Lemma parse_switch_cases continue start cpu e m :
  (exists r, CPUSet.parse_switch continue start cpu e m = Ok r) \/
  (exists x, CPUSet.parse_switch continue start cpu e m = Throw x /\ domain_error x) \/
  (exists c e' start' m',
     e = c :: e' /\
     CPUSet.parse_switch continue start cpu e m = continue false start' e' m').
Proof.
  unfold CPUSet.parse_switch. destruct e as [|c e']; cbn [cur tl].
  - change (Ascii.eqb NUL NUL) with true. cbn [orb]. cbv beta iota zeta.
    destruct (-1 =? start); [returns_ok|].
    destruct (start >? cpu); [throws_domain_error|returns_ok].
  - destruct (Ascii.eqb c NUL || Ascii.eqb c ",").
    + destruct (-1 =? start);
        [cbv zeta; destruct (Ascii.eqb NUL c); [returns_ok|iterates]|].
      destruct (start >? cpu); [throws_domain_error|].
      cbv zeta. destruct (Ascii.eqb NUL c); [returns_ok|iterates].
    + destruct (Ascii.eqb c "-"); [|throws_domain_error].
      destruct (-1 =? start); cbn [negb]; [iterates|throws_domain_error].
Qed.

(** [parse] finishes, and throws nothing but its three classes. *)
Lemma parse_loop_total fuel : forall at_str start pos m,
  (length pos < fuel)%nat ->
  (exists r, parse_loop fuel at_str start pos m = Ok r) \/
  (exists x, parse_loop fuel at_str start pos m = Throw x /\ domain_error x).
Proof.
  induction fuel as [|fuel IH]; intros at_str start pos m Hlen; [lia|].
  cbn [CPUSet.parse_loop]. unfold CPUSet.parse_body.
  destruct (strtoul_cases pos)
    as [Hnone|(w & sg & ds & e & Hpos & _ & _ & _ & Hne & _ & Hsnd & _)].
  - rewrite Hnone, Nat.eqb_refl.
    destruct (Ascii.eqb NUL (cur pos) && at_str); [left; eexists; reflexivity|].
    right. destruct (-1 =? start); eexists; (split; [reflexivity|left; reflexivity]).
  - destruct (strtoul pos) as [n e0]. cbn [snd] in Hsnd. subst e0.
    rewrite (strtoul_progress pos w sg ds e Hpos Hne).
    destruct (n >=? MaxCpus);
      [right; eexists; split; [reflexivity|right; left; reflexivity]|].
    destruct (parse_switch_cases (parse_loop fuel) start n e m)
      as [Hok|[Hthrow|(c & e' & start' & m' & -> & ->)]]; [auto|auto|].
    apply IH. subst pos. rewrite !length_app in Hlen. cbn [length] in Hlen.
    destruct ds; [congruence|]. cbn [length] in Hlen. lia.
Qed.

Lemma parse_not_Ok_throws s :
  (forall r, parse s <> Ok r) -> exists e, parse s = Throw e /\ domain_error e.
Proof.
  intros Hno.
  destruct (parse_loop_total (S (length s)) true (-1) s CPUSet.zero) as [[r Hr]|H];
    [lia| |exact H].
  exfalso. exact (Hno r Hr).
Qed.

(** A successful run reaches every place where an item begins. *)
Lemma parse_reach_item pre suf r :
  no_nul pre -> item_start pre -> parse (pre ++ suf) = Ok r ->
  exists fuel at_str m, parse_loop fuel at_str (-1) suf m = Ok r /\
                        (pre <> [] -> at_str = false).
Proof.
  intros Hnul [->|(p & ->)] H.
  - exists (S (length suf)), true, CPUSet.zero. split; [exact H|congruence].
  - rewrite <- app_assoc in H. cbn [app] in H.
    destruct (parse_loop_reach MaxCpus _ p ","%char suf _ _ _ _
                (no_nul_app_l _ _ Hnul) (or_introl eq_refl) H)
      as (fuel & start' & m & Hrun & Hstart).
    rewrite (Hstart eq_refl) in Hrun. exists fuel, false, m. auto.
Qed.

(** ... and every place where a number is due. *)
Lemma parse_reach_number pre suf r :
  no_nul pre -> number_start pre -> parse (pre ++ suf) = Ok r ->
  exists fuel at_str start m, parse_loop fuel at_str start suf m = Ok r /\
                              (pre <> [] -> at_str = false).
Proof.
  intros Hnul [Hitem|(p & d & -> & Hd)] H.
  - destruct (parse_reach_item pre suf r Hnul Hitem H) as (fuel & a & m & Hrun & Ha).
    exists fuel, a, (-1), m. auto.
  - change [d; "-"%char] with ([d] ++ ["-"%char]) in *.
    rewrite app_assoc in Hnul, H. rewrite <- app_assoc in H. cbn [app] in H.
    destruct (parse_loop_reach MaxCpus _ (p ++ [d]) "-"%char suf _ _ _ _
                (no_nul_app_l _ _ Hnul)
                (or_intror (conj eq_refl (ex_intro _ p (ex_intro _ d (conj eq_refl Hd)))))
                H)
      as (fuel & start' & m & Hrun & _).
    exists fuel, false, start', m. auto.
Qed.

Lemma parse_rejects s :
  no_nul s -> rejected MaxCpus s -> forall r, parse s <> Ok r.
Proof.
  intros Hnul Hrej r H.
  destruct Hrej as
    [p c -> Hc
    |pre suf -> Hne Hpre Hsuf
    |pre la a lb b rest -> Hpre Hla Hlb Ha Hane Hb Hbne Hrest Hlt
    |pre la a lb b rest -> Hpre Hla Hlb Ha Hane Hb Hbne
    |pre l ds rest -> Hpre Hl Hds Hne Hrest Hbig
    |pre c suf -> Hcd Hcc Hch Hc
    |pre w ds rest -> Hpre Hw Hds Hne Hrest Hv].
  - apply (parse_loop_Ok_last MaxCpus) in H as [[Hnil _]|(q & d & Heq & Hd)];
      [|apply app_inj_tail in Heq as [_ ->];
        destruct Hc as [->| ->]; discriminate|exact Hnul].
    destruct p; discriminate.
  - destruct (parse_reach_number pre suf r (no_nul_app_l _ _ Hnul) Hpre H)
      as (fuel & a & start & m & Hrun & Ha).
    revert Hrun. apply parse_loop_no_number; [apply strtoul_none; exact Hsuf|].
    destruct pre as [|x pre].
    + cbn [app] in *. destruct suf as [|c suf]; [congruence|].
      inversion Hnul as [|? ? Hc _]; subst. cbn [cur].
      destruct (Ascii.eqb_spec NUL c); [congruence|reflexivity].
    + rewrite Ha by discriminate. apply andb_false_r.
  - destruct (parse_reach_item pre _ r (no_nul_app_l _ _ Hnul) Hpre H)
      as (fuel & at_str & m & Hrun & _).
    revert Hrun. apply (parse_loop_reversed MaxCpus MaxCpus_range); assumption.
  - destruct (parse_reach_item pre _ r (no_nul_app_l _ _ Hnul) Hpre H)
      as (fuel & at_str & m & Hrun & _).
    revert Hrun. apply (parse_loop_range_of_three MaxCpus MaxCpus_range); assumption.
  - destruct (parse_reach_number pre _ r (no_nul_app_l _ _ Hnul) Hpre H)
      as (fuel & a & start & m & Hrun & _).
    revert Hrun. apply (parse_loop_index_too_large MaxCpus MaxCpus_range); assumption.
  - apply Hc.
    exact (parse_loop_Ok_leads MaxCpus _ _ _ _ _ _ [] Hnul (or_introl (or_introl eq_refl))
             H pre c suf eq_refl Hcd Hcc Hch).
  - destruct (parse_reach_number pre _ r (no_nul_app_l _ _ Hnul) Hpre H)
      as (fuel & a & start & m & Hrun & _).
    revert Hrun. apply (parse_loop_negative MaxCpus MaxCpus_range); assumption.
Qed.

(** C8, as the code has it.  [parse] throws invalid_argument, range_error or
    out_of_range on every string with a trailing comma or hyphen; with no
    number where one is due (at the start of a string that is not empty,
    behind a comma, behind the hyphen of a range); with a reversed range;
    with a hyphen behind a complete range; with an index of MaxCpus or
    more; with a character that is no digit, comma or hyphen, unless it is
    white space or a sign that [strtoul] takes in front of the digits of a
    number that stands where one is due; or with a negative number from -1
    down to -2^63 where a number is due.  It succeeds on every string of
    the list form. *)
Theorem parse_rejects_and_accepts :
  (forall s, no_nul s -> rejected MaxCpus s ->
             exists e, parse s = Throw e /\ domain_error e) /\
  (forall its, Forall (valid_item MaxCpus) its ->
               parse (render its) = Ok (mask_of its)).
Proof.
  split.
  - intros s Hnul Hrej. apply parse_not_Ok_throws.
    apply parse_rejects; assumption.
  - intros its Hv. apply (parse_render MaxCpus MaxCpus_range). exact Hv.
Qed.

End ParseClaims.

(** ** The stream form *)
Section StreamFacts.

Variable MaxCpus : Z.
Hypothesis MaxCpus_range : CPU_SETSIZE <= MaxCpus <= INT_MAX.

Lemma ws_digit cs c ps : isdigit c = true -> ios.ws cs (c :: ps) = (cs, c :: ps).
Proof. intros Hc. simpl. rewrite (isdigit_not_space c Hc). reflexivity. Qed.

(** [in >> cpu] on a CPU number that another character follows. *)
Lemma read_int_number cs ds r :
  cpu_number MaxCpus ds -> no_digit_ahead r -> r <> [] ->
  ios.read_int (good_stream cs (ds ++ r)) = (good_stream (rev ds ++ cs) r, decimal ds).
Proof.
  intros (Hds & Hne & Hlt) Hr Hrne. unfold ios.read_int, ios.sentry, good_stream.
  cbn [ios.good eofbit failbit badbit negb andb consumed pending].
  destruct ds as [|d ds]; [congruence|]. inversion Hds as [|? ? Hd Hds']; subst.
  cbn [app]. rewrite (ws_digit cs d _ Hd).
  cbn [pending consumed eofbit failbit badbit].
  rewrite (isdigit_not d "-" Hd eq_refl), (isdigit_not d "+" Hd eq_refl).
  change (d :: ds ++ r) with ((d :: ds) ++ r).
  rewrite (span_digits_app (d :: ds) r Hds Hr).
  pose proof (decimal_nonneg _ Hds) as Hnn.
  unfold INT_MIN, INT_MAX in *.
  destruct (Z.ltb_spec (decimal (d :: ds)) (- 2 ^ 31)); [lia|].
  destruct (Z.gtb_spec (decimal (d :: ds)) (2 ^ 31 - 1)); [lia|].
  destruct r; [congruence|]. reflexivity.
Qed.

Lemma cpu_number_checks ds :
  cpu_number MaxCpus ds ->
  (decimal ds <? 0) || (decimal ds >=? MaxCpus) = false.
Proof.
  intros (Hds & _ & Hlt). pose proof (decimal_nonneg _ Hds).
  destruct (Z.ltb_spec (decimal ds) 0); [lia|].
  destruct (Z.geb_spec (decimal ds) MaxCpus); [lia|reflexivity].
Qed.

(** One iteration on a number and the character behind it. *)
Lemma extract_body_number continue start cs ds c r _set :
  cpu_number MaxCpus ds -> isdigit c = false ->
  extract_body MaxCpus continue start (good_stream cs (ds ++ c :: r)) _set =
  let ins := good_stream (c :: rev ds ++ cs) r in
  let cpu := decimal ds in
  if Ascii.eqb c "-" then
    if negb (-1 =? start) then
      continue start (ios.setstate false true false ins) _set
    else continue cpu ins _set
  else
    let '(ins, _set, start) :=
      if -1 =? start then (ins, CPUSet.set _set cpu, start)
      else if start >? cpu then
        (ios.setstate false true false ins, _set, start)
      else (ins, CPUSet.set_from_to start cpu _set, -1) in
    if negb (Ascii.eqb c ",") then Some (ios.unget ins, _set)
    else continue start ins _set.
Proof.
  intros Hds Hc. unfold extract_body.
  rewrite (read_int_number cs ds (c :: r) Hds Hc ltac:(discriminate)).
  rewrite (cpu_number_checks ds Hds).
  cbn [ios.fail ios.eof ios.get ios.sentry ios.good good_stream
       eofbit failbit badbit negb andb orb pending consumed is_char is_eof].
  destruct (Ascii.eqb c "-"); [reflexivity|].
  destruct (-1 =? start); [rewrite andb_true_r; reflexivity|].
  destruct (start >? decimal ds); rewrite andb_true_r; reflexivity.
Qed.

Lemma extract_item_comma it cs r _set f :
  valid_item MaxCpus it ->
  extract_loop MaxCpus (iterations it + f) (-1)
    (good_stream cs (render_item it ++ ","%char :: r)) _set =
  extract_loop MaxCpus f (-1)
    (good_stream (","%char :: rev (render_item it) ++ cs) r) (add_item _set it).
Proof.
  destruct it as [a|a b]; cbn [iterations render_item add_item plus].
  - intros Ha. cbn [extract_loop ios.good good_stream
                    eofbit failbit badbit negb andb].
    rewrite (extract_body_number _ _ _ a ","%char _ _ Ha eq_refl). reflexivity.
  - intros (Ha & Hb & Hle).
    cbn [extract_loop ios.good good_stream
         eofbit failbit badbit negb andb].
    rewrite <- app_assoc, <- app_comm_cons.
    rewrite (extract_body_number _ _ _ a "-"%char _ _ Ha eq_refl).
    cbv zeta. change (Ascii.eqb "-" "-") with true. cbv iota.
    change (negb (-1 =? -1)) with false. cbv iota.
    unfold good_stream at 1.
    cbn [ios.good eofbit failbit badbit negb andb].
    fold (good_stream ("-"%char :: rev a ++ cs) (b ++ ","%char :: r)).
    rewrite (extract_body_number _ _ _ b ","%char _ _ Hb eq_refl).
    cbv zeta. change (Ascii.eqb "," "-") with false. cbv iota.
    destruct (range_checks MaxCpus a b Ha Hle) as [-> ->].
    change (negb (Ascii.eqb "," ",")) with false. cbv iota.
    rewrite rev_app_distr. cbn [rev app]. rewrite <- !app_assoc. reflexivity.
Qed.

Lemma unget_good c cs ps :
  ios.unget (good_stream (c :: cs) ps) = good_stream cs (c :: ps).
Proof. reflexivity. Qed.

Lemma extract_item_stop it cs c r _set f :
  valid_item MaxCpus it ->
  isdigit c = false -> c <> ","%char -> c <> "-"%char ->
  extract_loop MaxCpus (iterations it + f) (-1)
    (good_stream cs (render_item it ++ c :: r)) _set =
  Some (good_stream (rev (render_item it) ++ cs) (c :: r), add_item _set it).
Proof.
  intros Hit Hc Hcomma Hhyphen.
  apply Ascii.eqb_neq in Hcomma, Hhyphen.
  destruct it as [a|a b]; cbn [iterations render_item add_item plus].
  - cbn [extract_loop ios.good good_stream
         eofbit failbit badbit negb andb].
    rewrite (extract_body_number _ _ _ a _ _ _ Hit Hc).
    cbv zeta. rewrite Hhyphen, Hcomma. reflexivity.
  - destruct Hit as (Ha & Hb & Hle).
    cbn [extract_loop ios.good good_stream
         eofbit failbit badbit negb andb].
    rewrite <- app_assoc, <- app_comm_cons.
    rewrite (extract_body_number _ _ _ a "-"%char _ _ Ha eq_refl).
    cbv zeta. change (Ascii.eqb "-" "-") with true. cbv iota.
    change (negb (-1 =? -1)) with false. cbv iota.
    unfold good_stream at 1.
    cbn [ios.good eofbit failbit badbit negb andb].
    fold (good_stream ("-"%char :: rev a ++ cs) (b ++ c :: r)).
    rewrite (extract_body_number _ _ _ b _ _ _ Hb Hc).
    cbv zeta. rewrite Hhyphen, Hcomma.
    destruct (range_checks MaxCpus a b Ha Hle) as [-> ->].
    cbn [negb]. rewrite unget_good.
    rewrite rev_app_distr. cbn [rev app]. rewrite <- !app_assoc. reflexivity.
Qed.

Lemma extract_loop_items its :
  Forall (valid_item MaxCpus) its -> its <> [] ->
  forall fuel cs c r _set,
    isdigit c = false -> c <> ","%char -> c <> "-"%char ->
    (length (render its) < fuel)%nat ->
    extract_loop MaxCpus fuel (-1) (good_stream cs (render its ++ c :: r)) _set =
    Some (good_stream (rev (render its) ++ cs) (c :: r), fold_left add_item its _set).
Proof.
  induction its as [|it its IH];
    intros Hv Hne fuel cs c r _set Hc Hcomma Hhyphen Hfuel; [congruence|].
  inversion Hv as [|? ? Hit Hits]; subst.
  pose proof (iterations_le_length MaxCpus it Hit) as Hlen.
  destruct its as [|it' its].
  - cbn [render render_tail flat_map] in *. rewrite app_nil_r in *.
    replace fuel with (iterations it + (fuel - iterations it))%nat by lia.
    rewrite (extract_item_stop it cs c r _set _ Hit Hc Hcomma Hhyphen).
    reflexivity.
  - rewrite render_cons in *. rewrite length_app in Hfuel. cbn [length] in Hfuel.
    replace fuel with (iterations it + (fuel - iterations it))%nat by lia.
    rewrite <- app_assoc, <- app_comm_cons.
    rewrite (extract_item_comma it cs _ _set _ Hit).
    rewrite IH; [|assumption|discriminate|assumption..|lia].
    rewrite rev_app_distr. cbn [rev]. rewrite <- !app_assoc. reflexivity.
Qed.

(** *** The loop terminates *)

Lemma ws_length cs ps : (length (snd (ios.ws cs ps)) <= length ps)%nat.
Proof.
  revert cs. induction ps as [|c ps IH]; intros cs; simpl; [lia|].
  destruct (isspace c); [specialize (IH (c :: cs)); lia|simpl; lia].
Qed.

Lemma fail_setstate e b ins : ios.fail (ios.setstate e true b ins) = true.
Proof.
  unfold ios.fail, ios.setstate. cbn [failbit badbit].
  rewrite orb_true_r. reflexivity.
Qed.

Lemma read_int_progress ins :
  ios.good ins = true -> ios.fail (fst (ios.read_int ins)) = false ->
  (length (pending (fst (ios.read_int ins))) < length (pending ins))%nat.
Proof.
  intros Hgood. unfold ios.read_int, ios.sentry. rewrite Hgood. cbn [negb].
  pose proof (ws_length (consumed ins) (pending ins)) as Hws.
  destruct (ios.ws (consumed ins) (pending ins)) as [b a]. cbn [snd] in Hws.
  destruct a as [|c a'].
  { cbn [fst]. rewrite fail_setstate. discriminate. }
  cbn [pending consumed eofbit failbit badbit].
  assert (exists neg sign s1,
            (if Ascii.eqb c "-" then (true, [c], a')
             else if Ascii.eqb c "+" then (false, [c], a')
             else (false, [], c :: a')) = (neg, sign, s1) /\
            (length s1 <= length (c :: a'))%nat) as (neg & sign & s1 & -> & Hs1).
  { destruct (Ascii.eqb c "-"); [|destruct (Ascii.eqb c "+")];
      do 3 eexists; (split; [reflexivity|cbn [length]; lia]). }
  destruct (span_digits s1) as [ds rest] eqn:Hspan.
  destruct (span_digits_spec _ _ _ Hspan) as (-> & _ & _).
  rewrite length_app in Hs1. cbn [length] in Hs1.
  destruct ds as [|d ds].
  { cbn [fst]. rewrite fail_setstate. discriminate. }
  intros _. cbn [length] in Hs1, Hws.
  destruct (_ <? INT_MIN); [cbn; lia|]. destruct (_ >? INT_MAX); cbn; lia.
Qed.

Lemma get_pending ins :
  (length (pending (fst (ios.get ins))) <= length (pending ins))%nat.
Proof.
  unfold ios.get, ios.sentry, ios.setstate.
  destruct (negb (ios.good ins)); cbn; [lia|].
  destruct (pending ins); cbn; lia.
Qed.

Lemma extract_body_total continue start ins _set :
  ios.good ins = true ->
  (forall st ins' s',
      (length (pending ins') < length (pending ins))%nat ->
      exists r, continue st ins' s' = Some r) ->
  exists r, extract_body MaxCpus continue start ins _set = Some r.
Proof.
  intros Hgood Hcont. unfold extract_body.
  pose proof (read_int_progress ins Hgood) as Hprog.
  destruct (ios.read_int ins) as [ins1 cpu]. cbn [fst] in Hprog.
  destruct (ios.fail ins1) eqn:Hfail; [eauto|]. specialize (Hprog eq_refl).
  destruct ((cpu <? 0) || (cpu >=? MaxCpus)); [eauto|].
  destruct (ios.eof ins1).
  - cbn [is_char is_eof negb andb].
    destruct (-1 =? start); [apply Hcont; exact Hprog|].
    destruct (start >? cpu); apply Hcont; exact Hprog.
  - pose proof (get_pending ins1) as Hget.
    destruct (ios.get ins1) as [ins2 c]. cbn [fst] in Hget.
    destruct (ios.fail ins2); [eauto|].
    destruct (is_char c "-").
    + destruct (negb (-1 =? start)); apply Hcont; cbn [ios.setstate pending]; lia.
    + destruct (-1 =? start);
        [destruct (negb (is_char c ",") && negb (is_eof c)); [eauto|];
         apply Hcont; lia|].
      destruct (start >? cpu);
        (destruct (negb (is_char c ",") && negb (is_eof c)); [eauto|]);
        apply Hcont; cbn [ios.setstate pending]; lia.
Qed.

Lemma extract_loop_total fuel : forall start ins _set,
  (1 <= fuel)%nat ->
  (ios.good ins = true -> (length (pending ins) < fuel)%nat) ->
  exists r, extract_loop MaxCpus fuel start ins _set = Some r.
Proof.
  induction fuel as [|fuel IH]; intros start ins _set Hfuel Hlen; [lia|].
  cbn [extract_loop]. destruct (ios.good ins) eqn:Hgood; [|eauto].
  specialize (Hlen eq_refl).
  apply extract_body_total; [exact Hgood|].
  intros st ins' s' Hlt. apply IH; [lia|]. intros _. lia.
Qed.

Lemma extract_total ins set : exists r, extract MaxCpus ins set = Some r.
Proof.
  unfold extract. destruct (ios.sentry false ins) as [ok ins1].
  destruct ok.
  - destruct (extract_loop_total (S (length (pending ins1))) (-1) ins1 CPUSet.zero)
      as [[ins2 s] ->]; [lia|intros _; lia|]. eauto.
  - eauto.
Qed.

End StreamFacts.

Section StreamClaims.

Variable MaxCpus : Z.
Hypothesis MaxCpus_range : CPU_SETSIZE <= MaxCpus <= INT_MAX.

Lemma render_head its :
  Forall (valid_item MaxCpus) its -> its <> [] ->
  exists d tl, render its = d :: tl /\ isdigit d = true.
Proof.
  intros Hv Hne. destruct its as [|it its]; [congruence|].
  inversion Hv as [|? ? Hit _]; subst. cbn [render].
  assert (exists d a', (match it with Single a => a | Range a _ => a end) = d :: a' /\
                       isdigit d = true) as (d & a' & Ha & Hd).
  { destruct it as [a|a b]; [destruct Hit as (Hds & Hne' & _)
                            |destruct Hit as ((Hds & Hne' & _) & _)];
      (destruct a as [|d a']; [congruence|]); inversion Hds; subst; eauto. }
  destruct it as [a|a b]; cbn [render_item]; subst a; cbn [app]; eauto.
Qed.

Lemma sentry_digit d ps :
  isdigit d = true ->
  ios.sentry false (ios.of_chars (d :: ps)) = (true, good_stream [] (d :: ps)).
Proof.
  intros Hd. unfold ios.sentry, ios.of_chars.
  cbn [ios.good eofbit failbit badbit negb andb consumed pending].
  rewrite (ws_digit [] d ps Hd). reflexivity.
Qed.

(** A non-empty list form followed by a character outside of the grammar. *)
Lemma extract_prefix its c rest t :
  Forall (valid_item MaxCpus) its -> its <> [] ->
  isdigit c = false -> c <> ","%char -> c <> "-"%char ->
  extract MaxCpus (ios.of_chars (render its ++ c :: rest)) t =
  Some (good_stream (rev (render its)) (c :: rest), mask_of its).
Proof.
  intros Hv Hne Hc Hcomma Hhyphen. unfold extract.
  destruct (render_head its Hv Hne) as (d & tl & Hr & Hd).
  rewrite Hr at 1. cbn [app]. rewrite (sentry_digit d _ Hd).
  change (d :: tl ++ c :: rest) with ((d :: tl) ++ c :: rest). rewrite <- Hr.
  rewrite (extract_loop_items MaxCpus MaxCpus_range its Hv Hne);
    [|assumption..|cbn [pending good_stream]; rewrite length_app; lia].
  rewrite app_nil_r. reflexivity.
Qed.

(** The input ends behind the hyphen of a range. *)
Lemma extract_open_range ds t :
  cpu_number MaxCpus ds ->
  exists ins', extract MaxCpus (ios.of_chars (ds ++ ["-"%char])) t = Some (ins', t) /\
               ios.fail ins' = true.
Proof.
  intros Hds. pose proof Hds as (Hall & Hne & _). unfold extract.
  destruct ds as [|d ds']; [congruence|]. inversion Hall as [|? ? Hd _]; subst.
  cbn [app]. rewrite (sentry_digit d _ Hd).
  change (d :: ds' ++ ["-"%char]) with ((d :: ds') ++ ["-"%char]).
  cbn [pending good_stream]. rewrite length_app. cbn [length].
  replace (length ds' + 1)%nat with (S (length ds')) by lia.
  cbn [extract_loop ios.good eofbit failbit badbit negb andb].
  fold (good_stream [] ((d :: ds') ++ ["-"%char])).
  rewrite (extract_body_number MaxCpus MaxCpus_range _ _ _ (d :: ds') "-"%char [] _
             Hds eq_refl).
  eexists. split; [reflexivity|reflexivity].
Qed.

(** C9, as the code has it.  On an input that begins with a non-empty list
    form followed by a character outside of the grammar, [operator>>] stores
    the mask [parse] gives for that list form and leaves the stream, still
    good, in front of that character.  The operator always finishes; when the
    stream has failed afterwards the target keeps its value, otherwise it is
    replaced by a value that does not depend on the old one.  Input that ends
    behind the hyphen of a range fails; empty input stores the empty mask and
    does not fail. *)
Theorem stream_extract_spec :
  (forall its c rest t,
      Forall (valid_item MaxCpus) its -> its <> [] ->
      isdigit c = false -> c <> ","%char -> c <> "-"%char ->
      exists ins',
        extract MaxCpus (ios.of_chars (render its ++ c :: rest)) t =
          Some (ins', mask_of its) /\
        pending ins' = c :: rest /\ ios.good ins' = true /\
        CPUSet.parse MaxCpus (render its) = Ok (mask_of its)) /\
  (forall ins t,
      exists ins' t',
        extract MaxCpus ins t = Some (ins', t') /\
        (ios.fail ins' = true -> t' = t) /\
        (ios.fail ins' = false ->
         forall u, extract MaxCpus ins u = Some (ins', t'))) /\
  (forall ds t,
      cpu_number MaxCpus ds ->
      exists ins',
        extract MaxCpus (ios.of_chars (ds ++ ["-"%char])) t = Some (ins', t) /\
        ios.fail ins' = true) /\
  (forall t,
      exists ins',
        extract MaxCpus (ios.of_chars []) t = Some (ins', CPUSet.zero) /\
        ios.fail ins' = false).
Proof.
  split; [|split; [|split]].
  - intros its c rest t Hv Hne Hc Hcomma Hhyphen.
    eexists. split; [apply extract_prefix; assumption|].
    split; [reflexivity|]. split; [reflexivity|].
    apply (parse_render MaxCpus MaxCpus_range). exact Hv.
  - intros ins t. unfold extract.
    destruct (ios.sentry false ins) as [ok ins1].
    assert (exists ins2 s,
              (if ok then extract_loop MaxCpus (S (length (pending ins1))) (-1) ins1
                            CPUSet.zero
               else Some (if ios.eof ins1 then ios.clear true false false ins1
                          else ins1, CPUSet.zero)) = Some (ins2, s))
      as (ins2 & s & ->).
    { destruct ok; [|eauto].
      destruct (extract_loop_total MaxCpus (S (length (pending ins1))) (-1) ins1
                  CPUSet.zero) as [[ins2 s] ->]; [lia|intros _; lia|eauto]. }
    exists ins2. destruct (ios.fail ins2) eqn:Hfail; cbn [negb].
    + exists t. split; [reflexivity|]. split; [reflexivity|discriminate].
    + exists s. split; [reflexivity|]. split; [discriminate|reflexivity].
  - intros ds t Hds. apply extract_open_range. exact Hds.
  - intros t. eexists. split; reflexivity.
Qed.

End StreamClaims.

(** ** The allocator: reserving and releasing *)

(** [(set & available) != set] tests inclusion. *)
Lemma and_eq_subset (m e : CPUSet) :
  CPUSet.and m e = m <->
  (forall i, CPUSet.is_set m i = true -> CPUSet.is_set e i = true).
Proof.
  unfold CPUSet.and, CPUSet.is_set. split.
  - intros H i Hi. rewrite <- H, Z.land_spec in Hi.
    apply andb_true_iff in Hi. tauto.
  - intros H. apply Z.bits_inj'. intros i _. rewrite Z.land_spec.
    destruct (Z.testbit m i) eqn:Hm; [|reflexivity].
    rewrite (H i Hm). reflexivity.
Qed.

Lemma or_spec (l m : CPUSet) i :
  CPUSet.is_set (CPUSet.or l m) i = CPUSet.is_set l i || CPUSet.is_set m i.
Proof. apply Z.lor_spec. Qed.

(** The release identity, bit by bit and as a set difference. *)
Lemma release_identity (l m : CPUSet) :
  CPUSet.and (CPUSet.xor l m) l = Z.ldiff l m.
Proof.
  unfold CPUSet.and, CPUSet.xor. apply Z.bits_inj'. intros i _.
  rewrite Z.land_spec, Z.lxor_spec, Z.ldiff_spec.
  destruct (Z.testbit l i), (Z.testbit m i); reflexivity.
Qed.

Lemma release_bits (l m : CPUSet) i :
  CPUSet.is_set (CPUSet.and (CPUSet.xor l m) l) i =
  CPUSet.is_set l i && negb (CPUSet.is_set m i).
Proof.
  rewrite release_identity. unfold CPUSet.is_set. apply Z.ldiff_spec.
Qed.

Section Allocator.

Variable MaxCpus : Z.

#[local] Abbreviation ledger := cpuset_cpus_exclusive.

Lemma bind_Ok {A B} (m : M A) (k : A -> M B) w a w' :
  m w = (Ok a, w') -> bind m k w = k a w'.
Proof. intros H. unfold bind. rewrite H. reflexivity. Qed.

Lemma read_mask w path m :
  holds_mask MaxCpus w path m ->
  exists text,
    sysfs_read path w = (Ok text, w) /\
    CPUSet_of_string MaxCpus text w = (Ok m, w).
Proof.
  intros (Hr & content & Hf & Hp). exists (first_token content).
  unfold sysfs_read, CPUSet_of_string, lift. rewrite Hf, Hp.
  destruct (decide (path ∈ refused w)); [contradiction|]. split; reflexivity.
Qed.

Lemma lock_granted w path m :
  holds_mask MaxCpus w path m -> FileLock path w = (Ok tt, w).
Proof.
  intros (Hr & content & Hf & _). unfold FileLock. rewrite Hf.
  destruct (decide (path ∈ refused w)); [contradiction|reflexivity].
Qed.

Lemma sysfs_write_Ok w path value :
  path ∉ refused w -> value <> EmptyString ->
  sysfs_write path value w =
  (Ok tt, with_written ((path, value) :: written w)
            (with_files (<[path := value]> (files w)) w)).
Proof.
  intros Hr Hv. unfold sysfs_write.
  destruct (decide (path ∈ refused w)); [contradiction|].
  destruct (String.eqb_spec value EmptyString); [contradiction|reflexivity].
Qed.

Lemma sysfs_write_nothing w path :
  path ∉ refused w -> sysfs_write path EmptyString w = (Ok tt, w).
Proof.
  intros Hr. unfold sysfs_write.
  destruct (decide (path ∈ refused w)); [contradiction|reflexivity].
Qed.

(** What [reserve] does, given that the two files can be used. *)
Lemma reserve_spec w set l e :
  holds_mask MaxCpus w ledger l -> holds_mask MaxCpus w effective_path e ->
  reserve MaxCpus set w =
  if CPUSet.neq (CPUSet.and set e) set then
    (Throw (Exn runtime_error
              ("Requested cpuset '" +:+ text_of MaxCpus set +:+
               "' not a subset of '" +:+ text_of MaxCpus e +:+ "'")), w)
  else sysfs_write ledger (text_of MaxCpus (CPUSet.or l set)) w.
Proof.
  intros Hl He. unfold reserve.
  rewrite (bind_Ok _ _ _ _ _ (lock_granted w ledger l Hl)).
  destruct (read_mask w ledger l Hl) as (text & Hread & Hparse).
  rewrite (bind_Ok _ _ _ _ _ Hread), (bind_Ok _ _ _ _ _ Hparse).
  destruct (read_mask w effective_path e He) as (text' & Hread' & Hparse').
  change (RUNEXCL_SLICE +:+ "/cpuset.cpus.effective") with effective_path.
  rewrite (bind_Ok _ _ _ _ _ Hread'), (bind_Ok _ _ _ _ _ Hparse').
  destruct (CPUSet.neq (CPUSet.and set e) set); reflexivity.
Qed.

End Allocator.

(** *** Releasing *)

Lemma last_char_append (p s : string) :
  s <> EmptyString -> last_char (p +:+ s) = last_char s.
Proof.
  intros Hs. induction p as [|c p IH]; [reflexivity|].
  change (String c p +:+ s) with (String c (p +:+ s)). rewrite <- IH.
  destruct (p +:+ s) eqn:Hps; [|reflexivity].
  destruct p; [exfalso; apply Hs; exact Hps|discriminate].
Qed.

Lemma interface_not_ledger path kv :
  In kv (interface_files path) -> kv.1 <> cpuset_cpus_exclusive.
Proof.
  intros Hin Heq. apply (f_equal last_char) in Heq.
  unfold interface_files in Hin. cbn [In] in Hin.
  destruct Hin as [<-|[<-|[<-|[<-|[]]]]]; cbn [fst] in Heq;
    rewrite last_char_append in Heq by discriminate; discriminate.
Qed.

Lemma lookup_without_interface path (f : gmap string string) :
  fold_right (fun kv f => delete kv.1 f) f (interface_files path)
    !! cpuset_cpus_exclusive = f !! cpuset_cpus_exclusive.
Proof.
  assert (forall l : list (string * string),
             (forall kv, In kv l -> kv.1 <> cpuset_cpus_exclusive) ->
                    fold_right (fun kv f => delete kv.1 f) f l
                      !! cpuset_cpus_exclusive = f !! cpuset_cpus_exclusive) as H.
  { induction l as [|kv l IH]; intros Hl; [reflexivity|]. cbn [fold_right].
    rewrite lookup_delete_ne by (apply Hl; left; reflexivity).
    apply IH. intros kv' Hin. apply Hl. right. exact Hin. }
  apply H. intros kv. apply interface_not_ledger.
Qed.

Section Release.

Variable MaxCpus : Z.

#[local] Abbreviation ledger := cpuset_cpus_exclusive.

(** The destructor of a group whose directory can be removed, with a
    ledger that can be used: the world it leaves.  When the difference is
    empty its text is empty and nothing is written. *)
Lemma CPUCGroup_delete_spec w g l :
  mPath g ∈ dirs w -> mPath g ∉ refused w -> holds_mask MaxCpus w ledger l ->
  let text := text_of MaxCpus (CPUSet.and (CPUSet.xor l (mCPUSet g)) l) in
  let w1 := with_dirs (dirs w ∖ {[mPath g]})
              (with_files
                 (fold_right (fun kv f => delete kv.1 f) (files w)
                    (interface_files (mPath g))) w) in
  CPUCGroup_delete MaxCpus g w =
  (Ok tt,
   if String.eqb text EmptyString then w1
   else with_written ((ledger, text) :: written w)
          (with_files (<[ledger := text]> (files w1)) w1)).
Proof.
  intros Hdir Hnot Hl text w1. unfold CPUCGroup_delete, try_catch, remove.
  assert (rmdir (mPath g) w = (Ok true, w1)) as Hrm.
  { unfold rmdir. destruct (decide (mPath g ∈ refused w)); [contradiction|].
    destruct (decide (mPath g ∈ dirs w)); [reflexivity|contradiction]. }
  assert (holds_mask MaxCpus w1 ledger l) as Hl1.
  { destruct Hl as (Hr & content & Hf & Hp). split; [exact Hr|].
    exists content. split; [|exact Hp].
    unfold w1. cbn [files with_dirs with_files].
    rewrite lookup_without_interface. exact Hf. }
  rewrite (bind_Ok _ _ _ _ _ (bind_Ok _ _ _ _ _ Hrm)).
  rewrite (bind_Ok _ _ _ _ _ (lock_granted MaxCpus w1 ledger l Hl1)).
  destruct (read_mask MaxCpus w1 ledger l Hl1) as (t & Hread & Hparse).
  rewrite (bind_Ok _ _ _ _ _ Hread), (bind_Ok _ _ _ _ _ Hparse).
  fold text. destruct (String.eqb_spec text EmptyString) as [->|Hne].
  - rewrite sysfs_write_nothing by apply Hl1. reflexivity.
  - rewrite sysfs_write_Ok by (apply Hl1 || exact Hne). reflexivity.
Qed.

End Release.

(** ** The frequency mapping *)

Lemma SFcompare_antisym x y c :
  SFcompare x y = Some c -> SFcompare y x = Some (CompOpp c).
Proof.
  destruct x as [s1|s1| |s1 m1 e1], y as [s2|s2| |s2 m2 e2]; cbn [SFcompare];
    intros H; inversion H; subst; clear H;
    try (destruct s1; reflexivity); try (destruct s2; reflexivity);
    try (destruct s1, s2; reflexivity).
  destruct s1, s2; try reflexivity;
    rewrite (Z.compare_antisym e1 e2), !Pos.compare_cont_spec;
    rewrite (Pos.compare_antisym m1 m2);
    destruct (e1 ?= e2), (m1 ?= m2)%positive; reflexivity.
Qed.

Lemma leb_not_ltb x y : PrimFloat.leb x y = true -> PrimFloat.ltb y x = false.
Proof.
  rewrite FloatAxioms.leb_spec, FloatAxioms.ltb_spec. unfold SFleb, SFltb.
  destruct (SFcompare (Prim2SF x) (Prim2SF y)) as [c|] eqn:Hc; [|discriminate].
  rewrite (SFcompare_antisym _ _ _ Hc). destruct c; [reflexivity|reflexivity|discriminate].
Qed.

Lemma SFeqb_finite s m e y :
  SFeqb (S754_finite s m e) y = true -> y = S754_finite s m e.
Proof.
  unfold SFeqb. intros H.
  destruct y as [s2|s2| |s2 m2 e2]; cbn [SFcompare] in H;
    try (destruct s; discriminate); try (destruct s2; discriminate);
    try discriminate.
  destruct s, s2; try discriminate;
    destruct (Z.compare_spec e e2) as [Heq| |]; try discriminate;
    rewrite Pos.compare_cont_spec in H;
    destruct (Pos.compare_spec m m2) as [Hm| |]; try discriminate;
    subst; reflexivity.
Qed.

(** A double equal to the finite, non-zero constant [c] has its value. *)
Lemma eqb_constant c v s m e :
  Prim2SF c = S754_finite s m e -> PrimFloat.eqb c v = true ->
  Prim2SF v = Prim2SF c.
Proof.
  intros Hc. rewrite FloatAxioms.eqb_spec, Hc. intros H.
  apply SFeqb_finite in H. congruence.
Qed.

Lemma clamp_spec p f :
  (if f <? mScalingMinFreq p then mScalingMinFreq p else f) = clamp p f.
Proof. unfold clamp. destruct (Z.ltb_spec f (mScalingMinFreq p)); lia. Qed.

Lemma setpoint_exact p v :
  PrimFloat.ltb 1 v = true -> setpoint p v = clamp p (int_of_double v).
Proof. intros H. unfold setpoint. rewrite H. apply clamp_spec. Qed.

Lemma setpoint_fraction p v :
  PrimFloat.leb 0 v = true -> PrimFloat.leb v 1 = true ->
  setpoint p v =
  clamp p (int_of_double (PrimFloat.mul (double_of_int (mScalingMaxFreq p)) v)).
Proof.
  intros H0 H1. unfold setpoint. rewrite (leb_not_ltb v 1 H1), H0, H1.
  apply clamp_spec.
Qed.

Lemma setpoint_max p v :
  PrimFloat.eqb (-1) v = true -> setpoint p v = clamp p (mScalingMaxFreq p).
Proof.
  intros H. unfold setpoint.
  pose proof (eqb_constant (-1) v _ _ _ eq_refl H) as Hv.
  rewrite FloatAxioms.ltb_spec, !FloatAxioms.leb_spec, Hv, H.
  change (SFltb (Prim2SF 1) (Prim2SF (-1))) with false.
  change (SFleb (Prim2SF 0) (Prim2SF (-1))) with false.
  apply clamp_spec.
Qed.

Lemma setpoint_min p v :
  PrimFloat.eqb (-2) v = true -> setpoint p v = mScalingMinFreq p.
Proof.
  intros H. unfold setpoint.
  pose proof (eqb_constant (-2) v _ _ _ eq_refl H) as Hv.
  rewrite FloatAxioms.ltb_spec, !FloatAxioms.leb_spec, Hv, H.
  rewrite (FloatAxioms.eqb_spec (-1) v), Hv.
  change (SFltb (Prim2SF 1) (Prim2SF (-2))) with false.
  change (SFleb (Prim2SF 0) (Prim2SF (-2))) with false.
  change (SFeqb (Prim2SF (-1)) (Prim2SF (-2))) with false.
  cbv iota. cbn [andb]. rewrite Z.ltb_irrefl. reflexivity.
Qed.

Lemma int_of_double_fits x z :
  truncate x = Some z -> INT_MIN <= z <= INT_MAX -> int_of_double x = z.
Proof.
  intros Ht Hz. unfold int_of_double. rewrite Ht.
  destruct (Z.leb_spec INT_MIN z); [|lia].
  destruct (Z.leb_spec z INT_MAX); [reflexivity|lia].
Qed.

(** C4, as the code has it.  The value written is never below the minimum
    frequency: it is the larger of the minimum and (a) the integer part of
    [v] for [v > 1.0], (b) the integer part of the double product of the
    maximum and [v] for [0.0 <= v <= 1.0], in both cases when the integer
    part fits an [int], (c) the maximum for [v = -1.0]; it is the minimum
    for [v = -2.0]; the AMD policy maps what it put in the place of
    [-3.0], its lowest non-linear frequency, in the same way.  With
    min = 800000 and max = 3000000 the requests 0.5, -1.0, 1000000 and 100
    give 1500000, 3000000, 1000000 and 800000; -3.0 gives the lowest
    non-linear frequency 1200000. *)
Theorem setpoint_mapping (p : CPUPolicy) (v : float) :
  (PrimFloat.ltb 1 v = true ->
   forall z, truncate v = Some z -> INT_MIN <= z <= INT_MAX ->
             setpoint p v = Z.max (mScalingMinFreq p) z) /\
  (PrimFloat.leb 0 v = true -> PrimFloat.leb v 1 = true ->
   forall z,
     truncate (PrimFloat.mul (double_of_int (mScalingMaxFreq p)) v) = Some z ->
     INT_MIN <= z <= INT_MAX ->
     setpoint p v = Z.max (mScalingMinFreq p) z) /\
  (PrimFloat.eqb (-1) v = true ->
   setpoint p v = Z.max (mScalingMinFreq p) (mScalingMaxFreq p)) /\
  (PrimFloat.eqb (-2) v = true -> setpoint p v = mScalingMinFreq p) /\
  (forall lowest,
      mLowestNonlinearFreq p = Some lowest -> PrimFloat.eqb (-3) v = true ->
      setpoint p (amd_frequency p v) = setpoint p (double_of_int lowest)) /\
  mScalingMinFreq p <= setpoint p v /\
  setpoint example_policy 0.5 = 1500000 /\
  setpoint example_policy (-1) = 3000000 /\
  setpoint example_policy 1000000 = 1000000 /\
  setpoint example_policy 100 = 800000 /\
  setpoint example_policy (amd_frequency example_policy (-3)) = 1200000.
Proof.
  split.
  { intros H z Ht Hz. rewrite (setpoint_exact p v H), (int_of_double_fits v z Ht Hz).
    reflexivity. }
  split.
  { intros H0 H1 z Ht Hz.
    rewrite (setpoint_fraction p v H0 H1), (int_of_double_fits _ z Ht Hz).
    reflexivity. }
  split; [apply setpoint_max|]. split; [apply setpoint_min|].
  split.
  { intros lowest Hl H. unfold amd_frequency. rewrite Hl, H. reflexivity. }
  split.
  { unfold setpoint. rewrite clamp_spec. unfold clamp. lia. }
  repeat split; vm_compute; reflexivity.
Qed.

(** Closed statements are settled by evaluation, one conjunct at a time. *)
Ltac evaluate :=
  intros;
  repeat match goal with |- _ /\ _ => split end;
  vm_compute; reflexivity.

(** The fractional request 0.25 on a policy with min = 800000 and
    max = 3000000: the product is 750000, the value written is 800000. *)
Lemma fraction_below_minimum_is_clamped :
  PrimFloat.leb 0 0.25 = true /\ PrimFloat.leb 0.25 1 = true /\
  int_of_double (PrimFloat.mul (double_of_int (mScalingMaxFreq example_policy)) 0.25)
    = 750000 /\
  setpoint example_policy 0.25 = 800000.
Proof. evaluate. Qed.

(** An exact request whose integer part does not fit an [int]: the
    conversion has no defined result, and with the value the x86-64
    conversion gives the minimum is written. *)
Lemma request_beyond_int :
  PrimFloat.ltb 1 3000000000 = true /\
  truncate 3000000000 = Some 3000000000 /\
  (3000000000 <=? INT_MAX) = false /\
  setpoint example_policy 3000000000 = 800000.
Proof. evaluate. Qed.

(** ** Runs on the small machine *)

(** C1 on the code.  The ledger holds 4-5 and the CPUs 1-2 are requested.
    When the write to the group's cpuset.cpus fails, when the kernel does
    not take the partition type, or when the mkdir fails, the constructor
    throws and no group directory is left, but the ledger still holds
    1-2,4-5: the reservation is not released. *)
Theorem constructor_failure_keeps_reservation :
  let ledger_after (w : World) :=
    files (CPUCGroup_new 1024 6 w).2 !! cpuset_cpus_exclusive in
  let outcome_of (w : World) :=
    (is_throw (CPUCGroup_new 1024 6 w).1,
     elements (dirs (CPUCGroup_new 1024 6 w).2)) in
  let write_fails := example_world "4-5" [group_1_2 +:+ "/cpuset.cpus"] accepted in
  let type_refused := example_world "4-5" [] rejected_as_member in
  let mkdir_fails := example_world "4-5" [group_1_2] accepted in
  files write_fails !! cpuset_cpus_exclusive = Some "4-5" /\
  outcome_of write_fails = (true, [RUNEXCL_SLICE]) /\
  ledger_after write_fails = Some "1-2,4-5" /\
  outcome_of type_refused = (true, [RUNEXCL_SLICE]) /\
  ledger_after type_refused = Some "1-2,4-5" /\
  outcome_of mkdir_fails = (true, [RUNEXCL_SLICE]) /\
  ledger_after mkdir_fails = Some "1-2,4-5".
Proof. evaluate. Qed.

(** C2 on the code.  A launch that succeeds exits with 0 and a failed mkdir
    (a system_error) exits with 1, but when the kernel does not take the
    partition type the runtime_error passes the handler for system_error in
    [main] and the process ends in [std::terminate]. *)
Theorem partition_rejection_aborts :
  let gArgs := Args 6 0 false in
  (main 1024 true true gArgs (example_world "4-5" [] accepted)).1 = Exit 0 /\
  (main 1024 true true gArgs (example_world "4-5" [group_1_2] accepted)).1 = Exit 1 /\
  (main 1024 true true gArgs (example_world "4-5" [] rejected_as_member)).1 = Aborted /\
  catches system_error runtime_error = false.
Proof. evaluate. Qed.

(** C3 on the code.  The frequency 0.5 is set for the CPUs 0 and 1 through
    the AMD driver, then the governor object is destroyed.  The status file
    of the driver holds active and a newline, as the kernel shows it.  The
    set-up writes passive, userspace and 1500000; the teardown writes the
    driver status alone: the policy object stays on the heap and
    scaling_governor stays at userspace. *)
Theorem amd_teardown_skips_policies :
  let w := example_world EmptyString [] accepted in
  let up := CPUGovernor_set_frequency 1024 None 3 0.5 w in
  let mImpl := match up.1 with Ok p => p | _ => None end in
  let down := CPUGovernor_dtor mImpl up.2 in
  files w !! PATH_AMD_PSTATE = Some (String.append "active" end_of_line) /\
  rev (written up.2) =
    [(PATH_AMD_PSTATE, "passive");
     (policy0 +:+ "/scaling_governor", "userspace");
     (policy0 +:+ "/scaling_setspeed", "1500000")] /\
  down.1 = Ok tt /\
  written down.2 = (PATH_AMD_PSTATE, "active") :: written up.2 /\
  files down.2 !! (policy0 +:+ "/scaling_governor") = Some "userspace" /\
  map_to_list (heap down.2) =
    [(1%N, PolicyObject (Policy policy0 "schedutil" "<unsupported>"
                           3000000 800000 (Some 1200000)))].
Proof. evaluate. Qed.

(** What the claim asks of one policy holds for [~CPUPolicy] itself: the
    saved setspeed, unless it is the sentinel, then the saved governor (a
    saved value that is empty cannot be written). *)
Lemma CPUPolicy_dtor_writes (p : CPUPolicy) (w : World) :
  (pPath p +:+ "/scaling_setspeed") ∉ refused w ->
  (pPath p +:+ "/scaling_governor") ∉ refused w ->
  written (CPUPolicy_dtor p w).2 =
  (if String.eqb (mScalingGovernor p) EmptyString then []
   else [(pPath p +:+ "/scaling_governor", mScalingGovernor p)]) ++
  (if String.eqb (mScalingSetSpeed p) "<unsupported>"
      || String.eqb (mScalingSetSpeed p) EmptyString then []
   else [(pPath p +:+ "/scaling_setspeed", mScalingSetSpeed p)]) ++ written w.
Proof.
  intros Hs Hg. unfold CPUPolicy_dtor, try_catch, bind, cerr, ret, sysfs_write.
  destruct (String.eqb (mScalingSetSpeed p) "<unsupported>"); cbn [negb orb].
  - cbn [refused with_stderr].
    destruct (decide (pPath p +:+ "/scaling_governor" ∈ refused w));
      [contradiction|].
    destruct (String.eqb (mScalingGovernor p) EmptyString); reflexivity.
  - destruct (decide (pPath p +:+ "/scaling_setspeed" ∈ refused w));
      [contradiction|].
    destruct (String.eqb (mScalingSetSpeed p) EmptyString);
      cbn [refused with_stderr with_written with_files];
      (destruct (decide (pPath p +:+ "/scaling_governor" ∈ refused w));
         [contradiction|]);
      destruct (String.eqb (mScalingGovernor p) EmptyString); reflexivity.
Qed.

(** ** Instances on a machine with 1024 CPUs *)

Lemma default_MaxCpus_range : CPU_SETSIZE <= 1024 <= INT_MAX.
Proof. unfold CPU_SETSIZE, INT_MAX. lia. Qed.

Lemma getMaxCPUs_range kernel_max :
  CPU_SETSIZE <= getMaxCPUs kernel_max <= INT_MAX.
Proof.
  unfold getMaxCPUs, CPU_SETSIZE, INT_MAX. destruct kernel_max as [n|]; [|lia].
  destruct (Z.gtb_spec n (2 ^ 31 - 1)).
  - destruct (Z.gtb_spec (2 ^ 31 - 1) 1024); lia.
  - destruct (Z.gtb_spec n 1024); lia.
Qed.

Lemma valid_small m : 0 <= m < 2 ^ 64 -> CPUSet.valid 1024 m.
Proof.
  intros H. unfold CPUSet.valid. split; [lia|].
  apply Z.lt_trans with (2 ^ 64); [lia|].
  apply Z.pow_lt_mono_r; lia.
Qed.

(** The mask of the CPUs 2 and 4. *)
Lemma first_last_spec_witness :
  (CPUSet.empty 1024 20 = true ->
   CPUSet.first 1024 20 = -1 /\ CPUSet.last 1024 20 = -1) /\
  (CPUSet.empty 1024 20 = false ->
   0 <= CPUSet.first 1024 20 /\ CPUSet.first 1024 20 <= CPUSet.last 1024 20 /\
   CPUSet.last 1024 20 < 1024 /\
   CPUSet.is_set 20 (CPUSet.first 1024 20) = true /\
   CPUSet.is_set 20 (CPUSet.last 1024 20) = true /\
   forall i, CPUSet.is_set 20 i = true ->
             CPUSet.first 1024 20 <= i <= CPUSet.last 1024 20).
Proof.
  apply (first_last_spec 1024 default_MaxCpus_range 20).
  apply valid_small. lia.
Defined.

(** The mask 0-2,4,6-7,9. *)
Lemma parse_to_string_roundtrip_witness :
  CPUSet.to_string_int 1024 727 = Some (CPUSet.to_string 1024 727) /\
  CPUSet.parse 1024 (CPUSet.to_string 1024 727) = Ok 727 /\
  CPUSet.to_string 1024 727 = CPUSet.str "0-2,4,6-7,9".
Proof.
  split; [|split; [|vm_compute; reflexivity]];
    apply (proj1 (parse_to_string_roundtrip 1024 default_MaxCpus_range
                    ltac:(unfold INT_MAX; lia)) 727);
    apply valid_small; lia.
Defined.

Lemma digits_0 : all_digits (CPUSet.str "0").
Proof. repeat constructor. Qed.

Lemma digits_1 : all_digits (CPUSet.str "1").
Proof. repeat constructor. Qed.

Lemma number_small (ds : list ascii) :
  all_digits ds -> ds <> [] -> decimal ds < 1024 -> cpu_number 1024 ds.
Proof. intros H1 H2 H3. split; [exact H1|]. split; [exact H2|exact H3]. Qed.

Lemma plain_lead_nil : plain_lead [].
Proof. exists [], []. split; [reflexivity|]. split; [constructor|left; reflexivity]. Qed.

(** What stands in front of a character that leads a number: nothing, a
    comma, a hyphen or white space. *)
Lemma fronts_number_last q x c suf :
  fronts_number (q ++ [x]) c suf ->
  x = ","%char \/ x = "-"%char \/ isspace x = true.
Proof.
  intros (p & l1 & l2 & d & rest & Hpre & _ & Hp & (w & sg & Hl & Hw & Hsg) & _).
  destruct l1 as [|y l1 _] using rev_ind.
  - rewrite app_nil_r in Hpre. subst p.
    destruct Hp as [[H|(p' & H)]|(p' & d' & H & _)].
    + destruct q; discriminate.
    + apply app_inj_tail in H as [_ ->]. left. reflexivity.
    + change [d'; "-"%char] with ([d'] ++ ["-"%char]) in H. rewrite app_assoc in H.
      apply app_inj_tail in H as [_ ->]. right. left. reflexivity.
  - rewrite app_assoc in Hpre. apply app_inj_tail in Hpre as [_ <-].
    right. right. rewrite <- app_assoc in Hl. cbn [app] in Hl.
    apply app_eq_app in Hl as [l [[_ H2]|[H1 H2]]].
    + exfalso. destruct Hsg as [-> | [-> | ->]];
        destruct l as [|? [|? ?]]; discriminate.
    + destruct l as [|z l].
      * exfalso. cbn [app] in H2. destruct Hsg as [-> | [-> | ->]]; discriminate.
      * injection H2 as <- _. rewrite H1 in Hw.
        apply Forall_app in Hw as [_ Hw]. inversion Hw; assumption.
Qed.

Lemma fronts_number_ahead pre c : ~ fronts_number pre c [].
Proof. intros (p & l1 & l2 & d & rest & _ & H & _). destruct l2; discriminate. Qed.

(** A string that begins with a number begins with white space, a sign or
    a digit. *)
Lemma starts_number_cur suf :
  starts_number suf ->
  isspace (cur suf) = true \/ cur suf = "-"%char \/ cur suf = "+"%char \/
  isdigit (cur suf) = true.
Proof.
  intros (l & d & rest & -> & (w & sg & -> & Hw & Hsg) & Hd).
  destruct w as [|x w]; [|left; inversion Hw; assumption].
  destruct Hsg as [-> | [-> | ->]]; cbn; auto.
Qed.

(** The strings of the test suite and of the specification, and strings
    with white space and signs. *)
Lemma parse_rejects_and_accepts_witness :
  (exists e, CPUSet.parse 1024 (CPUSet.str "0,") = Throw e /\ domain_error e) /\
  (exists e, CPUSet.parse 1024 (CPUSet.str "0-,1") = Throw e /\ domain_error e) /\
  (exists e, CPUSet.parse 1024 (CPUSet.str "1-0") = Throw e /\ domain_error e) /\
  (exists e, CPUSet.parse 1024 (CPUSet.str "1024") = Throw e /\ domain_error e) /\
  (exists e, CPUSet.parse 1024 (CPUSet.str "1x") = Throw e /\ domain_error e) /\
  (exists e, CPUSet.parse 1024 (CPUSet.str "-1") = Throw e /\ domain_error e) /\
  (exists e, CPUSet.parse 1024 (CPUSet.str "0 ") = Throw e /\ domain_error e) /\
  (exists e, CPUSet.parse 1024 (CPUSet.str "0 1") = Throw e /\ domain_error e) /\
  (exists e, CPUSet.parse 1024 (CPUSet.str "0+") = Throw e /\ domain_error e) /\
  (exists e, CPUSet.parse 1024 (CPUSet.str "0--5") = Throw e /\ domain_error e) /\
  (exists e, CPUSet.parse 1024 (CPUSet.str "1-2-3") = Throw e /\ domain_error e) /\
  (exists e, CPUSet.parse 1024 (CPUSet.str "0, +5000") = Throw e /\ domain_error e) /\
  CPUSet.parse 1024
    (render [Range (CPUSet.str "0") (CPUSet.str "2"); Single (CPUSet.str "4")]) =
  Ok (mask_of [Range (CPUSet.str "0") (CPUSet.str "2"); Single (CPUSet.str "4")]).
Proof.
  destruct (parse_rejects_and_accepts 1024 default_MaxCpus_range) as [Hrej Hacc].
  assert (forall s : string, no_nul (CPUSet.str s) <->
            forallb (fun c => negb (Ascii.eqb c NUL)) (CPUSet.str s) = true) as Hnul.
  { intros s. unfold no_nul. rewrite forallb_forall, List.Forall_forall.
    split; intros H c Hc; specialize (H c Hc).
    - apply negb_true_iff, Ascii.eqb_neq. exact H.
    - apply negb_true_iff, Ascii.eqb_neq in H. exact H. }
  split; [apply Hrej; [apply Hnul; reflexivity|]|].
  { apply (trailing_separator 1024 _ (CPUSet.str "0") ","%char);
      [reflexivity|left; reflexivity]. }
  split; [apply Hrej; [apply Hnul; reflexivity|]|].
  { apply (missing_number 1024 _ (CPUSet.str "0-") (CPUSet.str ",1"));
      [reflexivity|discriminate| |].
    - right. exists [], "0"%char. split; reflexivity.
    - intros H. apply starts_number_cur in H.
      destruct H as [H|[H|[H|H]]]; discriminate H. }
  split; [apply Hrej; [apply Hnul; reflexivity|]|].
  { apply (reversed_range 1024 _ [] [] (CPUSet.str "1") [] (CPUSet.str "0") []);
      [reflexivity|left; reflexivity|apply plain_lead_nil|apply plain_lead_nil
      |apply digits_1|discriminate|apply digits_0
      |discriminate|reflexivity|reflexivity]. }
  split; [apply Hrej; [apply Hnul; reflexivity|]|].
  { apply (index_out_of_range 1024 _ [] [] (CPUSet.str "1024") []);
      [reflexivity|left; left; reflexivity|apply plain_lead_nil
      |repeat constructor|discriminate|reflexivity|discriminate]. }
  split; [apply Hrej; [apply Hnul; reflexivity|]|].
  { apply (stray_character 1024 _ (CPUSet.str "1") "x"%char []);
      [reflexivity|reflexivity|discriminate|discriminate
      |apply fronts_number_ahead]. }
  split; [apply Hrej; [apply Hnul; reflexivity|]|].
  { apply (negative_number 1024 _ [] [] (CPUSet.str "1") []);
      [reflexivity|left; left; reflexivity|constructor|apply digits_1|discriminate
      |reflexivity|].
    split; [discriminate|]. vm_compute. discriminate. }
  split; [apply Hrej; [apply Hnul; reflexivity|]|].
  { apply (stray_character 1024 _ (CPUSet.str "0") " "%char []);
      [reflexivity|reflexivity|discriminate|discriminate
      |apply fronts_number_ahead]. }
  split; [apply Hrej; [apply Hnul; reflexivity|]|].
  { apply (stray_character 1024 _ (CPUSet.str "0") " "%char (CPUSet.str "1"));
      [reflexivity|reflexivity|discriminate|discriminate|].
    intros H. apply (fronts_number_last [] "0"%char) in H.
    destruct H as [H|[H|H]]; discriminate H. }
  split; [apply Hrej; [apply Hnul; reflexivity|]|].
  { apply (stray_character 1024 _ (CPUSet.str "0") "+"%char []);
      [reflexivity|reflexivity|discriminate|discriminate
      |apply fronts_number_ahead]. }
  split; [apply Hrej; [apply Hnul; reflexivity|]|].
  { apply (negative_number 1024 _ (CPUSet.str "0-") [] (CPUSet.str "5") []);
      [reflexivity| |constructor|repeat constructor|discriminate|reflexivity|].
    - right. exists [], "0"%char. split; reflexivity.
    - split; [discriminate|]. vm_compute. discriminate. }
  split; [apply Hrej; [apply Hnul; reflexivity|]|].
  { apply (range_of_three 1024 _ [] [] (CPUSet.str "1") [] (CPUSet.str "2")
             (CPUSet.str "3"));
      [reflexivity|left; reflexivity|apply plain_lead_nil|apply plain_lead_nil
      |apply digits_1|discriminate|repeat constructor|discriminate]. }
  split; [apply Hrej; [apply Hnul; reflexivity|]|].
  { apply (index_out_of_range 1024 _ (CPUSet.str "0,") (CPUSet.str " +")
             (CPUSet.str "5000") []);
      [reflexivity| | |repeat constructor|discriminate|reflexivity|discriminate].
    - left. right. exists (CPUSet.str "0"). reflexivity.
    - exists (CPUSet.str " "), (CPUSet.str "+").
      split; [reflexivity|]. split; [repeat constructor|right; reflexivity]. }
  apply Hacc. constructor; [|constructor; [|constructor]].
  - split; [|split]; [| |discriminate];
      (apply number_small; [repeat constructor|discriminate|reflexivity]).
  - apply number_small; [repeat constructor|discriminate|reflexivity].
Defined.

(** The claim's "stray non-digit character", read as any character that is
    neither a digit nor a comma nor a hyphen: the string of a blank and 0
    holds one and parses to the mask of CPU 0, and +1 parses to the mask of
    CPU 1.  [strtoul] takes white space and a sign as part of the number:
    -0 is read as 0.  It also negates modulo 2^64, so that the negative
    number -18446744073709551615 is read as 1. *)
Lemma parse_accepts_leading_space :
  no_nul (CPUSet.str " 0") /\
  (exists c, In c (CPUSet.str " 0") /\ isdigit c = false /\
             c <> ","%char /\ c <> "-"%char) /\
  CPUSet.parse 1024 (CPUSet.str " 0") = Ok (CPUSet.set CPUSet.zero 0) /\
  CPUSet.parse 1024 (CPUSet.str "+1") = Ok (CPUSet.set CPUSet.zero 1) /\
  CPUSet.parse 1024 (CPUSet.str "-0") = Ok (CPUSet.set CPUSet.zero 0) /\
  CPUSet.parse 1024 (CPUSet.str "-18446744073709551615") =
    Ok (CPUSet.set CPUSet.zero 1).
Proof.
  split; [repeat constructor; discriminate|]. split; [|evaluate].
  exists " "%char. split; [left; reflexivity|].
  split; [reflexivity|]. split; discriminate.
Qed.

(** The list form 0-2,4 in front of a newline and more text. *)
Lemma stream_extract_spec_witness :
  let its := [Range (CPUSet.str "0") (CPUSet.str "2"); Single (CPUSet.str "4")] in
  exists ins',
    extract 1024 (ios.of_chars (render its ++ newline :: CPUSet.str "Garbage")) 5 =
      Some (ins', mask_of its) /\
    pending ins' = newline :: CPUSet.str "Garbage" /\ ios.good ins' = true /\
    CPUSet.parse 1024 (render its) = Ok (mask_of its).
Proof.
  apply (proj1 (stream_extract_spec 1024 default_MaxCpus_range));
    [|discriminate|reflexivity|discriminate|discriminate].
  constructor; [|constructor; [|constructor]].
  - split; [|split]; [| |discriminate];
      (apply number_small; [repeat constructor|discriminate|reflexivity]).
  - apply number_small; [repeat constructor|discriminate|reflexivity].
Defined.

(** The empty list form is a valid mask and parses to the empty mask, but on
    the input [x], the empty list form followed by a character outside of
    the grammar, the operator fails and leaves the target (here the mask 5)
    as it was. *)
Lemma stream_rejects_empty_prefix :
  Forall (valid_item 1024) [] /\
  CPUSet.parse 1024 (render []) = Ok CPUSet.zero /\
  extract 1024 (ios.of_chars (render [] ++ CPUSet.str "x")) 5 =
    Some (IStream [] (CPUSet.str "x") false true false, 5).
Proof. split; [constructor|]. split; reflexivity. Qed.

(* ===================================================================== *)
(** * Part III.  Further properties of the code                           *)
(* ===================================================================== *)

(** ** The mask operations of CPUSet.hpp *)
Section MaskOperations.

Variable MaxCpus : Z.
Hypothesis MaxCpus_range : CPU_SETSIZE <= MaxCpus <= INT_MAX.

Lemma count_loop_filter m k : forall i,
  CPUSet.count_loop k i m =
  Z.of_nat (length (List.filter (CPUSet.is_set m) (seqZ i (Z.of_nat k)))).
Proof.
  induction k as [|k IH]; intros i; [reflexivity|].
  rewrite seqZ_cons by lia. cbn [CPUSet.count_loop List.filter].
  replace (Z.pred (Z.of_nat (S k))) with (Z.of_nat k) by lia.
  rewrite IH. replace (Z.succ i) with (i + 1) by lia.
  unfold CPUSet.is_set at 2. destruct (Z.testbit m i); cbn [length]; lia.
Qed.

Lemma filter_high_bits m k : forall n,
  CPUSet.valid MaxCpus m -> MaxCpus <= n ->
  List.filter (CPUSet.is_set m) (seqZ n (Z.of_nat k)) = [].
Proof.
  induction k as [|k IH]; intros n Hv Hn; [reflexivity|].
  rewrite seqZ_cons by lia. cbn [List.filter].
  replace (Z.pred (Z.of_nat (S k))) with (Z.of_nat k) by lia.
  unfold CPUSet.is_set at 1. rewrite (valid_high_bits MaxCpus m n Hv Hn).
  apply IH; [assumption|lia].
Qed.

(** [count] looks at the whole allocation; on a mask of the class this is
    the number of CPUs below [MaxCpus] that are set. *)
Lemma count_filter m :
  CPUSet.valid MaxCpus m ->
  CPUSet.count MaxCpus m =
  Z.of_nat (length (List.filter (CPUSet.is_set m) (seqZ 0 MaxCpus))).
Proof.
  intros Hv. unfold CPUSet.count. rewrite count_loop_filter.
  pose proof (alloc_bits_cover MaxCpus) as Hc.
  pose proof (MaxCpus_pos MaxCpus MaxCpus_range) as Hp.
  rewrite Z2Nat.id by lia.
  replace (8 * CPUSet.mSize MaxCpus)
    with (MaxCpus + Z.of_nat (Z.to_nat (8 * CPUSet.mSize MaxCpus - MaxCpus))) by lia.
  rewrite seqZ_app by lia. rewrite List.filter_app.
  rewrite (filter_high_bits m _ (0 + MaxCpus) Hv) by lia.
  rewrite app_nil_r. reflexivity.
Qed.

Lemma count_bounds m :
  CPUSet.valid MaxCpus m -> 0 <= CPUSet.count MaxCpus m <= MaxCpus.
Proof.
  intros Hv. rewrite (count_filter m Hv).
  pose proof (List.filter_length_le (CPUSet.is_set m) (seqZ 0 MaxCpus)) as H.
  rewrite length_seqZ in H.
  pose proof (MaxCpus_pos MaxCpus MaxCpus_range). lia.
Qed.

(** Two masks that differ in the bit [n] at most. *)
Lemma count_loop_one_bit m m' n k : forall i,
  (forall j, j <> n -> Z.testbit m' j = Z.testbit m j) ->
  CPUSet.count_loop k i m' =
  CPUSet.count_loop k i m +
  (if (i <=? n) && (n <? i + Z.of_nat k)
   then Z.b2z (Z.testbit m' n) - Z.b2z (Z.testbit m n) else 0).
Proof.
  induction k as [|k IH]; intros i Hj.
  - cbn [CPUSet.count_loop]. destruct (Z.leb_spec i n), (Z.ltb_spec n (i + Z.of_nat 0));
      cbn [andb]; lia.
  - cbn [CPUSet.count_loop]. rewrite (IH (i + 1) Hj).
    destruct (Z.eq_dec i n) as [->|Hne].
    + destruct (Z.leb_spec (n + 1) n); [lia|]. cbn [andb].
      destruct (Z.leb_spec n n); [|lia].
      destruct (Z.ltb_spec n (n + Z.of_nat (S k))); [|lia]. cbn [andb].
      destruct (Z.testbit m' n), (Z.testbit m n); cbn [Z.b2z]; lia.
    + rewrite (Hj i Hne).
      destruct (Z.leb_spec (i + 1) n), (Z.leb_spec i n),
        (Z.ltb_spec n (i + 1 + Z.of_nat k)), (Z.ltb_spec n (i + Z.of_nat (S k)));
        cbn [andb]; lia.
Qed.

Lemma count_one_bit m m' n :
  0 <= n < MaxCpus ->
  (forall j, j <> n -> Z.testbit m' j = Z.testbit m j) ->
  CPUSet.count MaxCpus m' =
  CPUSet.count MaxCpus m + Z.b2z (Z.testbit m' n) - Z.b2z (Z.testbit m n).
Proof.
  intros Hn Hj. unfold CPUSet.count. rewrite (count_loop_one_bit m m' n _ 0 Hj).
  pose proof (alloc_bits_cover MaxCpus).
  rewrite Z2Nat.id by lia.
  replace (0 <=? n) with true by lia.
  replace (n <? 0 + 8 * CPUSet.mSize MaxCpus) with true by lia.
  cbn [andb]. lia.
Qed.

Lemma testbit_clr m n i :
  0 <= n -> Z.testbit (CPUSet.clr m n) i = Z.testbit m i && negb (i =? n).
Proof.
  intros Hn. unfold CPUSet.clr. rewrite Z.ldiff_spec.
  destruct (Z_lt_le_dec i 0) as [Hi|Hi].
  - rewrite !Z.testbit_neg_r by assumption. reflexivity.
  - rewrite Z.shiftl_spec by assumption.
    destruct (Z.eqb_spec i n) as [->|Hne].
    + rewrite Z.sub_diag. reflexivity.
    + replace (Z.testbit 1 (i - n)) with false; [reflexivity|].
      destruct (Z_lt_le_dec (i - n) 0);
        [rewrite Z.testbit_neg_r by assumption; reflexivity|].
      symmetry. apply (Z.bits_above_log2 1 (i - n)); simpl; lia.
Qed.

Lemma valid_set m n :
  CPUSet.valid MaxCpus m -> 0 <= n < MaxCpus -> CPUSet.valid MaxCpus (CPUSet.set m n).
Proof.
  intros Hv Hn. apply (valid_of_bits MaxCpus MaxCpus_range).
  - apply set_nonneg; [apply Hv|lia].
  - intros i Hi. rewrite testbit_set by lia.
    rewrite (valid_high_bits MaxCpus m i Hv Hi).
    replace (i =? n) with false by lia. reflexivity.
Qed.

Lemma valid_clr m n :
  CPUSet.valid MaxCpus m -> 0 <= n -> CPUSet.valid MaxCpus (CPUSet.clr m n).
Proof.
  intros Hv Hn. apply (valid_of_bits MaxCpus MaxCpus_range).
  - unfold CPUSet.clr. apply Z.ldiff_nonneg. left. apply Hv.
  - intros i Hi. rewrite testbit_clr by lia.
    rewrite (valid_high_bits MaxCpus m i Hv Hi). reflexivity.
Qed.

Lemma valid_set_from_to start cpu m :
  CPUSet.valid MaxCpus m -> 0 <= start -> cpu < MaxCpus ->
  CPUSet.valid MaxCpus (CPUSet.set_from_to start cpu m).
Proof.
  intros Hv Hs Hc.
  destruct (set_from_to_spec start cpu m Hs (proj1 Hv)) as [Hnn Hbits].
  apply (valid_of_bits MaxCpus MaxCpus_range); [assumption|].
  intros i Hi. rewrite Hbits, (valid_high_bits MaxCpus m i Hv Hi).
  replace (i <=? cpu) with false by lia. apply andb_false_r.
Qed.

(** X1.  [count()] is the number of CPUs below [MaxCpus] that are in the
    mask; it lies between 0 and [MaxCpus], and [empty()] holds for the
    empty mask only. *)
Theorem count_spec (m : CPUSet) :
  CPUSet.valid MaxCpus m ->
  CPUSet.count MaxCpus m =
    Z.of_nat (length (List.filter (CPUSet.is_set m) (seqZ 0 MaxCpus))) /\
  0 <= CPUSet.count MaxCpus m <= MaxCpus /\
  (CPUSet.empty MaxCpus m = true <-> m = CPUSet.zero).
Proof.
  intros Hv. split; [apply count_filter; assumption|].
  split; [apply count_bounds; assumption|].
  apply empty_iff_zero. assumption.
Qed.

(** X2.  [set(n)] and [clr(n)] for a CPU below [MaxCpus] change the bit [n]
    and no other, keep the mask within the class, and move [count()] by one
    exactly when the bit changes. *)
Theorem set_clr_spec (m : CPUSet) (n : Z) :
  CPUSet.valid MaxCpus m -> 0 <= n < MaxCpus ->
  (CPUSet.valid MaxCpus (CPUSet.set m n) /\
   (forall i, CPUSet.is_set (CPUSet.set m n) i = CPUSet.is_set m i || (i =? n)) /\
   CPUSet.count MaxCpus (CPUSet.set m n) =
     CPUSet.count MaxCpus m + (if CPUSet.is_set m n then 0 else 1)) /\
  (CPUSet.valid MaxCpus (CPUSet.clr m n) /\
   (forall i, CPUSet.is_set (CPUSet.clr m n) i = CPUSet.is_set m i && negb (i =? n)) /\
   CPUSet.count MaxCpus (CPUSet.clr m n) =
     CPUSet.count MaxCpus m - (if CPUSet.is_set m n then 1 else 0)).
Proof.
  intros Hv Hn. split.
  - split; [apply valid_set; assumption|].
    split; [intros i; apply testbit_set; lia|].
    rewrite (count_one_bit m (CPUSet.set m n) n Hn).
    + rewrite testbit_set by lia. rewrite Z.eqb_refl, orb_true_r.
      unfold CPUSet.is_set. destruct (Z.testbit m n); cbn [Z.b2z]; lia.
    + intros j Hj. rewrite testbit_set by lia.
      replace (j =? n) with false by lia. apply orb_false_r.
  - split; [apply valid_clr; [assumption|lia]|].
    split; [intros i; apply testbit_clr; lia|].
    rewrite (count_one_bit m (CPUSet.clr m n) n Hn).
    + rewrite testbit_clr by lia. rewrite Z.eqb_refl. cbn [negb]. rewrite andb_false_r.
      unfold CPUSet.is_set. destruct (Z.testbit m n); cbn [Z.b2z]; lia.
    + intros j Hj. rewrite testbit_clr by lia.
      replace (j =? n) with false by lia. apply andb_true_r.
Qed.

Lemma valid_land a b :
  CPUSet.valid MaxCpus a -> CPUSet.valid MaxCpus b -> CPUSet.valid MaxCpus (CPUSet.and a b).
Proof.
  intros Ha Hb. apply (valid_of_bits MaxCpus MaxCpus_range).
  - apply Z.land_nonneg. left. apply Ha.
  - intros i Hi. unfold CPUSet.and. rewrite Z.land_spec.
    rewrite (valid_high_bits MaxCpus a i Ha Hi). reflexivity.
Qed.

Lemma valid_lor a b :
  CPUSet.valid MaxCpus a -> CPUSet.valid MaxCpus b -> CPUSet.valid MaxCpus (CPUSet.or a b).
Proof.
  intros Ha Hb. apply (valid_of_bits MaxCpus MaxCpus_range).
  - apply Z.lor_nonneg. split; [apply Ha|apply Hb].
  - intros i Hi. unfold CPUSet.or. rewrite Z.lor_spec.
    rewrite (valid_high_bits MaxCpus a i Ha Hi), (valid_high_bits MaxCpus b i Hb Hi).
    reflexivity.
Qed.

Lemma valid_lxor a b :
  CPUSet.valid MaxCpus a -> CPUSet.valid MaxCpus b -> CPUSet.valid MaxCpus (CPUSet.xor a b).
Proof.
  intros Ha Hb. apply (valid_of_bits MaxCpus MaxCpus_range).
  - apply Z.lxor_nonneg. split; intros _; [apply Hb|apply Ha].
  - intros i Hi. unfold CPUSet.xor. rewrite Z.lxor_spec.
    rewrite (valid_high_bits MaxCpus a i Ha Hi), (valid_high_bits MaxCpus b i Hb Hi).
    reflexivity.
Qed.

(** X3.  [&], [|] and [^] stay within the class and are intersection, union
    and symmetric difference of the CPUs; [==] is equality of the masks; and
    [(a & b) != a], the test of the constructor and of [main], holds exactly
    when a CPU of [a] is missing in [b]. *)
Theorem mask_algebra (a b : CPUSet) :
  CPUSet.valid MaxCpus a -> CPUSet.valid MaxCpus b ->
  CPUSet.valid MaxCpus (CPUSet.and a b) /\
  CPUSet.valid MaxCpus (CPUSet.or a b) /\
  CPUSet.valid MaxCpus (CPUSet.xor a b) /\
  (forall i, CPUSet.is_set (CPUSet.and a b) i = CPUSet.is_set a i && CPUSet.is_set b i) /\
  (forall i, CPUSet.is_set (CPUSet.or a b) i = CPUSet.is_set a i || CPUSet.is_set b i) /\
  (forall i, CPUSet.is_set (CPUSet.xor a b) i = xorb (CPUSet.is_set a i) (CPUSet.is_set b i)) /\
  (CPUSet.eq a b = true <->
   forall i, 0 <= i < MaxCpus -> CPUSet.is_set a i = CPUSet.is_set b i) /\
  (CPUSet.neq (CPUSet.and a b) a = true <->
   exists i, 0 <= i < MaxCpus /\ CPUSet.is_set a i = true /\ CPUSet.is_set b i = false).
Proof.
  intros Ha Hb.
  split; [apply valid_land; assumption|].
  split; [apply valid_lor; assumption|].
  split; [apply valid_lxor; assumption|].
  split; [intros i; apply Z.land_spec|].
  split; [intros i; apply Z.lor_spec|].
  split; [intros i; apply Z.lxor_spec|].
  assert (forall x y, CPUSet.valid MaxCpus x -> CPUSet.valid MaxCpus y ->
            (x = y <-> forall i, 0 <= i < MaxCpus -> Z.testbit x i = Z.testbit y i))
    as Hext.
  { intros x y Hx Hy. split; [intros -> i _; reflexivity|].
    intros H. apply Z.bits_inj'. intros i Hi.
    destruct (Z_lt_le_dec i MaxCpus) as [Hlt|Hge]; [apply H; lia|].
    rewrite (valid_high_bits MaxCpus x i Hx Hge), (valid_high_bits MaxCpus y i Hy Hge).
    reflexivity. }
  split.
  - unfold CPUSet.eq. rewrite Z.eqb_eq. apply Hext; assumption.
  - unfold CPUSet.neq, CPUSet.eq. rewrite negb_true_iff, Z.eqb_neq.
    split.
    + intros Hne.
      destruct (List.existsb (fun i => Z.testbit a i && negb (Z.testbit b i))
                  (seqZ 0 MaxCpus)) eqn:Hex.
      * apply List.existsb_exists in Hex as (i & Hin & Hi).
        apply list_elem_of_In, elem_of_seqZ in Hin.
        apply andb_true_iff in Hi as [Hai Hbi]. apply negb_true_iff in Hbi.
        exists i. split; [lia|]. split; assumption.
      * exfalso. apply Hne.
        apply (Hext _ _ (valid_land a b Ha Hb) Ha). intros i Hi.
        unfold CPUSet.and. rewrite Z.land_spec.
        destruct (Z.testbit a i) eqn:Hai; [|reflexivity].
        destruct (Z.testbit b i) eqn:Hbi; [reflexivity|].
        assert (List.existsb (fun i => Z.testbit a i && negb (Z.testbit b i))
                  (seqZ 0 MaxCpus) = true) as Habs; [|congruence].
        apply List.existsb_exists. exists i.
        split; [apply list_elem_of_In, elem_of_seqZ; lia|].
        rewrite Hai, Hbi. reflexivity.
    + intros (i & Hi & Hai & Hbi) Heq.
      apply (f_equal (fun x => Z.testbit x i)) in Heq.
      unfold CPUSet.and in Heq. rewrite Z.land_spec in Heq.
      unfold CPUSet.is_set in Hai, Hbi. rewrite Hai, Hbi in Heq. discriminate.
Qed.

End MaskOperations.

(** ** What [parse] and [to_string] give *)
Section ListForm.

Variable MaxCpus : Z.
Hypothesis MaxCpus_range : CPU_SETSIZE <= MaxCpus <= INT_MAX.

#[local] Abbreviation valid := (CPUSet.valid MaxCpus).

#[local] Abbreviation start_value := (start_value MaxCpus).

Lemma strtoul_nonneg pos : 0 <= fst (strtoul pos).
Proof.
  destruct (strtoul_cases pos) as [->|(w & sg & ds & e & _ & _ & _ & _ & _ & _ & _ & H)];
    [simpl; lia|assumption].
Qed.

Lemma parse_switch_valid continue start cpu e m r :
  (forall a s p m', valid m' -> start_value s -> continue a s p m' = Ok r -> valid r) ->
  valid m -> start_value start -> 0 <= cpu < MaxCpus ->
  CPUSet.parse_switch continue start cpu e m = Ok r -> valid r.
Proof.
  intros Hk Hm Hs Hc. unfold CPUSet.parse_switch.
  destruct (Ascii.eqb (cur e) NUL || Ascii.eqb (cur e) ","); cbv zeta.
  - destruct (Z.eqb_spec (-1) start) as [Heq|Hne].
    + pose proof (valid_set MaxCpus MaxCpus_range m cpu Hm Hc) as Hv.
      destruct (Ascii.eqb NUL (cur e)); [intros [= <-]; exact Hv|].
      apply Hk; assumption.
    + destruct (Z.gtb_spec start cpu); [discriminate|].
      assert (valid (CPUSet.set_from_to start cpu m)) as Hv.
      { apply (valid_set_from_to MaxCpus MaxCpus_range); [assumption| |lia].
        destruct Hs; lia. }
      destruct (Ascii.eqb NUL (cur e)); [intros [= <-]; exact Hv|].
      apply Hk; [assumption|left; reflexivity].
  - destruct (Ascii.eqb (cur e) "-"); [|discriminate].
    destruct (negb (-1 =? start)); [discriminate|].
    apply Hk; [assumption|right; assumption].
Qed.

Lemma parse_loop_valid fuel : forall at_str start pos m r,
  valid m -> start_value start ->
  CPUSet.parse_loop MaxCpus fuel at_str start pos m = Ok r -> valid r.
Proof.
  induction fuel as [|fuel IH]; intros at_str start pos m r Hm Hs; [discriminate|].
  cbn [CPUSet.parse_loop]. unfold CPUSet.parse_body.
  pose proof (strtoul_nonneg pos) as Hn.
  destruct (strtoul pos) as [n e]. cbn [fst] in Hn.
  destruct (length e =? length pos)%nat.
  - destruct (Ascii.eqb NUL (cur e) && at_str); [intros [= <-]; assumption|].
    destruct (-1 =? start); discriminate.
  - destruct (Z.geb_spec n MaxCpus); [discriminate|].
    apply parse_switch_valid; [|assumption|assumption|lia].
    intros a s p m' Hm' Hs'. apply IH; assumption.
Qed.

Lemma parse_valid s r : CPUSet.parse MaxCpus s = Ok r -> valid r.
Proof.
  apply parse_loop_valid; [apply valid_zero; assumption|left; reflexivity].
Qed.

(** X4.  [parse] comes to an end on every string: it returns a mask without
    a CPU at or above [MaxCpus], or it throws invalid_argument, range_error
    or out_of_range. *)
Theorem parse_total_and_valid (s : list ascii) :
  (exists m, CPUSet.parse MaxCpus s = Ok m /\ valid m /\
             forall i, CPUSet.is_set m i = true -> 0 <= i < MaxCpus) \/
  (exists e, CPUSet.parse MaxCpus s = Throw e /\ domain_error e).
Proof.
  destruct (parse_loop_total MaxCpus (S (length s)) true (-1) s CPUSet.zero)
    as [[r Hr]|Hthrow]; [lia| |right; exact Hthrow].
  left. exists r. split; [exact Hr|].
  pose proof (parse_valid s r Hr) as Hv. split; [exact Hv|].
  intros i Hi. apply (valid_bits MaxCpus r i Hv Hi).
Qed.

Lemma render_item_chars it :
  valid_item MaxCpus it -> Forall list_form_char (render_item it).
Proof.
  assert (forall ds, all_digits ds -> Forall list_form_char ds) as Hd.
  { intros ds H. eapply List.Forall_impl; [|exact H]. intros c Hc. left. exact Hc. }
  destruct it as [a|a b]; cbn [valid_item render_item].
  - intros (Ha & _). apply Hd. exact Ha.
  - intros ((Ha & _) & (Hb & _) & _). apply Forall_app. split; [apply Hd; exact Ha|].
    constructor; [right; right; reflexivity|apply Hd; exact Hb].
Qed.

Lemma render_tail_chars its :
  Forall (valid_item MaxCpus) its -> Forall list_form_char (render_tail its).
Proof.
  induction 1 as [|it its Hit _ IH]; [constructor|].
  unfold render_tail. cbn [flat_map].
  constructor; [right; left; reflexivity|].
  apply Forall_app. split; [apply render_item_chars; assumption|exact IH].
Qed.

Lemma render_chars its :
  Forall (valid_item MaxCpus) its -> Forall list_form_char (render its).
Proof.
  destruct its as [|it its]; [constructor|]. intros H. inversion H; subst.
  cbn [render]. apply Forall_app.
  split; [apply render_item_chars; assumption|apply render_tail_chars; assumption].
Qed.

(** The items [to_string] writes. *)
Lemma to_string_items m :
  valid m ->
  exists its, CPUSet.to_string MaxCpus m = render its /\
              Forall (valid_item MaxCpus) its /\ mask_of its = m.
Proof.
  intros Hv. exists (map run_item (runs_loop MaxCpus (Z.to_nat MaxCpus) 0 m)).
  split; [apply to_string_runs|]. split; [|apply mask_of_runs; assumption].
  pose proof (MaxCpus_pos MaxCpus MaxCpus_range).
  destruct (runs_loop_spec MaxCpus MaxCpus_range m (Z.to_nat MaxCpus) 0 0)
    as (Hin & _); [lia|lia|lia|].
  apply List.Forall_map. eapply List.Forall_impl; [|exact Hin].
  intros r Hr. apply run_item_valid; assumption.
Qed.

Lemma parse_of_to_string m :
  valid m -> CPUSet.parse MaxCpus (CPUSet.to_string MaxCpus m) = Ok m.
Proof.
  intros Hv. destruct (to_string_items m Hv) as (its & -> & Hits & <-).
  apply parse_render; assumption.
Qed.

Lemma list_form_char_not_space c : list_form_char c -> isspace c = false.
Proof.
  intros [H|[->| ->]]; [apply isdigit_not_space; exact H|reflexivity|reflexivity].
Qed.

Lemma take_token_all l :
  Forall (fun c => isspace c = false) l -> take_token l = l.
Proof.
  induction 1 as [|c l Hc _ IH]; [reflexivity|].
  cbn [take_token]. rewrite Hc, IH. reflexivity.
Qed.

Lemma skip_space_none l :
  Forall (fun c => isspace c = false) l -> skip_space l = l.
Proof.
  destruct 1 as [|c l Hc _]; [reflexivity|]. cbn [skip_space]. rewrite Hc. reflexivity.
Qed.

Lemma chomp_chars_all l :
  Forall (fun c => isspace c = false) l -> chomp_chars l = l.
Proof.
  induction 1 as [|c l Hc _ IH]; [reflexivity|].
  cbn [chomp_chars]. rewrite IH.
  destruct (Ascii.eqb_spec c newline) as [->|]; [discriminate Hc|reflexivity].
Qed.

Lemma str_msg l : CPUSet.str (CPUSet.msg l) = l.
Proof. apply list_ascii_of_string_of_list_ascii. Qed.

Lemma msg_str s : CPUSet.msg (CPUSet.str s) = s.
Proof. apply string_of_list_ascii_of_string. Qed.

Lemma to_string_no_space m :
  valid m -> Forall (fun c => isspace c = false) (CPUSet.to_string MaxCpus m).
Proof.
  intros Hv. destruct (to_string_items m Hv) as (its & -> & Hits & _).
  eapply List.Forall_impl; [|apply render_chars; exact Hits].
  apply list_form_char_not_space.
Qed.

Lemma first_token_text m : valid m -> first_token (text_of MaxCpus m) = text_of MaxCpus m.
Proof.
  intros Hv. unfold first_token, text_of. rewrite str_msg.
  pose proof (to_string_no_space m Hv) as H.
  rewrite (skip_space_none _ H), (take_token_all _ H). reflexivity.
Qed.

Lemma to_string_nil_iff m : valid m -> (CPUSet.to_string MaxCpus m = [] <-> m = CPUSet.zero).
Proof.
  intros Hv. split.
  - intros H. pose proof (parse_of_to_string m Hv) as Hp. rewrite H in Hp.
    vm_compute in Hp. unfold CPUSet.zero. congruence.
  - intros ->. apply to_string_zero.
Qed.

(** X5.  The text [to_string] gives for a mask of the class consists of
    digits, commas and hyphens, is empty for the empty mask only, and is one
    token for [sysfs_read] and one line for [chomp]. *)
Theorem to_string_shape (m : CPUSet) :
  valid m ->
  Forall list_form_char (CPUSet.to_string MaxCpus m) /\
  (CPUSet.to_string MaxCpus m = [] <-> m = CPUSet.zero) /\
  first_token (text_of MaxCpus m) = text_of MaxCpus m /\
  chomp (text_of MaxCpus m) = text_of MaxCpus m.
Proof.
  intros Hv. split.
  { destruct (to_string_items m Hv) as (its & -> & Hits & _).
    apply render_chars. exact Hits. }
  split; [apply to_string_nil_iff; assumption|].
  split; [apply first_token_text; assumption|].
  unfold chomp, text_of. rewrite str_msg.
  rewrite (chomp_chars_all _ (to_string_no_space m Hv)). reflexivity.
Qed.

Lemma msg_inj a b : CPUSet.msg a = CPUSet.msg b -> a = b.
Proof. intros H. apply (f_equal CPUSet.str) in H. rewrite !str_msg in H. exact H. Qed.

Lemma append_inj_r (p a b : string) : p +:+ a = p +:+ b -> a = b.
Proof.
  induction p as [|c p IH]; [intros H; exact H|].
  change (String c p +:+ a) with (String c (p +:+ a)).
  change (String c p +:+ b) with (String c (p +:+ b)).
  intros [= H]. apply IH. exact H.
Qed.

Lemma to_string_inj a b :
  valid a -> valid b -> CPUSet.to_string MaxCpus a = CPUSet.to_string MaxCpus b -> a = b.
Proof.
  intros Ha Hb H. pose proof (parse_of_to_string a Ha) as Hpa.
  rewrite H, (parse_of_to_string b Hb) in Hpa. congruence.
Qed.

(** X6.  Different masks have different texts, so the constructor never
    gives two of them the same group directory. *)
Theorem group_names_differ (a b : CPUSet) :
  valid a -> valid b ->
  (CPUSet.to_string MaxCpus a = CPUSet.to_string MaxCpus b -> a = b) /\
  (group_path MaxCpus a = group_path MaxCpus b -> a = b).
Proof.
  intros Ha Hb. split; [apply to_string_inj; assumption|].
  unfold group_path. intros H.
  apply append_inj_r, append_inj_r, msg_inj in H.
  apply to_string_inj; assumption.
Qed.

(** What is written for a mask is read back as that mask. *)
Lemma holds_mask_after_write w path m :
  valid m -> path ∉ refused w ->
  holds_mask MaxCpus
    (with_written ((path, text_of MaxCpus m) :: written w)
       (with_files (<[path := text_of MaxCpus m]> (files w)) w)) path m.
Proof.
  intros Hv Hr. split; [exact Hr|]. exists (text_of MaxCpus m).
  split; [apply lookup_insert_eq|].
  rewrite (first_token_text m Hv). unfold text_of. rewrite str_msg.
  apply parse_of_to_string. exact Hv.
Qed.

Lemma text_of_zero : text_of MaxCpus CPUSet.zero = EmptyString.
Proof. unfold text_of. rewrite to_string_zero. reflexivity. Qed.

Lemma text_of_nonempty m :
  valid m -> m <> CPUSet.zero -> text_of MaxCpus m <> EmptyString.
Proof.
  intros Hv Hm H. apply Hm. apply (to_string_nil_iff m Hv).
  apply msg_inj. exact H.
Qed.

Lemma text_of_eqb m :
  valid m -> String.eqb (text_of MaxCpus m) EmptyString = CPUSet.eq m CPUSet.zero.
Proof.
  intros Hv. unfold CPUSet.eq. destruct (Z.eqb_spec m CPUSet.zero) as [->|Hm].
  - rewrite text_of_zero. reflexivity.
  - apply String.eqb_neq. apply text_of_nonempty; assumption.
Qed.

(** X7.  [sysfs_write] of a mask that is not empty, followed by
    [sysfs_read] and the constructor from a string, gives the mask back.
    For the empty mask nothing is written: the world stays as it is, and
    what is read back is the mask the file held before. *)
Theorem write_read_mask (w : World) (path : string) (m : CPUSet) :
  valid m -> path ∉ refused w ->
  (m <> CPUSet.zero ->
   (do_ sysfs_write path (text_of MaxCpus m) ;
    do text <- sysfs_read path ;
    CPUSet_of_string MaxCpus text) w =
   (Ok m, with_written ((path, text_of MaxCpus m) :: written w)
            (with_files (<[path := text_of MaxCpus m]> (files w)) w))) /\
  (m = CPUSet.zero ->
   sysfs_write path (text_of MaxCpus m) w = (Ok tt, w) /\
   forall l,
     holds_mask MaxCpus w path l ->
     (do_ sysfs_write path (text_of MaxCpus m) ;
      do text <- sysfs_read path ;
      CPUSet_of_string MaxCpus text) w = (Ok l, w)).
Proof.
  intros Hv Hr. split.
  - intros Hm.
    rewrite (bind_Ok _ _ _ _ _
               (sysfs_write_Ok w path _ Hr (text_of_nonempty m Hv Hm))).
    destruct (read_mask MaxCpus _ path m (holds_mask_after_write w path m Hv Hr))
      as (text & Hread & Hparse).
    rewrite (bind_Ok _ _ _ _ _ Hread). exact Hparse.
  - intros ->. rewrite text_of_zero.
    split; [apply sysfs_write_nothing; exact Hr|].
    intros l Hl. rewrite (bind_Ok _ _ _ _ _ (sysfs_write_nothing w path Hr)).
    destruct (read_mask MaxCpus w path l Hl) as (text & Hread & Hparse).
    rewrite (bind_Ok _ _ _ _ _ Hread). exact Hparse.
Qed.

End ListForm.

(** ** More on the stream form *)
Section StreamToTheEnd.

Variable MaxCpus : Z.
Hypothesis MaxCpus_range : CPU_SETSIZE <= MaxCpus <= INT_MAX.

(** [in >> cpu] on a CPU number with which the input ends. *)
Lemma read_int_number_eof cs ds :
  cpu_number MaxCpus ds ->
  ios.read_int (good_stream cs ds) = (eof_stream (rev ds ++ cs), decimal ds).
Proof.
  intros (Hds & Hne & Hlt). unfold ios.read_int, ios.sentry, good_stream.
  cbn [ios.good eofbit failbit badbit negb andb consumed pending].
  destruct ds as [|d ds]; [congruence|]. inversion Hds as [|? ? Hd Hds']; subst.
  rewrite (ws_digit cs d _ Hd).
  cbn [pending consumed eofbit failbit badbit].
  rewrite (isdigit_not d "-" Hd eq_refl), (isdigit_not d "+" Hd eq_refl).
  pose proof (span_digits_app (d :: ds) [] Hds no_digit_ahead_nil) as Hspan.
  rewrite app_nil_r in Hspan. rewrite Hspan.
  pose proof (decimal_nonneg _ Hds) as Hnn.
  unfold INT_MIN, INT_MAX in *.
  destruct (Z.ltb_spec (decimal (d :: ds)) (- 2 ^ 31)); [lia|].
  destruct (Z.gtb_spec (decimal (d :: ds)) (2 ^ 31 - 1)); [lia|].
  reflexivity.
Qed.

Lemma extract_body_number_eof continue start cs ds _set :
  cpu_number MaxCpus ds ->
  extract_body MaxCpus continue start (good_stream cs ds) _set =
  let ins := eof_stream (rev ds ++ cs) in
  let cpu := decimal ds in
  let '(ins, _set, start) :=
    if -1 =? start then (ins, CPUSet.set _set cpu, start)
    else if start >? cpu then
      (ios.setstate false true false ins, _set, start)
    else (ins, CPUSet.set_from_to start cpu _set, -1) in
  continue start ins _set.
Proof.
  intros Hds. unfold extract_body.
  rewrite (read_int_number_eof cs ds Hds).
  rewrite (cpu_number_checks MaxCpus ds Hds).
  cbn [ios.fail ios.eof eof_stream eofbit failbit badbit orb is_char is_eof negb andb].
  destruct (-1 =? start); [reflexivity|].
  destruct (start >? decimal ds); reflexivity.
Qed.

Lemma extract_item_eof it cs _set f :
  valid_item MaxCpus it ->
  extract_loop MaxCpus (iterations it + S f) (-1)
    (good_stream cs (render_item it)) _set =
  Some (eof_stream (rev (render_item it) ++ cs), add_item _set it).
Proof.
  destruct it as [a|a b]; cbn [iterations render_item add_item plus].
  - intros Ha. cbn [extract_loop ios.good good_stream
                    eofbit failbit badbit negb andb].
    rewrite (extract_body_number_eof _ _ _ a _ Ha). reflexivity.
  - intros (Ha & Hb & Hle).
    cbn [extract_loop ios.good good_stream
         eofbit failbit badbit negb andb].
    rewrite (extract_body_number MaxCpus MaxCpus_range _ _ _ a "-"%char _ _ Ha eq_refl).
    cbv zeta. change (Ascii.eqb "-" "-") with true. cbv iota.
    change (negb (-1 =? -1)) with false. cbv iota.
    unfold good_stream at 1.
    cbn [ios.good eofbit failbit badbit negb andb].
    fold (good_stream ("-"%char :: rev a ++ cs) b).
    rewrite (extract_body_number_eof _ _ _ b _ Hb).
    cbv zeta.
    destruct (range_checks MaxCpus a b Ha Hle) as [-> ->].
    rewrite rev_app_distr. cbn [rev app]. rewrite <- !app_assoc. reflexivity.
Qed.

Lemma extract_loop_items_eof its :
  Forall (valid_item MaxCpus) its -> its <> [] ->
  forall fuel cs _set,
    (length (render its) < fuel)%nat ->
    extract_loop MaxCpus fuel (-1) (good_stream cs (render its)) _set =
    Some (eof_stream (rev (render its) ++ cs), fold_left add_item its _set).
Proof.
  induction its as [|it its IH]; intros Hv Hne fuel cs _set Hfuel; [congruence|].
  inversion Hv as [|? ? Hit Hits]; subst.
  pose proof (iterations_le_length MaxCpus it Hit) as Hlen.
  destruct its as [|it' its].
  - cbn [render render_tail flat_map] in *. rewrite app_nil_r in *.
    replace fuel with (iterations it + S (fuel - iterations it - 1))%nat by lia.
    rewrite (extract_item_eof it cs _set _ Hit). reflexivity.
  - rewrite render_cons in *. rewrite length_app in Hfuel. cbn [length] in Hfuel.
    replace fuel with (iterations it + (fuel - iterations it))%nat by lia.
    rewrite (extract_item_comma MaxCpus MaxCpus_range it cs _ _set _ Hit).
    rewrite IH; [|assumption|discriminate|lia].
    rewrite rev_app_distr. cbn [rev]. rewrite <- !app_assoc. reflexivity.
Qed.

Lemma extract_whole its t :
  Forall (valid_item MaxCpus) its ->
  extract MaxCpus (ios.of_chars (render its)) t =
  Some (eof_stream (rev (render its)), mask_of its).
Proof.
  intros Hv. destruct its as [|it its]; [reflexivity|].
  destruct (render_head MaxCpus (it :: its) Hv ltac:(discriminate))
    as (d & tl & Hr & Hd).
  unfold extract. rewrite Hr, (sentry_digit d tl Hd). rewrite <- Hr.
  cbn [pending good_stream].
  rewrite (extract_loop_items_eof (it :: its) Hv ltac:(discriminate)) by lia.
  rewrite app_nil_r. reflexivity.
Qed.

(** X8.  Read to the end of the input, [operator>>] agrees with [parse] on
    every list form, and it reads back what [operator<<] writes for a mask
    of the class; the stream is at its end and has not failed. *)
Theorem stream_round_trip :
  (forall its t,
      Forall (valid_item MaxCpus) its ->
      extract MaxCpus (ios.of_chars (render its)) t =
        Some (eof_stream (rev (render its)), mask_of its) /\
      CPUSet.parse MaxCpus (render its) = Ok (mask_of its)) /\
  (forall m t,
      CPUSet.valid MaxCpus m ->
      extract MaxCpus (ios.of_chars (CPUSet.to_string MaxCpus m)) t =
        Some (eof_stream (rev (CPUSet.to_string MaxCpus m)), m)) /\
  (forall cs, ios.fail (eof_stream cs) = false /\ ios.eof (eof_stream cs) = true).
Proof.
  split; [|split].
  - intros its t Hv. split; [apply extract_whole; assumption|].
    apply parse_render; assumption.
  - intros m t Hv.
    destruct (to_string_items MaxCpus MaxCpus_range m Hv) as (its & Hs & Hits & Hm).
    rewrite Hs, <- Hm. apply extract_whole. assumption.
  - intros cs. split; reflexivity.
Qed.

(** *** What the loop keeps *)

Lemma good_not_fail ins : ios.fail ins = true -> ios.good ins = false.
Proof.
  unfold ios.fail, ios.good. destruct (eofbit ins), (failbit ins), (badbit ins);
    cbn; congruence.
Qed.

Lemma unget_fail ins : ios.fail ins = true -> ios.good (ios.unget ins) = false.
Proof.
  unfold ios.fail, ios.unget, ios.sentry, ios.clear, ios.good, ios.setstate.
  destruct ins as [cs ps e f b]. cbn [eofbit failbit badbit consumed pending].
  destruct f, b; cbn; congruence.
Qed.

Lemma nonempty_of_bit m i :
  CPUSet.valid MaxCpus m -> Z.testbit m i = true -> CPUSet.empty MaxCpus m = false.
Proof.
  intros Hv Hb. destruct (CPUSet.empty MaxCpus m) eqn:He; [|reflexivity].
  apply (empty_iff_zero MaxCpus m Hv) in He. subst m.
  rewrite Z.bits_0 in Hb. discriminate.
Qed.

(** The step behind a number [cpu] and the character [c] (or the end). *)
Lemma extract_loop_keeps fuel : forall start ins _set ins' s',
  CPUSet.valid MaxCpus _set -> start_value MaxCpus start ->
  extract_loop MaxCpus fuel start ins _set = Some (ins', s') ->
  CPUSet.valid MaxCpus s' /\
  (ios.good ins' = true -> CPUSet.empty MaxCpus s' = false).
Proof.
  induction fuel as [|fuel IH]; intros start ins _set ins' s' Hv Hs; [discriminate|].
  cbn [extract_loop]. destruct (ios.good ins) eqn:Hgood.
  2:{ intros [= <- <-]. split; [assumption|congruence]. }
  unfold extract_body. destruct (ios.read_int ins) as [ins1 cpu].
  destruct (ios.fail ins1) eqn:Hf1.
  { intros [= <- <-]. split; [assumption|].
    rewrite (good_not_fail _ Hf1). discriminate. }
  destruct (Z.ltb_spec cpu 0); cbn [orb].
  { intros [= <- <-]. split; [assumption|].
    rewrite (good_not_fail _ (fail_setstate _ _ _)). discriminate. }
  destruct (Z.geb_spec cpu MaxCpus).
  { intros [= <- <-]. split; [assumption|].
    rewrite (good_not_fail _ (fail_setstate _ _ _)). discriminate. }
  assert (forall (ins2 : istream) (c : option ascii),
    (if is_char c "-" then
       if negb (-1 =? start) then
         extract_loop MaxCpus fuel start (ios.setstate false true false ins2) _set
       else extract_loop MaxCpus fuel cpu ins2 _set
     else
       let '(ins3, _set0, start0) :=
         if -1 =? start then (ins2, CPUSet.set _set cpu, start)
         else if start >? cpu then
           (ios.setstate false true false ins2, _set, start)
         else (ins2, CPUSet.set_from_to start cpu _set, -1) in
       if negb (is_char c ",") && negb (is_eof c) then
         Some (ios.unget ins3, _set0)
       else extract_loop MaxCpus fuel start0 ins3 _set0) = Some (ins', s') ->
    CPUSet.valid MaxCpus s' /\
    (ios.good ins' = true -> CPUSet.empty MaxCpus s' = false)) as Hafter.
  { intros ins2 c. destruct (is_char c "-").
    - destruct (negb (-1 =? start)); apply IH; try assumption.
      right. lia.
    - destruct (Z.eqb_spec (-1) start) as [Heq|Hne].
      + pose proof (valid_set MaxCpus MaxCpus_range _set cpu Hv ltac:(lia)) as Hv'.
        destruct (negb (is_char c ",") && negb (is_eof c)).
        * intros [= <- <-]. split; [assumption|]. intros _.
          apply (nonempty_of_bit _ cpu Hv').
          rewrite testbit_set by lia. rewrite Z.eqb_refl. apply orb_true_r.
        * apply IH; assumption.
      + destruct (Z.gtb_spec start cpu).
        * destruct (negb (is_char c ",") && negb (is_eof c)).
          -- intros [= <- <-]. split; [assumption|].
             rewrite (unget_fail _ (fail_setstate _ _ _)). discriminate.
          -- apply IH; assumption.
        * assert (0 <= start) as Hs0 by (destruct Hs; lia).
          pose proof (valid_set_from_to MaxCpus MaxCpus_range start cpu _set
                        Hv Hs0 ltac:(lia)) as Hv'.
          destruct (negb (is_char c ",") && negb (is_eof c)).
          -- intros [= <- <-]. split; [assumption|]. intros _.
             apply (nonempty_of_bit _ cpu Hv').
             destruct (set_from_to_spec start cpu _set Hs0 (proj1 Hv)) as [_ Hbits].
             rewrite Hbits.
             replace (start <=? cpu) with true by lia.
             replace (cpu <=? cpu) with true by lia. apply orb_true_r.
          -- apply IH; [assumption|left; reflexivity]. }
  destruct (ios.eof ins1); [apply Hafter|].
  destruct (ios.get ins1) as [ins2 c].
  destruct (ios.fail ins2) eqn:Hf2; [|apply Hafter].
  intros [= <- <-]. split; [assumption|].
  rewrite (good_not_fail _ Hf2). discriminate.
Qed.

Lemma extract_keeps ins t ins' t' :
  extract MaxCpus ins t = Some (ins', t') ->
  (ios.fail ins' = false -> CPUSet.valid MaxCpus t') /\
  (ios.good ins' = true -> CPUSet.empty MaxCpus t' = false).
Proof.
  unfold extract. destruct (ios.sentry false ins) as [ok ins0] eqn:Hsentry.
  destruct ok.
  - destruct (extract_loop MaxCpus _ _ ins0 _) as [[ins1 s1]|] eqn:Hloop; [|discriminate].
    apply extract_loop_keeps in Hloop as [Hv Hne];
      [|apply valid_zero; assumption|left; reflexivity].
    intros [= <- <-]. split.
    + intros Hf. rewrite Hf. exact Hv.
    + intros Hg. destruct (ios.fail ins1) eqn:Hf;
        [rewrite (good_not_fail _ Hf) in Hg; discriminate|].
      apply Hne. exact Hg.
  - intros Heq. unfold ios.sentry in Hsentry.
    destruct (ios.good ins) eqn:Hg; cbn [negb] in Hsentry.
    + destruct ins as [cs ps e f b]. unfold ios.good in Hg.
      cbn [eofbit failbit badbit consumed pending] in *.
      destruct e, f, b; try discriminate Hg.
      destruct (ios.ws cs ps) as [b a].
      destruct a; [|discriminate]. injection Hsentry as <-.
      cbn in Heq. injection Heq as <- <-.
      split; [intros _; apply valid_zero; assumption|discriminate].
    + injection Hsentry as <-.
      destruct ins as [cs ps e f b]. unfold ios.good in Hg.
      cbn [eofbit failbit badbit] in Hg.
      destruct e, f, b; cbn in Hg; try discriminate Hg;
        cbn in Heq; injection Heq as <- <-;
        (split; [intros Hf; try discriminate Hf; apply valid_zero; assumption
                |intros Hgood; discriminate Hgood]).
Qed.

(** X9.  Whatever the input, [operator>>] comes to an end, and when the
    stream has not failed the mask it stores has no CPU at or above
    [MaxCpus]. *)
Theorem stream_result_valid (ins : istream) (t : CPUSet) :
  exists ins' t',
    extract MaxCpus ins t = Some (ins', t') /\
    (ios.fail ins' = false ->
     CPUSet.valid MaxCpus t' /\
     forall i, CPUSet.is_set t' i = true -> 0 <= i < MaxCpus).
Proof.
  destruct (extract_total MaxCpus ins t) as [[ins' t'] H].
  exists ins', t'. split; [exact H|]. intros Hf.
  destruct (extract_keeps ins t ins' t' H) as [Hv _]. specialize (Hv Hf).
  split; [exact Hv|]. intros i Hi. apply (valid_bits MaxCpus t' i Hv Hi).
Qed.

(** X10.  A stream that is still good after [operator>>] has delivered a
    mask that is not empty: the empty mask comes with the end of the input
    or with a failure only. *)
Theorem stream_good_not_empty (ins : istream) (t : CPUSet) :
  exists ins' t',
    extract MaxCpus ins t = Some (ins', t') /\
    (ios.good ins' = true -> CPUSet.empty MaxCpus t' = false) /\
    (CPUSet.empty MaxCpus t' = true -> ios.fail ins' = false -> ios.eof ins' = true).
Proof.
  destruct (extract_total MaxCpus ins t) as [[ins' t'] H].
  exists ins', t'. split; [exact H|].
  destruct (extract_keeps ins t ins' t' H) as [_ Hg]. split; [exact Hg|].
  intros He Hf. destruct (ios.eof ins') eqn:Heof; [reflexivity|].
  assert (ios.good ins' = true) as Hgood.
  { unfold ios.good, ios.fail, ios.eof in *.
    destruct (eofbit ins'), (failbit ins'), (badbit ins'); cbn in *; congruence. }
  rewrite (Hg Hgood) in He. discriminate.
Qed.

End StreamToTheEnd.

(** ** The cgroup code *)

Lemma chomp_chars_spec l :
  exists rest,
    l = chomp_chars l ++ rest /\ ~ In newline (chomp_chars l) /\
    (rest = [] \/ cur rest = newline).
Proof.
  induction l as [|c l (rest & Hl & Hn & Hr)].
  - exists []. split; [reflexivity|]. split; [intros []|left; reflexivity].
  - cbn [chomp_chars]. destruct (Ascii.eqb_spec c newline) as [->|Hne].
    + exists (newline :: l). split; [reflexivity|]. split; [intros []|right; reflexivity].
    + exists rest. split; [cbn [app]; congruence|].
      split; [|exact Hr]. intros [H|H]; [congruence|contradiction].
Qed.

Lemma chomp_chars_fixed l : ~ In newline l -> chomp_chars l = l.
Proof.
  induction l as [|c l IH]; intros H; [reflexivity|]. cbn [chomp_chars].
  destruct (Ascii.eqb_spec c newline) as [->|Hne]; [exfalso; apply H; left; reflexivity|].
  rewrite IH; [reflexivity|]. intros Hin. apply H. right. exact Hin.
Qed.

(** X11.  [chomp] keeps what stands in front of the first newline, and the
    whole string when there is none; applying it twice changes nothing
    more. *)
Theorem chomp_spec (s : string) :
  (exists rest,
     CPUSet.str s = CPUSet.str (chomp s) ++ rest /\
     ~ In newline (CPUSet.str (chomp s)) /\
     (rest = [] \/ cur rest = newline)) /\
  (~ In newline (CPUSet.str s) -> chomp s = s) /\
  chomp (chomp s) = chomp s.
Proof.
  unfold chomp. rewrite !str_msg.
  destruct (chomp_chars_spec (CPUSet.str s)) as (rest & Hs & Hn & Hr).
  split; [exists rest; auto|]. split.
  - intros H. rewrite (chomp_chars_fixed _ H). apply msg_str.
  - rewrite (chomp_chars_fixed _ Hn). reflexivity.
Qed.


(** *** Code that comes to an end *)

Lemma settles_ret {A} (a : A) : settles (ret a).
Proof. intros w. exact I. Qed.

Lemma settles_throw {A} c msg : settles (@throw A c msg).
Proof. intros w. exact I. Qed.





Lemma settles_cerr line : settles (cerr line).
Proof. intros w. exact I. Qed.



Lemma settles_try_catch {A} (body : M A) handler h :
  settles body -> (forall e, settles (h e)) -> settles (try_catch body handler h).
Proof.
  intros Hb Hh w. unfold try_catch. specialize (Hb w).
  destruct (body w) as [[a|e| |] w']; cbn [fst] in *; try contradiction; [exact I|].
  destruct (catches handler (exn_cls e)); [apply Hh|exact I].
Qed.

Section Destructor.

Variable MaxCpus : Z.




End Destructor.

(** *** [enableCpusetController] *)

Lemma enable_present path w content :
  files w !! (path +:+ "/cgroup.subtree_control") = Some content ->
  (path +:+ "/cgroup.subtree_control") ∉ refused w ->
  enableCpusetController path w =
  if contains "cpuset" (first_token content) then (Ok tt, w)
  else sysfs_write (path +:+ "/cgroup.subtree_control") "+cpuset" w.
Proof.
  intros Hf Hr. unfold enableCpusetController, bind, sysfs_read. rewrite Hf.
  destruct (decide (path +:+ "/cgroup.subtree_control" ∈ refused w)); [contradiction|].
  destruct (contains "cpuset" (first_token content)); reflexivity.
Qed.

Lemma enable_twice path w :
  (do_ enableCpusetController path ; enableCpusetController path) w =
  enableCpusetController path w.
Proof.
  unfold bind at 1.
  destruct (files w !! (path +:+ "/cgroup.subtree_control")) as [content|] eqn:Hf.
  2:{ unfold enableCpusetController, bind, sysfs_read. rewrite Hf. reflexivity. }
  destruct (decide (path +:+ "/cgroup.subtree_control" ∈ refused w)) as [Hr|Hr].
  { unfold enableCpusetController, bind, sysfs_read. rewrite Hf.
    destruct (decide (path +:+ "/cgroup.subtree_control" ∈ refused w)); [reflexivity|].
    contradiction. }
  rewrite (enable_present path w content Hf Hr).
  destruct (contains "cpuset" (first_token content)) eqn:Hc.
  - rewrite (enable_present path w content Hf Hr), Hc. reflexivity.
  - rewrite (sysfs_write_Ok w _ "+cpuset" Hr) by discriminate.
    rewrite (enable_present path _ "+cpuset"); [reflexivity| |exact Hr].
    cbn [files with_written with_files]. apply lookup_insert_eq.
Qed.

(** The first word of a text: what [is >> std::string] takes. *)
Lemma take_token_word word rest :
  Forall (fun c => isspace c = false) word ->
  isspace (cur rest) = true \/ rest = [] ->
  take_token (word ++ rest) = word.
Proof.
  intros Hw Hrest. induction Hw as [|c word Hc _ IH]; cbn [app].
  - destruct Hrest as [Hr| ->]; [|reflexivity].
    destruct rest as [|c rest]; [reflexivity|]. cbn [cur] in Hr. cbn [take_token].
    rewrite Hr. reflexivity.
  - cbn [take_token]. rewrite Hc, IH. reflexivity.
Qed.

Lemma first_token_word sp word rest :
  all_space sp -> word <> [] -> Forall (fun c => isspace c = false) word ->
  isspace (cur rest) = true \/ rest = [] ->
  first_token (CPUSet.msg (sp ++ word ++ rest)) = CPUSet.msg word.
Proof.
  intros Hsp Hne Hw Hrest. unfold first_token. rewrite str_msg.
  rewrite skip_space_word; [|exact Hsp|].
  - rewrite (take_token_word word rest Hw Hrest). reflexivity.
  - destruct word as [|c word]; [congruence|]. inversion Hw; subst. assumption.
Qed.

(** X13.  [enableCpusetController] decides on the first word of
    cgroup.subtree_control alone.  With the file holding white space [sp],
    a word [word] and, behind more white space, anything else [rest], it
    writes +cpuset unless [word] contains cpuset, whatever [rest] lists;
    and a second call changes nothing more. *)
Theorem enableCpusetController_spec (path : string) (w : World)
    (sp word rest : list ascii) :
  let control := path +:+ "/cgroup.subtree_control" in
  files w !! control = Some (CPUSet.msg (sp ++ word ++ rest)) ->
  control ∉ refused w ->
  all_space sp -> word <> [] -> Forall (fun c => isspace c = false) word ->
  isspace (cur rest) = true \/ rest = [] ->
  enableCpusetController path w =
    (if contains "cpuset" (CPUSet.msg word) then (Ok tt, w)
     else (Ok tt,
           with_written ((control, "+cpuset") :: written w)
             (with_files (<[control := "+cpuset"]> (files w)) w))) /\
  (do_ enableCpusetController path ; enableCpusetController path) w =
    enableCpusetController path w.
Proof.
  intros control Hf Hr Hsp Hne Hw Hrest. split; [|apply enable_twice].
  rewrite (enable_present path w _ Hf Hr).
  rewrite (first_token_word sp word rest Hsp Hne Hw Hrest).
  destruct (contains "cpuset" (CPUSet.msg word)); [reflexivity|].
  apply sysfs_write_Ok; [exact Hr|discriminate].
Qed.

(** *** The constructor of a group, when all goes well *)

Lemma lookup_with_interface path (f : gmap string string) :
  fold_right (fun kv f => <[kv.1 := kv.2]> f) f (interface_files path)
    !! cpuset_cpus_exclusive = f !! cpuset_cpus_exclusive.
Proof.
  assert (forall l : list (string * string),
             (forall kv, In kv l -> kv.1 <> cpuset_cpus_exclusive) ->
             fold_right (fun kv f => <[kv.1 := kv.2]> f) f l
               !! cpuset_cpus_exclusive = f !! cpuset_cpus_exclusive) as H.
  { induction l as [|kv l IH]; intros Hl; [reflexivity|]. cbn [fold_right].
    rewrite lookup_insert_ne by (apply Hl; left; reflexivity).
    apply IH. intros kv' Hin. apply Hl. right. exact Hin. }
  apply H. intros kv. apply interface_not_ledger.
Qed.

Lemma append_neq_r (p a b : string) : a <> b -> p +:+ a <> p +:+ b.
Proof. intros H Heq. apply H. apply (append_inj_r p). exact Heq. Qed.

Lemma try_catch_all_Ok {A} (body : M A) h w a w' :
  body w = (Ok a, w') -> try_catch_all body h w = (Ok a, w').
Proof. intros H. unfold try_catch_all. rewrite H. reflexivity. Qed.

Section Constructor.

Variable MaxCpus : Z.
Hypothesis MaxCpus_range : CPU_SETSIZE <= MaxCpus <= INT_MAX.

#[local] Abbreviation ledger := cpuset_cpus_exclusive.
#[local] Abbreviation valid := (CPUSet.valid MaxCpus).

Lemma holds_mask_valid w path m : holds_mask MaxCpus w path m -> valid m.
Proof.
  intros (_ & content & _ & Hp). apply (parse_valid MaxCpus MaxCpus_range _ _ Hp).
Qed.

Lemma valid_ldiff a b : valid a -> valid (Z.ldiff a b).
Proof.
  intros Ha. apply (valid_of_bits MaxCpus MaxCpus_range).
  - apply Z.ldiff_nonneg. left. apply Ha.
  - intros i Hi. rewrite Z.ldiff_spec, (valid_high_bits MaxCpus a i Ha Hi).
    reflexivity.
Qed.

Lemma or_not_zero l set : set <> CPUSet.zero -> CPUSet.or l set <> CPUSet.zero.
Proof.
  intros Hs H. apply Hs. unfold CPUSet.or, CPUSet.zero in *.
  apply Z.lor_eq_0_iff in H. tauto.
Qed.

(** What the ledger holds after a set has been reserved and released. *)
Lemma reserve_release_difference l set :
  CPUSet.and (CPUSet.xor (CPUSet.or l set) set) (CPUSet.or l set) = Z.ldiff l set.
Proof.
  rewrite release_identity. apply Z.bits_inj'. intros i _.
  unfold CPUSet.or. rewrite !Z.ldiff_spec, Z.lor_spec.
  destruct (Z.testbit l i), (Z.testbit set i); reflexivity.
Qed.

(** The write of a mask to a file that can be used: the file holds the
    mask afterwards, unless the mask is empty; then nothing is written and
    the file holds what it held. *)
Lemma write_mask w path m l :
  valid m -> holds_mask MaxCpus w path l ->
  sysfs_write path (text_of MaxCpus m) w =
    (Ok tt,
     if CPUSet.eq m CPUSet.zero then w
     else with_written ((path, text_of MaxCpus m) :: written w)
            (with_files (<[path := text_of MaxCpus m]> (files w)) w)) /\
  holds_mask MaxCpus (sysfs_write path (text_of MaxCpus m) w).2 path
    (if CPUSet.eq m CPUSet.zero then l else m).
Proof.
  intros Hv Hl. pose proof (proj1 Hl) as Hr.
  unfold CPUSet.eq. destruct (Z.eqb_spec m CPUSet.zero) as [->|Hm].
  - rewrite (text_of_zero MaxCpus), (sysfs_write_nothing w path Hr).
    split; [reflexivity|exact Hl].
  - rewrite (sysfs_write_Ok w path _ Hr
               (text_of_nonempty MaxCpus MaxCpus_range m Hv Hm)).
    split; [reflexivity|].
    apply (holds_mask_after_write MaxCpus MaxCpus_range); assumption.
Qed.

(** The world the constructor leaves for the set [set] and the ledger [l]. *)
Lemma CPUCGroup_new_spec w set l e :
  valid set -> set <> CPUSet.zero ->
  holds_mask MaxCpus w ledger l -> holds_mask MaxCpus w effective_path e ->
  CPUSet.neq (CPUSet.and set e) set = false ->
  let g := group_path MaxCpus set in
  g ∉ dirs w -> g ∉ refused w ->
  (g +:+ "/cpuset.cpus") ∉ refused w ->
  (g +:+ "/cpuset.cpus.partition") ∉ refused w ->
  chomp (first_token (partition_reply w "root")) = "root" ->
  exists w',
    CPUCGroup_new MaxCpus set w = (Ok (CGroup set g), w') /\
    dirs w' = {[g]} ∪ dirs w /\ refused w' = refused w /\
    files w' !! ledger = Some (text_of MaxCpus (CPUSet.or l set)) /\
    files w' !! (g +:+ "/cpuset.cpus") = Some (text_of MaxCpus set) /\
    files w' !! (g +:+ "/cpuset.cpus.partition") = Some (partition_reply w "root") /\
    written w' =
      (g +:+ "/cpuset.cpus.partition", "root") ::
      (g +:+ "/cpuset.cpus", text_of MaxCpus set) ::
      (ledger, text_of MaxCpus (CPUSet.or l set)) :: written w /\
    stderr w' = stderr w /\ cgroup_events w' = cgroup_events w /\
    clone3_result w' = clone3_result w /\ waitpid_result w' = waitpid_result w /\
    partition_reply w' = partition_reply w /\ heap w' = heap w /\
    cpufreq_entries w' = cpufreq_entries w /\
    strerror_errno w' = strerror_errno w.
Proof.
  intros Hv Hne Hl He Hsub g Hdir Href Hcpus Hpart Hreply.
  unfold CPUCGroup_new. fold (group_path MaxCpus set). fold g.
  pose proof (holds_mask_valid _ _ _ Hl) as Hvl.
  pose proof (valid_lor MaxCpus MaxCpus_range l set Hvl Hv) as Hvu.
  pose proof (reserve_spec MaxCpus w set l e Hl He) as Hres. rewrite Hsub in Hres.
  rewrite (sysfs_write_Ok w ledger _ (proj1 Hl)
             (text_of_nonempty MaxCpus MaxCpus_range _ Hvu (or_not_zero l set Hne)))
    in Hres.
  rewrite (bind_Ok _ _ _ _ _ Hres). cbv zeta.
  match type of Hres with _ = (_, ?x) => set (w1 := x) end.
  assert (mkdir g w1 =
            (Ok mkdir_ok,
             with_dirs ({[g]} ∪ dirs w1)
               (with_files
                  (fold_right (fun kv f => <[kv.1 := kv.2]> f) (files w1)
                     (interface_files g)) w1))) as Hmk.
  { unfold mkdir. cbn [refused dirs w1 with_written with_files].
    destruct (decide (g ∈ refused w)); [contradiction|].
    destruct (decide (g ∈ dirs w)); [contradiction|reflexivity]. }
  rewrite (bind_Ok _ _ _ _ _ Hmk). cbn [mPath].
  match type of Hmk with _ = (_, ?x) => set (w2 := x) end.
  assert ((g +:+ "/cpuset.cpus") ∉ refused w2) as Hcpus2 by exact Hcpus.
  pose proof (sysfs_write_Ok w2 _ (text_of MaxCpus set) Hcpus2
                (text_of_nonempty MaxCpus MaxCpus_range set Hv Hne)) as Hwrite.
  match type of Hwrite with _ = (_, ?x) => set (w3 := x) in Hwrite end.
  assert (g +:+ "/cpuset.cpus.partition" <> g +:+ "/cpuset.cpus") as Hneq.
  { apply append_neq_r. discriminate. }
  assert (files w3 !! (g +:+ "/cpuset.cpus.partition") = Some "member") as Hmember.
  { unfold w3. cbn [files with_written with_files].
    rewrite lookup_insert_ne by (intros H; apply Hneq; symmetry; exact H).
    unfold w2. cbn [files with_dirs with_files interface_files fold_right fst snd].
    rewrite lookup_insert_ne by (apply append_neq_r; discriminate).
    apply lookup_insert_eq. }
  assert (set_partition_type (CGroup set g) "root" w3 =
            (Ok tt,
             with_written ((g +:+ "/cpuset.cpus.partition", "root") :: written w3)
               (with_files (<[g +:+ "/cpuset.cpus.partition" := partition_reply w "root"]>
                              (files w3)) w3))) as Hset.
  { unfold set_partition_type, bind. cbn [mPath]. rewrite Hmember.
    destruct (decide (g +:+ "/cpuset.cpus.partition" ∈ refused w3)) as [Hin|_];
      [exfalso; apply Hpart; exact Hin|].
    change (partition_reply w3) with (partition_reply w). rewrite Hreply.
    reflexivity. }
  rewrite (bind_Ok _ _ _ _ _
             (try_catch_all_Ok _ _ _ _ _ (eq_trans (bind_Ok _ _ _ _ _ Hwrite) Hset))).
  unfold ret.
  eexists. split; [reflexivity|].
  cbn [dirs refused files written stderr cgroup_events clone3_result waitpid_result
       partition_reply heap cpufreq_entries strerror_errno
       with_written with_files with_dirs w3 w2 w1].
  split; [reflexivity|]. split; [reflexivity|].
  split.
  { rewrite lookup_insert_ne
      by (apply (interface_not_ledger g (_, "member")); right; left; reflexivity).
    rewrite lookup_insert_ne
      by (apply (interface_not_ledger g (_, EmptyString)); left; reflexivity).
    rewrite lookup_with_interface. apply lookup_insert_eq. }
  split.
  { rewrite lookup_insert_ne by exact Hneq. apply lookup_insert_eq. }
  split; [apply lookup_insert_eq|].
  repeat (split; [reflexivity|]). reflexivity.
Qed.

(** A file holds the mask whose text it contains. *)
Lemma holds_mask_text w path m :
  valid m -> path ∉ refused w ->
  files w !! path = Some (text_of MaxCpus m) -> holds_mask MaxCpus w path m.
Proof.
  intros Hv Hr Hf. split; [exact Hr|]. exists (text_of MaxCpus m).
  split; [exact Hf|].
  rewrite (first_token_text MaxCpus MaxCpus_range _ Hv).
  unfold text_of. rewrite str_msg.
  apply (parse_of_to_string MaxCpus MaxCpus_range). exact Hv.
Qed.

(** The destructor of a group whose directory can be removed: the ledger
    afterwards.  The difference is written when it is not empty; when it
    is, nothing is written and the ledger holds what it held. *)
Lemma CPUCGroup_delete_ledger w g l :
  mPath g ∈ dirs w -> mPath g ∉ refused w -> holds_mask MaxCpus w ledger l ->
  let d := CPUSet.and (CPUSet.xor l (mCPUSet g)) l in
  exists w',
    CPUCGroup_delete MaxCpus g w = (Ok tt, w') /\
    dirs w' = dirs w ∖ {[mPath g]} /\ refused w' = refused w /\
    stderr w' = stderr w /\
    written w' =
      (if CPUSet.eq d CPUSet.zero then [] else [(ledger, text_of MaxCpus d)]) ++
      written w /\
    files w' !! ledger =
      (if CPUSet.eq d CPUSet.zero then files w !! ledger
       else Some (text_of MaxCpus d)) /\
    holds_mask MaxCpus w' ledger (if CPUSet.eq d CPUSet.zero then l else d).
Proof.
  intros Hdir Hnot Hl d.
  pose proof (holds_mask_valid _ _ _ Hl) as Hvl.
  assert (valid d) as Hvd.
  { unfold d. rewrite release_identity. apply valid_ldiff. exact Hvl. }
  rewrite (CPUCGroup_delete_spec MaxCpus w g l Hdir Hnot Hl). fold d.
  rewrite (text_of_eqb MaxCpus MaxCpus_range d Hvd).
  eexists. split; [reflexivity|].
  destruct (CPUSet.eq d CPUSet.zero);
    cbn [dirs refused stderr written files with_dirs with_files with_written app].
  - repeat (split; [reflexivity|]).
    split; [apply lookup_without_interface|].
    destruct Hl as (Hr & content & Hf & Hp). split; [exact Hr|].
    exists content. split; [|exact Hp].
    cbn [files with_dirs with_files]. rewrite lookup_without_interface. exact Hf.
  - repeat (split; [reflexivity|]).
    split; [apply lookup_insert_eq|].
    apply holds_mask_text; [exact Hvd|apply Hl|].
    cbn [files with_written with_files]. apply lookup_insert_eq.
Qed.

Lemma difference_of_fresh (g : string) (d : gset string) :
  g ∉ d -> ({[g]} ∪ d) ∖ {[g]} = d.
Proof.
  intros Hg. apply set_eq. intros x.
  rewrite elem_of_difference, elem_of_union, elem_of_singleton.
  split; [intros [[->|H] Hne]; [contradiction|exact H]|].
  intros H. split; [right; exact H|]. intros ->. contradiction.
Qed.

Lemma subset_neq set e :
  (forall i, CPUSet.is_set set i = true -> CPUSet.is_set e i = true) ->
  CPUSet.neq (CPUSet.and set e) set = false.
Proof.
  intros Hsub. unfold CPUSet.neq, CPUSet.eq. apply negb_false_iff, Z.eqb_eq.
  apply and_eq_subset. exact Hsub.
Qed.

(** C5.  With the ledger holding [l] and the effective mask being [e],
    reserving [set] throws exactly when [set] is not a subset of [e], and
    then leaves the world as it is; otherwise the ledger holds the union of
    [l] and [set] afterwards, whatever [l] and [set] have in common: the
    list form of the union has been written to it and reads back as the
    union (only the union of two empty sets, whose text is empty, leaves
    nothing to write). *)
Theorem reserve_correct (w : World) (set l e : CPUSet) :
  valid set ->
  holds_mask MaxCpus w ledger l ->
  holds_mask MaxCpus w effective_path e ->
  (is_throw (reserve MaxCpus set w).1 = true <->
   ~ (forall i, CPUSet.is_set set i = true -> CPUSet.is_set e i = true)) /\
  (is_throw (reserve MaxCpus set w).1 = true ->
   throws runtime_error (reserve MaxCpus set w).1 /\
   (reserve MaxCpus set w).2 = w) /\
  (is_throw (reserve MaxCpus set w).1 = false ->
   (reserve MaxCpus set w).1 = Ok tt /\
   holds_mask MaxCpus (reserve MaxCpus set w).2 ledger (CPUSet.or l set) /\
   (CPUSet.or l set <> CPUSet.zero ->
    files (reserve MaxCpus set w).2 =
      <[ledger := text_of MaxCpus (CPUSet.or l set)]> (files w) /\
    written (reserve MaxCpus set w).2 =
      (ledger, text_of MaxCpus (CPUSet.or l set)) :: written w /\
    CPUSet.parse MaxCpus (CPUSet.str (text_of MaxCpus (CPUSet.or l set))) =
      Ok (CPUSet.or l set)) /\
   (CPUSet.or l set = CPUSet.zero -> (reserve MaxCpus set w).2 = w) /\
   (forall i, CPUSet.is_set (CPUSet.or l set) i =
              CPUSet.is_set l i || CPUSet.is_set set i)).
Proof.
  intros Hv Hl He. rewrite (reserve_spec MaxCpus w set l e Hl He).
  rewrite <- and_eq_subset. unfold CPUSet.neq, CPUSet.eq.
  pose proof (holds_mask_valid _ _ _ Hl) as Hvl.
  pose proof (valid_lor MaxCpus MaxCpus_range l set Hvl Hv) as Hvu.
  destruct (Z.eqb_spec (CPUSet.and set e) set) as [Heq|Hne]; cbn [negb].
  - destruct (write_mask w ledger (CPUSet.or l set) l Hvu Hl) as (Hw & Hh).
    rewrite Hw in *. cbn [fst snd is_throw] in *.
    split; [split; [discriminate|intros H; contradiction]|].
    split; [discriminate|]. intros _.
    split; [reflexivity|].
    unfold CPUSet.eq in *.
    destruct (Z.eqb_spec (CPUSet.or l set) CPUSet.zero) as [Hz|Hnz].
    + pose proof (proj1 (Z.lor_eq_0_iff _ _) Hz) as [Hl0 _].
      split; [replace (CPUSet.or l set) with l by (rewrite Hz; exact Hl0); exact Hh|].
      split; [intros H; contradiction|].
      split; [reflexivity|]. intros i. apply or_spec.
    + split; [exact Hh|]. split.
      * intros _. split; [reflexivity|]. split; [reflexivity|].
        unfold text_of. rewrite str_msg.
        apply (parse_of_to_string MaxCpus MaxCpus_range). exact Hvu.
      * split; [intros H; contradiction|]. intros i. apply or_spec.
  - cbn [fst snd is_throw].
    split; [split; [intros _; assumption|reflexivity]|].
    split; [|discriminate]. intros _. split; [|reflexivity].
    eexists. reflexivity.
Qed.

(** C6, as the code has it.  [(l ^ m) & l] is the set difference of [l]
    and [m].  The destructor of a group writes the list form of this value
    to the ledger, which then holds it, when the value is not empty; when
    it is empty (the CPUs of the group are all that the ledger holds)
    nothing is written and the ledger holds what it held.  With the ledger
    0-7, releasing 2-3 leaves 0-1,4-7. *)
Theorem release_correct :
  (forall l m : CPUSet,
      CPUSet.and (CPUSet.xor l m) l = Z.ldiff l m /\
      forall i, CPUSet.is_set (CPUSet.and (CPUSet.xor l m) l) i =
                CPUSet.is_set l i && negb (CPUSet.is_set m i)) /\
  (forall w g l,
      mPath g ∈ dirs w -> mPath g ∉ refused w ->
      holds_mask MaxCpus w ledger l ->
      let d := CPUSet.and (CPUSet.xor l (mCPUSet g)) l in
      exists w',
        CPUCGroup_delete MaxCpus g w = (Ok tt, w') /\
        (d <> CPUSet.zero ->
         files w' !! ledger = Some (text_of MaxCpus d) /\
         written w' = (ledger, text_of MaxCpus d) :: written w /\
         holds_mask MaxCpus w' ledger d) /\
        (d = CPUSet.zero ->
         files w' !! ledger = files w !! ledger /\
         written w' = written w /\
         holds_mask MaxCpus w' ledger l)) /\
  (let g := CGroup 12 (RUNEXCL_SLICE +:+ "/runexcl.2-3") in
   let w := with_dirs {[RUNEXCL_SLICE; mPath g]} (example_world "0-7" [] accepted) in
   CPUSet.parse 1024 (CPUSet.str "2-3") = Ok (mCPUSet g) /\
   files (CPUCGroup_delete 1024 g w).2 !! cpuset_cpus_exclusive = Some "0-1,4-7").
Proof.
  split; [|split].
  - intros l m. split; [apply release_identity|intros i; apply release_bits].
  - intros w g l Hd Hr Hl d.
    destruct (CPUCGroup_delete_ledger w g l Hd Hr Hl)
      as (w' & H1 & _ & _ & _ & Hw & Hf & Hh).
    fold d in Hw, Hf, Hh. exists w'. split; [exact H1|].
    unfold CPUSet.eq in *.
    destruct (Z.eqb_spec d CPUSet.zero) as [Hz|Hnz].
    + split; [intros H; contradiction|]. intros _. auto.
    + split; [|intros H; contradiction]. intros _. auto.
  - split; vm_compute; reflexivity.
Qed.

(** X14.  With a usable ledger holding [l], a set that is not empty and
    lies within the effective CPUs, a group directory that does not exist
    yet and a kernel that takes the partition type, the constructor returns
    the group for the set: the directory exists, the ledger holds
    [l | set] and cpuset.cpus of the group holds the set (each file
    contains the list form, which reads back as the mask), and the three
    writes took place in this order: ledger, cpuset.cpus, partition type. *)
Theorem constructor_success (w : World) (set l e : CPUSet) :
  valid set -> set <> CPUSet.zero ->
  holds_mask MaxCpus w ledger l -> holds_mask MaxCpus w effective_path e ->
  (forall i, CPUSet.is_set set i = true -> CPUSet.is_set e i = true) ->
  let g := group_path MaxCpus set in
  g ∉ dirs w -> g ∉ refused w ->
  (g +:+ "/cpuset.cpus") ∉ refused w ->
  (g +:+ "/cpuset.cpus.partition") ∉ refused w ->
  chomp (first_token (partition_reply w "root")) = "root" ->
  exists w',
    CPUCGroup_new MaxCpus set w = (Ok (CGroup set g), w') /\
    dirs w' = {[g]} ∪ dirs w /\
    holds_mask MaxCpus w' ledger (CPUSet.or l set) /\
    holds_mask MaxCpus w' (g +:+ "/cpuset.cpus") set /\
    files w' !! ledger = Some (text_of MaxCpus (CPUSet.or l set)) /\
    files w' !! (g +:+ "/cpuset.cpus") = Some (text_of MaxCpus set) /\
    text_of MaxCpus set <> EmptyString /\
    rev (written w') =
      rev (written w) ++
      [(ledger, text_of MaxCpus (CPUSet.or l set));
       (g +:+ "/cpuset.cpus", text_of MaxCpus set);
       (g +:+ "/cpuset.cpus.partition", "root")].
Proof.
  intros Hv Hne Hl He Hsub g Hdir Href Hcpus Hpart Hreply.
  destruct (CPUCGroup_new_spec w set l e Hv Hne Hl He (subset_neq set e Hsub)
              Hdir Href Hcpus Hpart Hreply)
    as (w' & Hnew & Hd & Hr & Hled & Hc & _ & Hw & _).
  pose proof (holds_mask_valid _ _ _ Hl) as Hvl.
  pose proof (valid_lor MaxCpus MaxCpus_range l set Hvl Hv) as Hvu.
  exists w'. split; [exact Hnew|]. split; [exact Hd|].
  split; [apply holds_mask_text; [exact Hvu|rewrite Hr; apply Hl|exact Hled]|].
  split; [apply holds_mask_text; [exact Hv|rewrite Hr; exact Hcpus|exact Hc]|].
  split; [exact Hled|]. split; [exact Hc|].
  split; [apply (text_of_nonempty MaxCpus MaxCpus_range); assumption|].
  rewrite Hw. cbn [rev]. rewrite <- !app_assoc. reflexivity.
Qed.

(** X15.  A group that is constructed and destroyed again leaves no
    directory behind.  The ledger then holds [l] without the CPUs of the
    set, which is [l] itself when the set and [l] had no CPU in common,
    provided that this difference is not empty; when it is empty (no other
    reservation is left) the destructor has nothing to write and the
    ledger still holds [l | set]. *)
Theorem construct_then_destroy (w : World) (set l e : CPUSet) :
  valid set -> set <> CPUSet.zero ->
  holds_mask MaxCpus w ledger l -> holds_mask MaxCpus w effective_path e ->
  (forall i, CPUSet.is_set set i = true -> CPUSet.is_set e i = true) ->
  let g := group_path MaxCpus set in
  g ∉ dirs w -> g ∉ refused w ->
  (g +:+ "/cpuset.cpus") ∉ refused w ->
  (g +:+ "/cpuset.cpus.partition") ∉ refused w ->
  chomp (first_token (partition_reply w "root")) = "root" ->
  exists w',
    (do group <- CPUCGroup_new MaxCpus set ; CPUCGroup_delete MaxCpus group) w =
      (Ok tt, w') /\
    dirs w' = dirs w /\
    (Z.ldiff l set <> CPUSet.zero ->
     files w' !! ledger = Some (text_of MaxCpus (Z.ldiff l set)) /\
     holds_mask MaxCpus w' ledger (Z.ldiff l set)) /\
    (Z.ldiff l set = CPUSet.zero ->
     files w' !! ledger = Some (text_of MaxCpus (CPUSet.or l set)) /\
     holds_mask MaxCpus w' ledger (CPUSet.or l set)) /\
    (CPUSet.and l set = CPUSet.zero -> Z.ldiff l set = l).
Proof.
  intros Hv Hne Hl He Hsub g Hdir Href Hcpus Hpart Hreply.
  destruct (CPUCGroup_new_spec w set l e Hv Hne Hl He (subset_neq set e Hsub)
              Hdir Href Hcpus Hpart Hreply)
    as (w1 & Hnew & Hd & Hr & Hled & _).
  rewrite (bind_Ok _ _ _ _ _ Hnew).
  pose proof (holds_mask_valid _ _ _ Hl) as Hvl.
  pose proof (valid_lor MaxCpus MaxCpus_range l set Hvl Hv) as Hvu.
  assert (holds_mask MaxCpus w1 ledger (CPUSet.or l set)) as Hl1.
  { apply holds_mask_text; [exact Hvu|rewrite Hr; apply Hl|exact Hled]. }
  assert (g ∈ dirs w1) as Hg1.
  { rewrite Hd. apply elem_of_union_l, elem_of_singleton. reflexivity. }
  assert (g ∉ refused w1) as Hg2 by (rewrite Hr; exact Href).
  destruct (CPUCGroup_delete_ledger w1 (CGroup set g) (CPUSet.or l set) Hg1 Hg2 Hl1)
    as (w2 & Hdel & Hd2 & _ & _ & _ & Hf2 & Hh2).
  cbn [mCPUSet mPath] in Hdel, Hd2, Hf2, Hh2.
  rewrite reserve_release_difference in Hf2, Hh2.
  cbv beta. fold g. rewrite Hdel.
  exists w2. split; [reflexivity|].
  split; [rewrite Hd2, Hd; apply difference_of_fresh; exact Hdir|].
  unfold CPUSet.eq in *.
  destruct (Z.eqb_spec (Z.ldiff l set) CPUSet.zero) as [Hz|Hnz].
  - split; [intros H; contradiction|].
    split; [intros _; split; [rewrite Hf2; exact Hled|exact Hh2]|].
    intros Hzero. apply Z.bits_inj'. intros i _. rewrite Z.ldiff_spec.
    apply (f_equal (fun x => Z.testbit x i)) in Hzero.
    unfold CPUSet.and, CPUSet.zero in Hzero. rewrite Z.land_spec, Z.bits_0 in Hzero.
    destruct (Z.testbit l i), (Z.testbit set i); cbn in *; congruence.
  - split; [intros _; split; [exact Hf2|exact Hh2]|].
    split; [intros H; contradiction|].
    intros Hzero. apply Z.bits_inj'. intros i _. rewrite Z.ldiff_spec.
    apply (f_equal (fun x => Z.testbit x i)) in Hzero.
    unfold CPUSet.and, CPUSet.zero in Hzero. rewrite Z.land_spec, Z.bits_0 in Hzero.
    destruct (Z.testbit l i), (Z.testbit set i); cbn in *; congruence.
Qed.

End Constructor.

(** *** What [setupSlice] writes *)

Lemma writes_only_none {A} P (m : M A) :
  (forall w, written (m w).2 = written w) -> writes_only P m.
Proof. intros H w. exists []. split; [apply H|constructor]. Qed.

Lemma writes_only_bind {A B} P (m : M A) (k : A -> M B) :
  writes_only P m -> (forall a, writes_only P (k a)) -> writes_only P (bind m k).
Proof.
  intros Hm Hk w. unfold bind. destruct (Hm w) as (l & Hl & HP).
  destruct (m w) as [[a|e| |] w1]; cbn [snd] in *; try (exists l; split; assumption).
  destruct (Hk a w1) as (l' & Hl' & HP'). exists (l' ++ l).
  rewrite Hl', Hl, <- app_assoc. split; [reflexivity|].
  apply Forall_app. split; assumption.
Qed.

Lemma writes_only_sysfs_read P path : writes_only P (sysfs_read path).
Proof.
  apply writes_only_none. intros w. unfold sysfs_read.
  destruct (files w !! path); [|reflexivity].
  destruct (decide (path ∈ refused w)); reflexivity.
Qed.

Lemma writes_only_sysfs_write (P : string * string -> Prop) path value :
  P (path, value) -> writes_only P (sysfs_write path value).
Proof.
  intros HP w. unfold sysfs_write. destruct (decide (path ∈ refused w)).
  - exists []. split; [reflexivity|constructor].
  - destruct (String.eqb value EmptyString).
    + exists []. split; [reflexivity|constructor].
    + exists [(path, value)]. split; [reflexivity|].
      constructor; [exact HP|constructor].
Qed.

Lemma writes_only_enable (P : string * string -> Prop) path :
  P (path +:+ "/cgroup.subtree_control", "+cpuset") ->
  writes_only P (enableCpusetController path).
Proof.
  intros HP. unfold enableCpusetController.
  apply writes_only_bind; [apply writes_only_sysfs_read|intros t].
  destruct (negb (contains "cpuset" t)).
  - apply writes_only_sysfs_write. exact HP.
  - apply writes_only_none. reflexivity.
Qed.

Lemma writes_only_mkdir P path : writes_only P (mkdir path).
Proof.
  apply writes_only_none. intros w. unfold mkdir.
  destruct (decide (path ∈ refused w)); [reflexivity|].
  destruct (decide (path ∈ dirs w)); reflexivity.
Qed.

Section SetupSlice.

Variable MaxCpus : Z.
Hypothesis MaxCpus_range : CPU_SETSIZE <= MaxCpus <= INT_MAX.

Lemma setupSlice_writes : writes_only enables_cpuset (setupSlice MaxCpus).
Proof.
  unfold setupSlice.
  apply writes_only_bind.
  { apply writes_only_enable. split; [reflexivity|left; reflexivity]. }
  intros _. apply writes_only_bind; [apply writes_only_mkdir|intros made].
  assert (writes_only enables_cpuset
            (do_ enableCpusetController RUNEXCL_SLICE ;
             do text <- sysfs_read (RUNEXCL_SLICE +:+ "/cpuset.cpus.effective") ;
             do effective_set <- CPUSet_of_string MaxCpus text ;
             fun w =>
               let file :=
                 match files w !! (RUNEXCL_SLICE +:+ "/cpuset.cpus") with
                 | Some content =>
                     if decide (RUNEXCL_SLICE +:+ "/cpuset.cpus" ∈ refused w)
                     then IStream [] [] false true false
                     else ios.of_chars (CPUSet.str content)
                 | None => IStream [] [] false true false
                 end in
               match extract MaxCpus file CPUSet.zero with
               | Some (file, set) =>
                   if CPUSet.empty MaxCpus set && ios.good file
                        && negb (String.eqb (text_of MaxCpus effective_set)
                                   EmptyString)
                   then
                     (Ok effective_set,
                      with_written
                        ((RUNEXCL_SLICE +:+ "/cpuset.cpus",
                          text_of MaxCpus effective_set) :: written w)
                        (with_files
                           (<[RUNEXCL_SLICE +:+ "/cpuset.cpus" :=
                                text_of MaxCpus effective_set]> (files w)) w))
                   else (Ok effective_set, w)
               | None => (Unfinished, w)
               end)) as Hrest.
  { apply writes_only_bind.
    { apply writes_only_enable. split; [reflexivity|right; reflexivity]. }
    intros _. apply writes_only_bind; [apply writes_only_sysfs_read|intros text].
    apply writes_only_bind; [apply writes_only_none; reflexivity|intros effective_set].
    apply writes_only_none. intros w. cbv zeta.
    match goal with |- context [extract MaxCpus ?f _] => set (file := f) end.
    destruct (extract MaxCpus file CPUSet.zero) as [[file' set]|] eqn:Hex; [|reflexivity].
    destruct (extract_keeps MaxCpus MaxCpus_range file _ _ _ Hex) as [_ Hne].
    destruct (ios.good file') eqn:Hg.
    - rewrite (Hne eq_refl). reflexivity.
    - rewrite andb_false_r. reflexivity. }
  destruct made; [exact Hrest| exact Hrest|].
  apply writes_only_none. reflexivity.
Qed.

(** X16.  [setupSlice] writes +cpuset to the two cgroup.subtree_control
    files and nothing else: it never writes to cpuset.cpus of the slice,
    because the stream it has read the file with is no longer good when the
    set it has read is empty. *)
Theorem setupSlice_never_writes_cpus (w : World) :
  exists l,
    written (setupSlice MaxCpus w).2 = l ++ written w /\
    Forall enables_cpuset l /\
    (forall value, ~ In (RUNEXCL_SLICE +:+ "/cpuset.cpus", value) l).
Proof.
  destruct (setupSlice_writes w) as (l & Hl & HP).
  exists l. split; [exact Hl|]. split; [exact HP|].
  intros value Hin. rewrite List.Forall_forall in HP.
  destruct (HP _ Hin) as [_ [H|H]]; cbn [fst] in H; vm_compute in H; discriminate H.
Qed.

End SetupSlice.

(** *** [wait_empty] *)

Lemma substring_all s : String.substring 0 (String.length s) s = s.
Proof. induction s as [|c s IH]; [reflexivity|]. cbn. rewrite IH. reflexivity. Qed.

Lemma erase_populated n : erase_at 0 10 (populated n) = CPUSet.msg (std_to_string n).
Proof.
  unfold populated. generalize (CPUSet.msg (std_to_string n)). intros s.
  unfold erase_at.
  change ("populated " +:+ s)
    with (String "p" (String "o" (String "p" (String "u" (String "l"
            (String "a" (String "t" (String "e" (String "d" (String " " s)))))))))).
  cbn [String.substring String.length Nat.sub Nat.add]. rewrite Nat.sub_0_r.
  change (String.substring 0 (String.length s) s = s). apply substring_all.
Qed.

Lemma index_populated n : String.index 0 "populated " (populated n) = Some 0%nat.
Proof. unfold populated. destruct (CPUSet.msg (std_to_string n)); reflexivity. Qed.

Lemma all_digits_no_space ds : all_digits ds -> Forall (fun c => isspace c = false) ds.
Proof.
  intros H. eapply List.Forall_impl; [|exact H]. intros c. apply isdigit_not_space.
Qed.

Lemma strtoul_erange_digits ds :
  all_digits ds -> ds <> [] -> strtoul_erange ds = (decimal ds >? ULONG_MAX).
Proof.
  intros Hds Hne. unfold strtoul_erange.
  destruct ds as [|d ds]; [congruence|]. inversion Hds as [|? ? Hd Hds']; subst.
  rewrite (skip_space_digit d ds Hd).
  rewrite (isdigit_not d "-" Hd eq_refl), (isdigit_not d "+" Hd eq_refl). cbn [orb].
  pose proof (span_digits_app (d :: ds) [] Hds no_digit_ahead_nil) as Hspan.
  rewrite app_nil_r in Hspan. rewrite Hspan. reflexivity.
Qed.

Lemma stoul_to_string n :
  0 <= n <= ULONG_MAX -> stoul (CPUSet.msg (std_to_string n)) = Ok n.
Proof.
  intros Hn. destruct (std_to_string_spec n Hn) as (Hds & Hne & Hdec).
  unfold stoul. rewrite str_msg.
  pose proof (strtoul_digits (std_to_string n) [] Hds Hne no_digit_ahead_nil) as Hs.
  rewrite app_nil_r in Hs. rewrite Hs, Hdec.
  rewrite (strtoul_erange_digits _ Hds Hne), Hdec.
  unfold saturate. destruct (Z.gtb_spec n ULONG_MAX); [lia|].
  destruct (std_to_string n); [congruence|]. reflexivity.
Qed.

Lemma chomp_to_string n :
  0 <= n <= ULONG_MAX ->
  chomp (CPUSet.msg (std_to_string n)) = CPUSet.msg (std_to_string n).
Proof.
  intros Hn. destruct (std_to_string_spec n Hn) as (Hds & _).
  unfold chomp. rewrite str_msg.
  rewrite (chomp_chars_all _ (all_digits_no_space _ Hds)). reflexivity.
Qed.

Lemma wait_empty_loop_populated g ns : forall fuel rest w,
  Forall (fun n => 1 <= n <= ULONG_MAX) ns ->
  (length ns < fuel)%nat ->
  cgroup_events w = map populated ns ++ populated 0 :: rest ->
  wait_empty_loop fuel g w = (Ok tt, with_events (populated 0 :: rest) w).
Proof.
  induction ns as [|n ns IH]; intros fuel rest w Hns Hfuel Hev;
    (destruct fuel as [|fuel]; [cbn [length] in Hfuel; lia|]).
  - cbn [wait_empty_loop]. rewrite Hev. cbn [map app].
    rewrite index_populated. cbv beta iota zeta. rewrite erase_populated.
    rewrite chomp_to_string, stoul_to_string by (unfold ULONG_MAX; lia).
    change (0 =? 0) with true. cbv iota.
    destruct w. cbn in Hev. subst. reflexivity.
  - inversion Hns as [|? ? Hn Hns']; subst.
    cbn [wait_empty_loop]. rewrite Hev. cbn [map app].
    rewrite index_populated. cbv beta iota zeta. rewrite erase_populated.
    rewrite chomp_to_string, stoul_to_string by lia.
    destruct (Z.eqb_spec n 0); [lia|].
    rewrite (IH fuel rest); [|assumption|cbn [length] in Hfuel; lia|reflexivity].
    reflexivity.
Qed.

(** X17.  [wait_empty] returns at the first read of cgroup.events that
    shows [populated 0], after one change event for each read that showed
    another count; on a first line without the key [populated ] it writes a
    message to stderr and returns as well, without waiting and without an
    exception; when the group cannot be watched it throws system_error. *)
Theorem wait_empty_spec (g : CPUCGroup) (w : World) :
  (forall ns rest,
      mPath g ∈ dirs w -> mPath g ∉ refused w ->
      Forall (fun n => 1 <= n <= ULONG_MAX) ns ->
      cgroup_events w = map populated ns ++ populated 0 :: rest ->
      wait_empty g w = (Ok tt, with_events (populated 0 :: rest) w)) /\
  (forall line rest,
      mPath g ∈ dirs w -> mPath g ∉ refused w ->
      cgroup_events w = line :: rest ->
      String.index 0 "populated " line = None ->
      wait_empty g w =
      (Ok tt, with_stderr (("unexpected input from " +:+ mPath g) :: stderr w) w)) /\
  (mPath g ∉ dirs w \/ mPath g ∈ refused w ->
   throws system_error (wait_empty g w).1 /\ (wait_empty g w).2 = w).
Proof.
  split; [|split].
  - intros ns rest Hd Hr Hns Hev. unfold wait_empty.
    rewrite (bool_decide_eq_true_2 _ Hd), (bool_decide_eq_false_2 _ Hr). cbn [negb andb].
    apply (wait_empty_loop_populated g ns); [assumption| |assumption].
    rewrite Hev, length_app, length_map. cbn [length]. lia.
  - intros line rest Hd Hr Hev Hidx. unfold wait_empty.
    rewrite (bool_decide_eq_true_2 _ Hd), (bool_decide_eq_false_2 _ Hr). cbn [negb andb].
    cbn [wait_empty_loop]. rewrite Hev, Hidx. reflexivity.
  - intros H. unfold wait_empty.
    assert (bool_decide (mPath g ∈ dirs w) && negb (bool_decide (mPath g ∈ refused w))
            = false) as ->.
    { destruct H as [H|H].
      - rewrite (bool_decide_eq_false_2 _ H). reflexivity.
      - rewrite (bool_decide_eq_true_2 _ H). apply andb_false_r. }
    split; [eexists; reflexivity|reflexivity].
Qed.

(** ** Instances of the further properties *)

Lemma count_spec_witness :
  CPUSet.count 1024 727 =
    Z.of_nat (length (List.filter (CPUSet.is_set 727) (seqZ 0 1024))) /\
  0 <= CPUSet.count 1024 727 <= 1024 /\
  (CPUSet.empty 1024 727 = true <-> 727 = CPUSet.zero).
Proof.
  apply (count_spec 1024 default_MaxCpus_range 727). apply valid_small. lia.
Defined.

Lemma set_clr_spec_witness :
  (CPUSet.valid 1024 (CPUSet.set 20 3) /\
   (forall i, CPUSet.is_set (CPUSet.set 20 3) i = CPUSet.is_set 20 i || (i =? 3)) /\
   CPUSet.count 1024 (CPUSet.set 20 3) =
     CPUSet.count 1024 20 + (if CPUSet.is_set 20 3 then 0 else 1)) /\
  (CPUSet.valid 1024 (CPUSet.clr 20 3) /\
   (forall i, CPUSet.is_set (CPUSet.clr 20 3) i = CPUSet.is_set 20 i && negb (i =? 3)) /\
   CPUSet.count 1024 (CPUSet.clr 20 3) =
     CPUSet.count 1024 20 - (if CPUSet.is_set 20 3 then 1 else 0)).
Proof.
  apply (set_clr_spec 1024 default_MaxCpus_range 20 3); [apply valid_small|]; lia.
Defined.

Lemma mask_algebra_witness :
  CPUSet.valid 1024 (CPUSet.and 6 255) /\
  CPUSet.valid 1024 (CPUSet.or 6 255) /\
  CPUSet.valid 1024 (CPUSet.xor 6 255) /\
  (forall i, CPUSet.is_set (CPUSet.and 6 255) i = CPUSet.is_set 6 i && CPUSet.is_set 255 i) /\
  (forall i, CPUSet.is_set (CPUSet.or 6 255) i = CPUSet.is_set 6 i || CPUSet.is_set 255 i) /\
  (forall i, CPUSet.is_set (CPUSet.xor 6 255) i = xorb (CPUSet.is_set 6 i) (CPUSet.is_set 255 i)) /\
  (CPUSet.eq 6 255 = true <->
   forall i, 0 <= i < 1024 -> CPUSet.is_set 6 i = CPUSet.is_set 255 i) /\
  (CPUSet.neq (CPUSet.and 6 255) 6 = true <->
   exists i, 0 <= i < 1024 /\ CPUSet.is_set 6 i = true /\ CPUSet.is_set 255 i = false).
Proof.
  apply (mask_algebra 1024 default_MaxCpus_range 6 255); apply valid_small; lia.
Defined.

Lemma parse_total_and_valid_witness :
  (exists m, CPUSet.parse 1024 (CPUSet.str "0-2,x") = Ok m /\ CPUSet.valid 1024 m /\
             forall i, CPUSet.is_set m i = true -> 0 <= i < 1024) \/
  (exists e, CPUSet.parse 1024 (CPUSet.str "0-2,x") = Throw e /\ domain_error e).
Proof. apply (parse_total_and_valid 1024 default_MaxCpus_range). Defined.

Lemma to_string_shape_witness :
  Forall list_form_char (CPUSet.to_string 1024 727) /\
  (CPUSet.to_string 1024 727 = [] <-> 727 = CPUSet.zero) /\
  first_token (text_of 1024 727) = text_of 1024 727 /\
  chomp (text_of 1024 727) = text_of 1024 727.
Proof.
  apply (to_string_shape 1024 default_MaxCpus_range 727). apply valid_small. lia.
Defined.

Lemma group_names_differ_witness :
  (CPUSet.to_string 1024 6 = CPUSet.to_string 1024 12 -> 6 = 12) /\
  (group_path 1024 6 = group_path 1024 12 -> 6 = 12).
Proof.
  apply (group_names_differ 1024 default_MaxCpus_range 6 12); apply valid_small; lia.
Defined.

Lemma write_read_mask_witness :
  let w := example_world "4-5" [] accepted in
  text_of 1024 727 = "0-2,4,6-7,9" /\
  (do_ sysfs_write cpuset_cpus_exclusive (text_of 1024 727) ;
   do text <- sysfs_read cpuset_cpus_exclusive ;
   CPUSet_of_string 1024 text) w =
  (Ok 727,
   with_written ((cpuset_cpus_exclusive, text_of 1024 727) :: written w)
     (with_files (<[cpuset_cpus_exclusive := text_of 1024 727]> (files w)) w)) /\
  (do_ sysfs_write cpuset_cpus_exclusive (text_of 1024 CPUSet.zero) ;
   do text <- sysfs_read cpuset_cpus_exclusive ;
   CPUSet_of_string 1024 text) w = (Ok 48, w).
Proof.
  intros w. split; [vm_compute; reflexivity|]. split.
  - apply (write_read_mask 1024 default_MaxCpus_range w cpuset_cpus_exclusive 727);
      [apply valid_small; lia|apply not_elem_of_empty|discriminate].
  - apply (write_read_mask 1024 default_MaxCpus_range w cpuset_cpus_exclusive
             CPUSet.zero);
      [apply valid_small; unfold CPUSet.zero; lia|apply not_elem_of_empty|reflexivity|].
    split; [apply not_elem_of_empty|]. exists "4-5". split; vm_compute; reflexivity.
Defined.

Lemma stream_round_trip_witness :
  (forall its t,
      Forall (valid_item 1024) its ->
      extract 1024 (ios.of_chars (render its)) t =
        Some (eof_stream (rev (render its)), mask_of its) /\
      CPUSet.parse 1024 (render its) = Ok (mask_of its)) /\
  (forall m t,
      CPUSet.valid 1024 m ->
      extract 1024 (ios.of_chars (CPUSet.to_string 1024 m)) t =
        Some (eof_stream (rev (CPUSet.to_string 1024 m)), m)) /\
  (forall cs, ios.fail (eof_stream cs) = false /\ ios.eof (eof_stream cs) = true).
Proof. apply (stream_round_trip 1024 default_MaxCpus_range). Defined.

Lemma stream_result_valid_witness :
  exists ins' t',
    extract 1024 (ios.of_chars (CPUSet.str "0-2,4 5")) 0 = Some (ins', t') /\
    (ios.fail ins' = false ->
     CPUSet.valid 1024 t' /\
     forall i, CPUSet.is_set t' i = true -> 0 <= i < 1024).
Proof. apply (stream_result_valid 1024 default_MaxCpus_range). Defined.

Lemma stream_good_not_empty_witness :
  exists ins' t',
    extract 1024 (ios.of_chars (CPUSet.str "0-2,4 5")) 0 = Some (ins', t') /\
    (ios.good ins' = true -> CPUSet.empty 1024 t' = false) /\
    (CPUSet.empty 1024 t' = true -> ios.fail ins' = false -> ios.eof ins' = true).
Proof. apply (stream_good_not_empty 1024 default_MaxCpus_range). Defined.

Lemma holds_ledger_4_5 (refuse : list string) (reply : string -> string) :
  cpuset_cpus_exclusive ∉ refused (example_world "4-5" refuse reply) ->
  holds_mask 1024 (example_world "4-5" refuse reply) cpuset_cpus_exclusive 48.
Proof. intros H. split; [exact H|]. exists "4-5". split; vm_compute; reflexivity. Qed.

Lemma holds_effective_0_7 (ledger_text : string) (refuse : list string) reply :
  effective_path ∉ refused (example_world ledger_text refuse reply) ->
  holds_mask 1024 (example_world ledger_text refuse reply) effective_path 255.
Proof. intros H. split; [exact H|]. exists "0-7". split; vm_compute; reflexivity. Qed.

Lemma subset_6_255 i : CPUSet.is_set 6 i = true -> CPUSet.is_set 255 i = true.
Proof.
  apply (proj1 (and_eq_subset 6 255)). reflexivity.
Qed.

Lemma group_1_2_fresh : group_path 1024 6 ∉ dirs (example_world "4-5" [] accepted).
Proof.
  intros H. unfold example_world in H. cbn [dirs] in H.
  apply elem_of_singleton in H. vm_compute in H. discriminate H.
Qed.

Lemma reserve_correct_witness :
  let w := example_world "4-5" [] accepted in
  ((is_throw (reserve 1024 6 w).1 = true <->
    ~ (forall i, CPUSet.is_set 6 i = true -> CPUSet.is_set 255 i = true)) /\
   (is_throw (reserve 1024 6 w).1 = true ->
    throws runtime_error (reserve 1024 6 w).1 /\ (reserve 1024 6 w).2 = w) /\
   (is_throw (reserve 1024 6 w).1 = false ->
    (reserve 1024 6 w).1 = Ok tt /\
    holds_mask 1024 (reserve 1024 6 w).2 cpuset_cpus_exclusive (CPUSet.or 48 6) /\
    (CPUSet.or 48 6 <> CPUSet.zero ->
     files (reserve 1024 6 w).2 =
       <[cpuset_cpus_exclusive := text_of 1024 (CPUSet.or 48 6)]> (files w) /\
     written (reserve 1024 6 w).2 =
       (cpuset_cpus_exclusive, text_of 1024 (CPUSet.or 48 6)) :: written w /\
     CPUSet.parse 1024 (CPUSet.str (text_of 1024 (CPUSet.or 48 6))) =
       Ok (CPUSet.or 48 6)) /\
    (CPUSet.or 48 6 = CPUSet.zero -> (reserve 1024 6 w).2 = w) /\
    (forall i, CPUSet.is_set (CPUSet.or 48 6) i =
               CPUSet.is_set 48 i || CPUSet.is_set 6 i))) /\
  is_throw (reserve 1024 6 w).1 = false /\
  text_of 1024 (CPUSet.or 48 6) = "1-2,4-5" /\
  files (reserve 1024 6 w).2 !! cpuset_cpus_exclusive = Some "1-2,4-5".
Proof.
  split; [|vm_compute; repeat split; reflexivity].
  apply (reserve_correct 1024 default_MaxCpus_range
           (example_world "4-5" [] accepted) 6 48 255).
  - apply valid_small. lia.
  - apply holds_ledger_4_5, not_elem_of_empty.
  - apply holds_effective_0_7, not_elem_of_empty.
Defined.

Lemma release_correct_witness :
  (forall l m : CPUSet,
      CPUSet.and (CPUSet.xor l m) l = Z.ldiff l m /\
      forall i, CPUSet.is_set (CPUSet.and (CPUSet.xor l m) l) i =
                CPUSet.is_set l i && negb (CPUSet.is_set m i)) /\
  (forall w g l,
      mPath g ∈ dirs w -> mPath g ∉ refused w ->
      holds_mask 1024 w cpuset_cpus_exclusive l ->
      let d := CPUSet.and (CPUSet.xor l (mCPUSet g)) l in
      exists w',
        CPUCGroup_delete 1024 g w = (Ok tt, w') /\
        (d <> CPUSet.zero ->
         files w' !! cpuset_cpus_exclusive = Some (text_of 1024 d) /\
         written w' = (cpuset_cpus_exclusive, text_of 1024 d) :: written w /\
         holds_mask 1024 w' cpuset_cpus_exclusive d) /\
        (d = CPUSet.zero ->
         files w' !! cpuset_cpus_exclusive = files w !! cpuset_cpus_exclusive /\
         written w' = written w /\
         holds_mask 1024 w' cpuset_cpus_exclusive l)) /\
  (let g := CGroup 12 (RUNEXCL_SLICE +:+ "/runexcl.2-3") in
   let w := with_dirs {[RUNEXCL_SLICE; mPath g]} (example_world "0-7" [] accepted) in
   CPUSet.parse 1024 (CPUSet.str "2-3") = Ok (mCPUSet g) /\
   files (CPUCGroup_delete 1024 g w).2 !! cpuset_cpus_exclusive = Some "0-1,4-7").
Proof. apply (release_correct 1024 default_MaxCpus_range). Defined.

(** Releasing all that the ledger holds: the set difference is empty,
    nothing is written, and the ledger holds 2-3 as before, not the empty
    set. *)
Lemma release_of_all_writes_nothing :
  let g := CGroup 12 (RUNEXCL_SLICE +:+ "/runexcl.2-3") in
  let w := with_dirs {[RUNEXCL_SLICE; mPath g]} (example_world "2-3" [] accepted) in
  CPUSet.parse 1024 (CPUSet.str "2-3") = Ok (mCPUSet g) /\
  CPUSet.and (CPUSet.xor 12 (mCPUSet g)) 12 = CPUSet.zero /\
  (CPUCGroup_delete 1024 g w).1 = Ok tt /\
  written (CPUCGroup_delete 1024 g w).2 = [] /\
  files (CPUCGroup_delete 1024 g w).2 !! cpuset_cpus_exclusive = Some "2-3" /\
  ~ holds_mask 1024 (CPUCGroup_delete 1024 g w).2 cpuset_cpus_exclusive
      (CPUSet.and (CPUSet.xor 12 (mCPUSet g)) 12).
Proof.
  cbv zeta. split; [vm_compute; reflexivity|]. split; [reflexivity|].
  split; [vm_compute; reflexivity|]. split; [vm_compute; reflexivity|].
  split; [vm_compute; reflexivity|].
  intros (_ & content & Hf & Hp). vm_compute in Hf.
  injection Hf as <-. vm_compute in Hp. discriminate Hp.
Qed.

Lemma enableCpusetController_spec_witness :
  let control := CGROUP_ROOT +:+ "/cgroup.subtree_control" in
  let w :=
    with_files (<[control := "cpu cpuset memory"]>
                  (files (example_world "4-5" [] accepted)))
      (example_world "4-5" [] accepted) in
  (enableCpusetController CGROUP_ROOT w =
     (if contains "cpuset" (CPUSet.msg (CPUSet.str "cpu")) then (Ok tt, w)
      else (Ok tt,
            with_written ((control, "+cpuset") :: written w)
              (with_files (<[control := "+cpuset"]> (files w)) w))) /\
   (do_ enableCpusetController CGROUP_ROOT ; enableCpusetController CGROUP_ROOT) w =
     enableCpusetController CGROUP_ROOT w) /\
  contains "cpuset" "cpu" = false /\
  written (enableCpusetController CGROUP_ROOT w).2 = [(control, "+cpuset")] /\
  written
    (enableCpusetController CGROUP_ROOT (example_world "4-5" [] accepted)).2 = [].
Proof.
  split; [|vm_compute; repeat split; reflexivity].
  apply (enableCpusetController_spec CGROUP_ROOT
           (with_files
              (<[CGROUP_ROOT +:+ "/cgroup.subtree_control" := "cpu cpuset memory"]>
                 (files (example_world "4-5" [] accepted)))
              (example_world "4-5" [] accepted))
           [] (CPUSet.str "cpu") (CPUSet.str " cpuset memory")).
  - vm_compute; reflexivity.
  - apply not_elem_of_empty.
  - constructor.
  - discriminate.
  - repeat constructor.
  - left. reflexivity.
Defined.

Lemma constructor_success_witness :
  (exists w',
    CPUCGroup_new 1024 6 (example_world "4-5" [] accepted) =
      (Ok (CGroup 6 (group_path 1024 6)), w') /\
    dirs w' = {[group_path 1024 6]} ∪ dirs (example_world "4-5" [] accepted) /\
    holds_mask 1024 w' cpuset_cpus_exclusive (CPUSet.or 48 6) /\
    holds_mask 1024 w' (group_path 1024 6 +:+ "/cpuset.cpus") 6 /\
    files w' !! cpuset_cpus_exclusive = Some (text_of 1024 (CPUSet.or 48 6)) /\
    files w' !! (group_path 1024 6 +:+ "/cpuset.cpus") = Some (text_of 1024 6) /\
    text_of 1024 6 <> EmptyString /\
    rev (written w') =
      rev (written (example_world "4-5" [] accepted)) ++
      [(cpuset_cpus_exclusive, text_of 1024 (CPUSet.or 48 6));
       (group_path 1024 6 +:+ "/cpuset.cpus", text_of 1024 6);
       (group_path 1024 6 +:+ "/cpuset.cpus.partition", "root")]) /\
  text_of 1024 (CPUSet.or 48 6) = "1-2,4-5" /\
  text_of 1024 6 = "1-2" /\
  group_path 1024 6 = RUNEXCL_SLICE +:+ "/runexcl.1-2".
Proof.
  split; [|vm_compute; repeat split; reflexivity].
  apply (constructor_success 1024 default_MaxCpus_range
           (example_world "4-5" [] accepted) 6 48 255).
  - apply valid_small. lia.
  - discriminate.
  - apply holds_ledger_4_5, not_elem_of_empty.
  - apply holds_effective_0_7, not_elem_of_empty.
  - apply subset_6_255.
  - apply group_1_2_fresh.
  - apply not_elem_of_empty.
  - apply not_elem_of_empty.
  - apply not_elem_of_empty.
  - reflexivity.
Defined.

Lemma construct_then_destroy_witness :
  (exists w',
    (do group <- CPUCGroup_new 1024 6 ; CPUCGroup_delete 1024 group)
      (example_world "4-5" [] accepted) = (Ok tt, w') /\
    dirs w' = dirs (example_world "4-5" [] accepted) /\
    (Z.ldiff 48 6 <> CPUSet.zero ->
     files w' !! cpuset_cpus_exclusive = Some (text_of 1024 (Z.ldiff 48 6)) /\
     holds_mask 1024 w' cpuset_cpus_exclusive (Z.ldiff 48 6)) /\
    (Z.ldiff 48 6 = CPUSet.zero ->
     files w' !! cpuset_cpus_exclusive = Some (text_of 1024 (CPUSet.or 48 6)) /\
     holds_mask 1024 w' cpuset_cpus_exclusive (CPUSet.or 48 6)) /\
    (CPUSet.and 48 6 = CPUSet.zero -> Z.ldiff 48 6 = 48)) /\
  text_of 1024 (Z.ldiff 48 6) = "4-5" /\
  (exists w',
    (do group <- CPUCGroup_new 1024 6 ; CPUCGroup_delete 1024 group)
      (example_world EmptyString [] accepted) = (Ok tt, w') /\
    dirs w' = dirs (example_world EmptyString [] accepted) /\
    (Z.ldiff 0 6 <> CPUSet.zero ->
     files w' !! cpuset_cpus_exclusive = Some (text_of 1024 (Z.ldiff 0 6)) /\
     holds_mask 1024 w' cpuset_cpus_exclusive (Z.ldiff 0 6)) /\
    (Z.ldiff 0 6 = CPUSet.zero ->
     files w' !! cpuset_cpus_exclusive = Some (text_of 1024 (CPUSet.or 0 6)) /\
     holds_mask 1024 w' cpuset_cpus_exclusive (CPUSet.or 0 6)) /\
    (CPUSet.and 0 6 = CPUSet.zero -> Z.ldiff 0 6 = 0)) /\
  Z.ldiff 0 6 = CPUSet.zero /\ text_of 1024 (CPUSet.or 0 6) = "1-2".
Proof.
  split; [|split; [vm_compute; reflexivity|split; [|vm_compute; split; reflexivity]]].
  - apply (construct_then_destroy 1024 default_MaxCpus_range
             (example_world "4-5" [] accepted) 6 48 255).
    + apply valid_small. lia.
    + discriminate.
    + apply holds_ledger_4_5, not_elem_of_empty.
    + apply holds_effective_0_7, not_elem_of_empty.
    + apply subset_6_255.
    + apply group_1_2_fresh.
    + apply not_elem_of_empty.
    + apply not_elem_of_empty.
    + apply not_elem_of_empty.
    + reflexivity.
  - apply (construct_then_destroy 1024 default_MaxCpus_range
             (example_world EmptyString [] accepted) 6 0 255).
    + apply valid_small. lia.
    + discriminate.
    + split; [apply not_elem_of_empty|].
      exists EmptyString. split; vm_compute; reflexivity.
    + apply holds_effective_0_7, not_elem_of_empty.
    + apply subset_6_255.
    + intros H. unfold example_world in H. cbn [dirs] in H.
      apply elem_of_singleton in H. vm_compute in H. discriminate H.
    + apply not_elem_of_empty.
    + apply not_elem_of_empty.
    + apply not_elem_of_empty.
    + reflexivity.
Defined.

Lemma setupSlice_never_writes_cpus_witness :
  exists l,
    written (setupSlice 1024 (example_world "4-5" [] accepted)).2 =
      l ++ written (example_world "4-5" [] accepted) /\
    Forall enables_cpuset l /\
    (forall value, ~ In (RUNEXCL_SLICE +:+ "/cpuset.cpus", value) l).
Proof. apply (setupSlice_never_writes_cpus 1024 default_MaxCpus_range). Defined.

(** ** The frequency controller *)









Section GovernorFacts.

Variable MaxCpus : Z.



End GovernorFacts.

(** *** The CPUs of a policy *)

Lemma ws_spaces (sp r cs : list ascii) :
  all_space sp -> isspace (cur r) = false -> r <> [] ->
  ios.ws cs (sp ++ r) = (rev sp ++ cs, r).
Proof.
  intros Hsp Hr Hne. revert cs. induction Hsp as [|c sp Hc _ IH]; intros cs.
  - destruct r as [|c r]; [congruence|]. cbn [app ios.ws rev]. cbn [cur] in Hr.
    rewrite Hr. reflexivity.
  - cbn [app ios.ws]. rewrite Hc, IH. cbn [rev]. rewrite <- app_assoc. reflexivity.
Qed.

Section PolicyCpus.

Variable MaxCpus : Z.
Hypothesis MaxCpus_range : CPU_SETSIZE <= MaxCpus <= INT_MAX.

(** [in >> cpu] on white space, a CPU number and a character that ends
    it. *)
Lemma read_int_spaces cs sp ds r :
  all_space sp -> cpu_number MaxCpus ds -> no_digit_ahead r -> r <> [] ->
  ios.read_int (good_stream cs (sp ++ ds ++ r)) =
  (good_stream (rev ds ++ rev sp ++ cs) r, decimal ds).
Proof.
  intros Hsp (Hds & Hne & Hlt) Hr Hrne. unfold ios.read_int, ios.sentry, good_stream.
  cbn [ios.good eofbit failbit badbit negb andb consumed pending].
  destruct ds as [|d ds]; [congruence|]. inversion Hds as [|? ? Hd Hds']; subst.
  rewrite (ws_spaces sp ((d :: ds) ++ r) cs Hsp);
    [|cbn [app cur]; apply isdigit_not_space; exact Hd|discriminate].
  cbn [app pending consumed eofbit failbit badbit].
  rewrite (isdigit_not d "-" Hd eq_refl), (isdigit_not d "+" Hd eq_refl).
  change (d :: ds ++ r) with ((d :: ds) ++ r).
  rewrite (span_digits_app (d :: ds) r Hds Hr).
  pose proof (decimal_nonneg _ Hds) as Hnn.
  unfold INT_MIN, INT_MAX in *.
  destruct (Z.ltb_spec (decimal (d :: ds)) (- 2 ^ 31)); [lia|].
  destruct (Z.gtb_spec (decimal (d :: ds)) (2 ^ 31 - 1)); [lia|].
  destruct r; [congruence|]. reflexivity.
Qed.

Lemma cpu_number_to_string c : 0 <= c < MaxCpus -> cpu_number MaxCpus (std_to_string c).
Proof.
  intros Hc. unfold INT_MAX in MaxCpus_range.
  destruct (std_to_string_spec c) as (H1 & H2 & H3); [unfold ULONG_MAX; lia|].
  split; [exact H1|]. split; [exact H2|]. rewrite H3. lia.
Qed.

Lemma affects_tail cpus set : forall fuel cs,
  Forall (fun c => 0 <= c < MaxCpus) cpus ->
  (length cpus < fuel)%nat ->
  affects MaxCpus fuel
    (good_stream cs (flat_map (fun c => " "%char :: std_to_string c) cpus ++ [newline]))
    set =
  existsb (CPUSet.is_set set) cpus.
Proof.
  induction cpus as [|c cpus IH]; intros fuel cs Hall Hfuel;
    (destruct fuel as [|fuel]; [cbn [length] in Hfuel; lia|]).
  - reflexivity.
  - inversion Hall as [|? ? Hc Hall']; subst.
    cbn [flat_map affects existsb]. cbn [ios.good good_stream eofbit failbit badbit negb andb].
    change ((" "%char :: std_to_string c) ++
            flat_map (fun c => " "%char :: std_to_string c) cpus)
      with ([" "%char] ++ std_to_string c ++
            flat_map (fun c => " "%char :: std_to_string c) cpus).
    rewrite <- !app_assoc.
    fold (good_stream cs ([" "%char] ++ std_to_string c ++
            flat_map (fun c => " "%char :: std_to_string c) cpus ++ [newline])).
    rewrite (read_int_spaces cs [" "%char] (std_to_string c));
      [|repeat constructor|apply cpu_number_to_string; exact Hc
       |destruct cpus; reflexivity|destruct cpus; discriminate].
    destruct (std_to_string_spec c) as (_ & _ & ->);
      [unfold ULONG_MAX, INT_MAX in *; lia|].
    cbn [ios.fail good_stream failbit badbit orb].
    destruct (Z.ltb_spec c 0); [lia|]. destruct (Z.geb_spec c MaxCpus); [lia|].
    cbn [orb]. destruct (CPUSet.is_set set c); [reflexivity|].
    cbn [orb]. apply IH; [assumption|cbn [length] in Hfuel; lia].
Qed.

Lemma length_affected_cpus_text cpus :
  (length cpus < S (length (affected_cpus_text cpus)))%nat.
Proof.
  assert (forall l : list Z,
            (length l <= length (flat_map (fun c => " "%char :: std_to_string c) l))%nat)
    as H.
  { induction l as [|c l IH]; [cbn; lia|]. cbn [flat_map length]. rewrite length_app.
    cbn [length]. lia. }
  destruct cpus as [|c cpus]; [cbn; lia|].
  cbn [affected_cpus_text length]. rewrite !length_app. specialize (H cpus).
  cbn [length]. lia.
Qed.

Lemma affects_first c cpus set fuel :
  0 <= c < MaxCpus -> Forall (fun c => 0 <= c < MaxCpus) cpus ->
  (length cpus < fuel)%nat ->
  affects MaxCpus (S fuel)
    (ios.of_chars (std_to_string c ++
       flat_map (fun c => " "%char :: std_to_string c) cpus ++ [newline])) set =
  existsb (CPUSet.is_set set) (c :: cpus).
Proof.
  intros Hc Hall Hfuel.
  cbn [affects existsb]. unfold ios.of_chars.
  cbn [ios.good eofbit failbit badbit negb andb].
  fold (good_stream [] (std_to_string c ++
          flat_map (fun c => " "%char :: std_to_string c) cpus ++ [newline])).
  pose proof (read_int_spaces [] [] (std_to_string c)
                (flat_map (fun c => " "%char :: std_to_string c) cpus ++ [newline])
                ltac:(constructor) (cpu_number_to_string c Hc)) as Hread.
  cbn [app rev] in Hread.
  rewrite Hread by (destruct cpus; first [reflexivity|discriminate]).
  destruct (std_to_string_spec c) as (_ & _ & ->);
    [unfold ULONG_MAX, INT_MAX in *; lia|].
  cbn [ios.fail good_stream failbit badbit orb].
  destruct (Z.ltb_spec c 0); [lia|]. destruct (Z.geb_spec c MaxCpus); [lia|].
  cbn [orb]. destruct (CPUSet.is_set set c); [reflexivity|].
  cbn [orb]. apply affects_tail; assumption.
Qed.

(** X19.  The loop of [setup_policies] over affected_cpus finds a CPU of
    the set exactly when one of the CPUs listed in the file is in the set:
    a policy is taken when it drives at least one CPU of the set. *)
Theorem affects_spec (cpus : list Z) (set : CPUSet) :
  Forall (fun c => 0 <= c < MaxCpus) cpus ->
  affects MaxCpus (S (length (affected_cpus_text cpus)))
    (ios.of_chars (affected_cpus_text cpus)) set =
  existsb (CPUSet.is_set set) cpus.
Proof.
  intros Hall. pose proof (length_affected_cpus_text cpus) as Hlen.
  destruct cpus as [|c cpus]; [reflexivity|].
  inversion Hall as [|? ? Hc Hall']; subst.
  apply affects_first; [assumption|assumption|].
  cbn [length] in Hlen. lia.
Qed.

End PolicyCpus.

(** *** One policy from construction to destruction *)







Lemma wait_empty_populated g w ns rest :
  mPath g ∈ dirs w -> mPath g ∉ refused w ->
  Forall (fun n => 1 <= n <= ULONG_MAX) ns ->
  cgroup_events w = map populated ns ++ populated 0 :: rest ->
  wait_empty g w = (Ok tt, with_events (populated 0 :: rest) w).
Proof.
  intros Hd Hr Hns Hev. unfold wait_empty.
  rewrite (bool_decide_eq_true_2 _ Hd), (bool_decide_eq_false_2 _ Hr). cbn [negb andb].
  apply (wait_empty_loop_populated g ns); [assumption| |assumption].
  rewrite Hev, length_app, length_map. cbn [length]. lia.
Qed.

(** ** The launcher *)
Section Launcher.

Variable MaxCpus : Z.
Hypothesis MaxCpus_range : CPU_SETSIZE <= MaxCpus <= INT_MAX.

#[local] Abbreviation ledger := cpuset_cpus_exclusive.

Lemma setupSlice_ready w e :
  slice_ready MaxCpus w e -> setupSlice MaxCpus w = (Ok e, w).
Proof.
  intros ((c1 & Hf1 & Hc1) & Hr1 & Hd & Hr & (c2 & Hf2 & Hc2) & Hr2 & He).
  unfold setupSlice.
  pose proof (enable_present CGROUP_ROOT w c1 Hf1 Hr1) as H1. rewrite Hc1 in H1.
  rewrite (bind_Ok _ _ _ _ _ H1).
  assert (mkdir RUNEXCL_SLICE w = (Ok mkdir_EEXIST, w)) as Hmk.
  { unfold mkdir. destruct (decide (RUNEXCL_SLICE ∈ refused w)); [contradiction|].
    destruct (decide (RUNEXCL_SLICE ∈ dirs w)); [reflexivity|contradiction]. }
  rewrite (bind_Ok _ _ _ _ _ Hmk). cbv beta iota.
  pose proof (enable_present RUNEXCL_SLICE w c2 Hf2 Hr2) as H2. rewrite Hc2 in H2.
  rewrite (bind_Ok _ _ _ _ _ H2). cbv zeta.
  destruct (read_mask MaxCpus w effective_path e He) as (text & Hread & Hparse).
  change (RUNEXCL_SLICE +:+ "/cpuset.cpus.effective") with effective_path.
  rewrite (bind_Ok _ _ _ _ _ Hread), (bind_Ok _ _ _ _ _ Hparse).
  match goal with |- context [extract MaxCpus ?f _] => set (file := f) end.
  destruct (extract_total MaxCpus file CPUSet.zero) as [[file' set] Hex].
  rewrite Hex.
  destruct (extract_keeps MaxCpus MaxCpus_range file _ _ _ Hex) as [_ Hne].
  destruct (ios.good file') eqn:Hg.
  - rewrite (Hne eq_refl). reflexivity.
  - rewrite andb_false_r. reflexivity.
Qed.

(** X21.  When the CPUs asked for are not all among the effective CPUs of
    the slice, [main] prints the effective CPUs and returns 1; nothing has
    been reserved and no group has been made. *)
Theorem main_rejects_foreign_cpus (gArgs : RunExclArgs) (w : World) (e : CPUSet) :
  slice_ready MaxCpus w e ->
  CPUSet.empty MaxCpus (aSet gArgs) = false ->
  (exists i, CPUSet.is_set (aSet gArgs) i = true /\ CPUSet.is_set e i = false) ->
  main MaxCpus true true gArgs w =
  (Exit 1,
   with_stderr (("cpuset must be in '" +:+ text_of MaxCpus e +:+ "'.") :: stderr w) w).
Proof.
  intros Hready Hne (i & Hi & Hei). unfold main. rewrite Hne. cbn [negb].
  unfold try_catch, main_try.
  rewrite (bind_Ok _ _ _ _ _ (setupSlice_ready w e Hready)). cbv zeta.
  assert (CPUSet.neq (CPUSet.and e (aSet gArgs)) (aSet gArgs) = true) as ->.
  { unfold CPUSet.neq, CPUSet.eq. apply negb_true_iff, Z.eqb_neq. intros Heq.
    apply (f_equal (fun x => Z.testbit x i)) in Heq.
    unfold CPUSet.and, CPUSet.is_set in *. rewrite Z.land_spec, Hi, Hei in Heq.
    discriminate. }
  reflexivity.
Qed.

Lemma holds_mask_with_events w path m ev :
  holds_mask MaxCpus w path m -> holds_mask MaxCpus (with_events ev w) path m.
Proof. intros H. exact H. Qed.

Lemma not_empty_not_zero set :
  CPUSet.valid MaxCpus set -> CPUSet.empty MaxCpus set = false -> set <> CPUSet.zero.
Proof.
  intros Hv He Hz. apply (empty_iff_zero MaxCpus set Hv) in Hz. congruence.
Qed.

(** The group is there after the constructor, holding the union in the
    ledger; the destructor that runs when its block is left. *)
Lemma group_lives_and_ends w set l e :
  let g := group_path MaxCpus set in
  CPUSet.valid MaxCpus set -> CPUSet.empty MaxCpus set = false ->
  (forall i, CPUSet.is_set set i = true -> CPUSet.is_set e i = true) ->
  holds_mask MaxCpus w ledger l -> holds_mask MaxCpus w effective_path e ->
  g ∉ dirs w -> g ∉ refused w ->
  (g +:+ "/cpuset.cpus") ∉ refused w ->
  (g +:+ "/cpuset.cpus.partition") ∉ refused w ->
  chomp (first_token (partition_reply w "root")) = "root" ->
  let after :=
    if CPUSet.eq (Z.ldiff l set) CPUSet.zero then CPUSet.or l set
    else Z.ldiff l set in
  exists w1,
    CPUCGroup_new MaxCpus set w = (Ok (CGroup set g), w1) /\
    g ∈ dirs w1 /\ (g ∉ refused w1) /\
    clone3_result w1 = clone3_result w /\ waitpid_result w1 = waitpid_result w /\
    cgroup_events w1 = cgroup_events w /\ strerror_errno w1 = strerror_errno w /\
    forall ev, exists w3,
      CPUCGroup_delete MaxCpus (CGroup set g) (with_events ev w1) = (Ok tt, w3) /\
      dirs w3 = dirs w /\ stderr w3 = stderr w /\
      holds_mask MaxCpus w3 ledger after /\
      files w3 !! ledger = Some (text_of MaxCpus after) /\
      rev (written w3) =
        rev (written w) ++
        [(ledger, text_of MaxCpus (CPUSet.or l set));
         (g +:+ "/cpuset.cpus", text_of MaxCpus set);
         (g +:+ "/cpuset.cpus.partition", "root")] ++
        (if CPUSet.eq (Z.ldiff l set) CPUSet.zero then []
         else [(ledger, text_of MaxCpus (Z.ldiff l set))]).
Proof.
  intros g Hv Hne Hsub Hl He Hdir Href Hcpus Hpart Hreply after.
  destruct (CPUCGroup_new_spec MaxCpus MaxCpus_range w set l e Hv
              (not_empty_not_zero set Hv Hne) Hl He (subset_neq set e Hsub)
              Hdir Href Hcpus Hpart Hreply)
    as (w1 & Hnew & Hd & Hr & Hled & _ & _ & Hwr & Herr & Hevents & Hc3 & Hwp & _ & _
        & _ & Hstr).
  fold g in Hnew, Hd, Hwr.
  assert (g ∈ dirs w1) as Hg1.
  { rewrite Hd. apply elem_of_union_l, elem_of_singleton. reflexivity. }
  assert (g ∉ refused w1) as Hg2 by (rewrite Hr; exact Href).
  exists w1. split; [exact Hnew|]. split; [exact Hg1|]. split; [exact Hg2|].
  split; [exact Hc3|]. split; [exact Hwp|]. split; [exact Hevents|].
  split; [exact Hstr|]. intros ev.
  pose proof (holds_mask_valid MaxCpus MaxCpus_range _ _ _ Hl) as Hvl.
  pose proof (valid_lor MaxCpus MaxCpus_range l set Hvl Hv) as Hvu.
  assert (holds_mask MaxCpus (with_events ev w1) ledger (CPUSet.or l set)) as Hl2.
  { apply (holds_mask_text MaxCpus MaxCpus_range);
      [exact Hvu|cbn [refused with_events]; rewrite Hr; apply Hl|exact Hled]. }
  destruct (CPUCGroup_delete_ledger MaxCpus MaxCpus_range (with_events ev w1)
              (CGroup set g) (CPUSet.or l set) Hg1 Hg2 Hl2)
    as (w3 & Hdel & Hd3 & _ & Herr3 & Hwr3 & Hf3 & Hh3).
  cbn [mCPUSet mPath] in Hdel, Hd3, Hwr3, Hf3, Hh3.
  rewrite reserve_release_difference in Hwr3, Hf3, Hh3.
  cbn [dirs stderr written files with_events] in Hd3, Herr3, Hwr3, Hf3.
  exists w3. split; [exact Hdel|].
  split; [rewrite Hd3, Hd; apply difference_of_fresh; exact Hdir|].
  split; [rewrite Herr3; exact Herr|].
  split; [exact Hh3|].
  split.
  { rewrite Hf3. unfold after.
    destruct (CPUSet.eq (Z.ldiff l set) CPUSet.zero); [exact Hled|reflexivity]. }
  rewrite Hwr3, Hwr.
  destruct (CPUSet.eq (Z.ldiff l set) CPUSet.zero);
    cbn [rev app]; rewrite <- ?app_assoc; reflexivity.
Qed.

(** X22.  A run of [main] without a frequency and without isolation, on a
    slice that has been set up, with the CPUs free and a kernel that takes
    the partition: the child is started in the group, [main] waits for the
    child and for the group to become empty and returns 0; the group
    directory is gone again.  The ledger then holds what it held without
    the CPUs of the run; when that is the empty set (no other reservation
    is left) the list form of it cannot be written, and the ledger still
    holds the CPUs of the run as well. *)
Theorem main_success (set l e : CPUSet) (w : World) (ns : list Z) (rest : list string) :
  let g := group_path MaxCpus set in
  slice_ready MaxCpus w e ->
  CPUSet.valid MaxCpus set -> CPUSet.empty MaxCpus set = false ->
  (forall i, CPUSet.is_set set i = true -> CPUSet.is_set e i = true) ->
  holds_mask MaxCpus w ledger l ->
  g ∉ dirs w -> g ∉ refused w ->
  (g +:+ "/cpuset.cpus") ∉ refused w ->
  (g +:+ "/cpuset.cpus.partition") ∉ refused w ->
  chomp (first_token (partition_reply w "root")) = "root" ->
  0 < clone3_result w -> waitpid_result w <> -1 ->
  Forall (fun n => 1 <= n <= ULONG_MAX) ns ->
  cgroup_events w = map populated ns ++ populated 0 :: rest ->
  let after :=
    if CPUSet.eq (Z.ldiff l set) CPUSet.zero then CPUSet.or l set
    else Z.ldiff l set in
  exists w',
    main MaxCpus true true (Args set 0 false) w = (Exit 0, w') /\
    dirs w' = dirs w /\
    holds_mask MaxCpus w' ledger after /\
    files w' !! ledger = Some (text_of MaxCpus after) /\
    stderr w' = stderr w /\
    rev (written w') =
      rev (written w) ++
      [(ledger, text_of MaxCpus (CPUSet.or l set));
       (g +:+ "/cpuset.cpus", text_of MaxCpus set);
       (g +:+ "/cpuset.cpus.partition", "root")] ++
      (if CPUSet.eq (Z.ldiff l set) CPUSet.zero then []
       else [(ledger, text_of MaxCpus (Z.ldiff l set))]).
Proof.
  intros g Hready Hv Hne Hsub Hl Hdir Href Hcpus Hpart Hreply Hclone Hwait Hns Hev
         after.
  unfold main. cbn [aSet negb]. rewrite Hne.
  unfold try_catch, main_try. cbn [aSet mIsolate mFrequency].
  rewrite (bind_Ok _ _ _ _ _ (setupSlice_ready w e Hready)). cbv zeta.
  assert (CPUSet.and e set = set) as Hand.
  { unfold CPUSet.and. rewrite Z.land_comm. apply and_eq_subset. exact Hsub. }
  rewrite Hand.
  assert (CPUSet.neq set set = false) as ->.
  { unfold CPUSet.neq, CPUSet.eq. rewrite Z.eqb_refl. reflexivity. }
  destruct Hready as (_ & _ & _ & _ & _ & _ & He).
  destruct (group_lives_and_ends w set l e Hv Hne Hsub Hl He Hdir Href Hcpus Hpart
              Hreply)
    as (w1 & Hnew & Hg1 & Hg2 & Hc3 & Hwp & Hevents & _ & Hend).
  fold g in Hnew, Hg1, Hg2, Hend.
  rewrite (bind_Ok _ _ _ _ _ Hnew).
  (* the body of the block in which the group lives *)
  set (w2 := with_events (populated 0 :: rest) w1).
  assert ((do child <- clone (CGroup set g) ;
           do_ waitpid ;
           do_ wait_empty (CGroup set g) ;
           ret 0) w1 = (Ok 0, w2)) as Hbody.
  { assert (clone (CGroup set g) w1 = (Ok (clone3_result w1), w1)) as Hcl.
    { unfold clone. cbn [mPath].
      rewrite (bool_decide_eq_true_2 _ Hg1), (bool_decide_eq_false_2 _ Hg2).
      cbn [negb andb]. rewrite Hc3.
      destruct (Z.eqb_spec (clone3_result w) (-1)); [lia|reflexivity]. }
    rewrite (bind_Ok _ _ _ _ _ Hcl).
    assert (waitpid w1 = (Ok tt, w1)) as Hw.
    { unfold waitpid. rewrite Hwp.
      destruct (Z.eqb_spec (waitpid_result w) (-1)); [contradiction|reflexivity]. }
    rewrite (bind_Ok _ _ _ _ _ Hw).
    rewrite (bind_Ok _ _ _ _ _
               (wait_empty_populated (CGroup set g) w1 ns rest Hg1 Hg2 Hns
                  (eq_trans Hevents Hev))).
    reflexivity. }
  destruct (Hend (populated 0 :: rest)) as (w3 & Hdel & Hd3 & Herr3 & Hh3 & Hf3 & Hwr3).
  fold w2 in Hdel.
  cbv beta. unfold scoped at 1.
  assert (PrimFloat.eqb 0 0 = true) as -> by reflexivity. cbn [negb].
  match goal with |- context [bind (ret tt) ?k w1] =>
    change (bind (ret tt) k w1) with (k tt w1) end.
  cbv beta.
  match goal with |- context [bind (ret None) ?k w1] =>
    change (bind (ret None) k w1) with (k None w1) end.
  cbv beta. unfold scoped at 1. rewrite Hbody.
  unfold CPUGovernor_dtor, delete_driver.
  change ((do_ noexcept (ret tt) ; ret 0) w2) with (@Ok Z 0, w2).
  cbv iota.
  unfold bind at 1. unfold noexcept at 1. rewrite Hdel. unfold ret.
  exists w3. split; [reflexivity|].
  split; [exact Hd3|]. split; [exact Hh3|]. split; [exact Hf3|].
  split; [exact Herr3|exact Hwr3].
Qed.

End Launcher.

(** ** The launcher when the child cannot be started or awaited *)
Section LauncherFailure.

Variable MaxCpus : Z.
Hypothesis MaxCpus_range : CPU_SETSIZE <= MaxCpus <= INT_MAX.


End LauncherFailure.

(** ** The exception classes of [parse], and the option that uses it *)
Section ErrorClasses.

Variable MaxCpus : Z.
Hypothesis MaxCpus_range : CPU_SETSIZE <= MaxCpus <= INT_MAX.

Lemma total_iterations_le its :
  Forall (valid_item MaxCpus) its ->
  (total_iterations its <= length (items_prefix its))%nat.
Proof.
  induction 1 as [|it its Hit _ IH]; [cbn; lia|].
  cbn [total_iterations fold_right items_prefix flat_map].
  fold (items_prefix its). fold (total_iterations its).
  rewrite !length_app. cbn [length].
  pose proof (iterations_le_length MaxCpus it Hit). lia.
Qed.

(** The loop on complete items: it arrives behind them with their CPUs
    set and no range open. *)
Lemma parse_loop_prefix its : forall fuel at_str rest m,
  Forall (valid_item MaxCpus) its ->
  (total_iterations its <= fuel)%nat ->
  CPUSet.parse_loop MaxCpus fuel at_str (-1) (items_prefix its ++ rest) m =
  CPUSet.parse_loop MaxCpus (fuel - total_iterations its)
    (match its with [] => at_str | _ => false end) (-1) rest
    (fold_left add_item its m).
Proof.
  induction its as [|it its IH]; intros fuel at_str rest m Hv Hfuel.
  - cbn. rewrite Nat.sub_0_r. reflexivity.
  - inversion Hv as [|? ? Hit Hits]; subst.
    cbn [total_iterations fold_right items_prefix flat_map fold_left] in *.
    fold (items_prefix its). fold (total_iterations its) in *.
    replace fuel with (iterations it + (fuel - iterations it))%nat at 1 by lia.
    rewrite <- !app_assoc. cbn [app].
    rewrite (parse_item_comma MaxCpus MaxCpus_range it at_str _ m _ Hit).
    rewrite IH by (assumption || lia).
    replace (fuel - iterations it - total_iterations its)%nat
      with (fuel - (iterations it + total_iterations its))%nat by lia.
    destruct its; reflexivity.
Qed.

Lemma parse_prefix its rest :
  Forall (valid_item MaxCpus) its ->
  exists k,
    (length rest < k)%nat /\
    CPUSet.parse MaxCpus (items_prefix its ++ rest) =
    CPUSet.parse_loop MaxCpus k (match its with [] => true | _ => false end)
      (-1) rest (mask_of its).
Proof.
  intros Hv. pose proof (total_iterations_le its Hv) as Hle.
  exists (S (length (items_prefix its ++ rest)) - total_iterations its)%nat.
  rewrite length_app in *. split; [lia|].
  unfold CPUSet.parse. rewrite parse_loop_prefix by (assumption || (rewrite length_app; lia)).
  rewrite length_app. reflexivity.
Qed.

Lemma parse_loop_too_large k at_str start ds m :
  all_digits ds -> ds <> [] -> MaxCpus <= decimal ds ->
  CPUSet.parse_loop MaxCpus (S k) at_str start ds m =
  Throw (Exn range_error
           (CPUSet.msg (CPUSet.str "CPU #" ++ std_to_string (saturate (decimal ds)) ++
                        CPUSet.str " out of range in cpuset string"))).
Proof.
  intros Hds Hne Hbig. cbn [CPUSet.parse_loop]. unfold CPUSet.parse_body.
  pose proof (strtoul_digits ds [] Hds Hne no_digit_ahead_nil) as Hs.
  rewrite app_nil_r in Hs. rewrite Hs.
  pose proof (length_suffix_neq ds [] Hne) as Hlen. rewrite app_nil_r in Hlen.
  rewrite Hlen.
  pose proof (saturate_large MaxCpus MaxCpus_range _ Hbig).
  destruct (Z.geb_spec (saturate (decimal ds)) MaxCpus); [reflexivity|lia].
Qed.

Lemma parse_loop_minus k at_str start ds m :
  all_digits ds -> ds <> [] -> 1 <= decimal ds <= 2 ^ 64 - MaxCpus ->
  CPUSet.parse_loop MaxCpus (S k) at_str start ("-"%char :: ds) m =
  Throw (Exn range_error
           (CPUSet.msg (CPUSet.str "CPU #" ++ std_to_string (2 ^ 64 - decimal ds) ++
                        CPUSet.str " out of range in cpuset string"))).
Proof.
  intros Hds Hne Hv. cbn [CPUSet.parse_loop]. unfold CPUSet.parse_body.
  pose proof (strtoul_minus ds [] Hds Hne no_digit_ahead_nil) as Hs.
  rewrite app_nil_r in Hs. rewrite Hs.
  unfold ULONG_MAX. unfold INT_MAX, CPU_SETSIZE in MaxCpus_range.
  destruct (Z.gtb_spec (decimal ds) (2 ^ 64 - 1)); [lia|].
  rewrite Z.mod_small by lia.
  assert ((length (A:=ascii) [] =? length ("-"%char :: ds))%nat = false) as ->
    by reflexivity.
  destruct (Z.geb_spec (2 ^ 64 - decimal ds) MaxCpus); [reflexivity|lia].
Qed.

Lemma parse_loop_open_range k at_str a m :
  cpu_number MaxCpus a ->
  CPUSet.parse_loop MaxCpus (S (S k)) at_str (-1) (a ++ ["-"%char]) m =
  Throw (Exn invalid_argument "Missing end of range in cpuset string").
Proof.
  intros Ha. cbn [CPUSet.parse_loop].
  rewrite (parse_body_number MaxCpus MaxCpus_range _ _ _ a _ _ Ha (no_digit_ahead_hyphen _)).
  rewrite parse_switch_hyphen. change (negb (-1 =? -1)) with false. cbv iota.
  unfold CPUSet.parse_body.
  change (strtoul []) with (0, @nil ascii). cbv beta iota.
  change (length (A:=ascii) [] =? length (A:=ascii) [])%nat with true. cbv iota.
  change (Ascii.eqb NUL (cur []) && false) with false. cbv iota.
  pose proof (cpu_number_nonneg MaxCpus a Ha).
  destruct (Z.eqb_spec (-1) (decimal a)); [lia|reflexivity].
Qed.

Lemma parse_loop_reversed_range k at_str a b m :
  cpu_number MaxCpus a -> cpu_number MaxCpus b -> decimal b < decimal a ->
  CPUSet.parse_loop MaxCpus (S (S k)) at_str (-1) (a ++ "-"%char :: b) m =
  Throw (Exn out_of_range
           (CPUSet.msg (CPUSet.str "Invalid CPU range " ++ std_to_string (decimal a) ++
                        CPUSet.str "-" ++ std_to_string (decimal b) ++
                        CPUSet.str " in cpuset string"))).
Proof.
  intros Ha Hb Hlt. cbn [CPUSet.parse_loop].
  rewrite (parse_body_number MaxCpus MaxCpus_range _ _ _ a _ _ Ha (no_digit_ahead_hyphen _)).
  rewrite parse_switch_hyphen. change (negb (-1 =? -1)) with false. cbv iota.
  pose proof (parse_body_number MaxCpus MaxCpus_range
                (CPUSet.parse_loop MaxCpus k) false (decimal a) b [] m Hb
                no_digit_ahead_nil) as Hbody.
  rewrite app_nil_r in Hbody. rewrite Hbody, parse_switch_nil.
  pose proof (cpu_number_nonneg MaxCpus a Ha).
  destruct (Z.eqb_spec (-1) (decimal a)); [lia|].
  destruct (Z.gtb_spec (decimal a) (decimal b)); [reflexivity|lia].
Qed.

Lemma parse_loop_stray k at_str ds c r m :
  cpu_number MaxCpus ds -> isdigit c = false ->
  c <> NUL -> c <> ","%char -> c <> "-"%char ->
  CPUSet.parse_loop MaxCpus (S k) at_str (-1) (ds ++ c :: r) m =
  Throw (Exn invalid_argument
           (CPUSet.msg (CPUSet.str "Invalid character '" ++
                        std_to_string (CPUSet.char_to_int c) ++
                        CPUSet.str "' in cpuset string"))).
Proof.
  intros Hds Hc Hnul Hcomma Hhyphen. cbn [CPUSet.parse_loop].
  rewrite (parse_body_number MaxCpus MaxCpus_range _ _ _ ds (c :: r) _ Hds Hc).
  unfold CPUSet.parse_switch. cbn [cur].
  apply Ascii.eqb_neq in Hnul, Hcomma, Hhyphen. rewrite Hnul, Hcomma, Hhyphen.
  reflexivity.
Qed.

(** X23.  The class [parse] throws, behind any complete items: a comma at
    the end, a range without its end and a stray character give
    invalid_argument; a number of [MaxCpus] or more and a negative number
    give range_error; a range that runs backwards gives out_of_range. *)
Theorem parse_error_classes (its : list item) :
  Forall (valid_item MaxCpus) its ->
  (its <> [] ->
   CPUSet.parse MaxCpus (items_prefix its) =
   Throw (Exn invalid_argument "Missing CPU number in cpuset string")) /\
  (forall a,
      cpu_number MaxCpus a ->
      CPUSet.parse MaxCpus (items_prefix its ++ a ++ ["-"%char]) =
      Throw (Exn invalid_argument "Missing end of range in cpuset string")) /\
  (forall ds c r,
      cpu_number MaxCpus ds -> isdigit c = false ->
      c <> NUL -> c <> ","%char -> c <> "-"%char ->
      throws invalid_argument (CPUSet.parse MaxCpus (items_prefix its ++ ds ++ c :: r))) /\
  (forall ds,
      all_digits ds -> ds <> [] -> MaxCpus <= decimal ds ->
      throws range_error (CPUSet.parse MaxCpus (items_prefix its ++ ds))) /\
  (forall ds,
      all_digits ds -> ds <> [] -> 1 <= decimal ds <= 2 ^ 64 - MaxCpus ->
      throws range_error (CPUSet.parse MaxCpus (items_prefix its ++ "-"%char :: ds))) /\
  (forall a b,
      cpu_number MaxCpus a -> cpu_number MaxCpus b -> decimal b < decimal a ->
      throws out_of_range (CPUSet.parse MaxCpus (items_prefix its ++ a ++ "-"%char :: b))).
Proof.
  intros Hv. split; [|split; [|split; [|split; [|split]]]].
  - intros Hne. destruct (parse_prefix its [] Hv) as (k & Hk & Hp).
    rewrite app_nil_r in Hp. rewrite Hp.
    destruct its as [|it its]; [congruence|].
    destruct k as [|k]; [cbn [length] in Hk; lia|]. reflexivity.
  - intros a Ha. destruct (parse_prefix its (a ++ ["-"%char]) Hv) as (k & Hk & ->).
    rewrite length_app in Hk. cbn [length] in Hk.
    destruct k as [|[|k]]; [lia|lia|]. apply parse_loop_open_range. exact Ha.
  - intros ds c r Hds Hc Hnul Hcomma Hhyphen.
    destruct (parse_prefix its (ds ++ c :: r) Hv) as (k & Hk & ->).
    destruct k as [|k]; [lia|].
    rewrite parse_loop_stray by assumption. eexists. reflexivity.
  - intros ds Hds Hne Hbig. destruct (parse_prefix its ds Hv) as (k & Hk & ->).
    destruct k as [|k]; [lia|].
    rewrite parse_loop_too_large by assumption. eexists. reflexivity.
  - intros ds Hds Hne Hneg.
    destruct (parse_prefix its ("-"%char :: ds) Hv) as (k & Hk & ->).
    destruct k as [|k]; [lia|].
    rewrite parse_loop_minus by assumption. eexists. reflexivity.
  - intros a b Ha Hb Hlt.
    destruct (parse_prefix its (a ++ "-"%char :: b) Hv) as (k & Hk & ->).
    rewrite length_app in Hk. cbn [length] in Hk.
    destruct k as [|[|k]]; [lia|lia|].
    rewrite parse_loop_reversed_range by assumption. eexists. reflexivity.
Qed.

Lemma parse_too_large ds :
  all_digits ds -> ds <> [] -> MaxCpus <= decimal ds ->
  throws range_error (CPUSet.parse MaxCpus ds).
Proof.
  intros Hds Hne Hbig. unfold CPUSet.parse.
  rewrite parse_loop_too_large by assumption. eexists. reflexivity.
Qed.

Lemma parse_reversed a b :
  cpu_number MaxCpus a -> cpu_number MaxCpus b -> decimal b < decimal a ->
  throws out_of_range (CPUSet.parse MaxCpus (a ++ "-"%char :: b)).
Proof.
  intros Ha Hb Hlt. unfold CPUSet.parse.
  assert (exists k, S (length (a ++ "-"%char :: b)) = S (S k)) as [k ->].
  { rewrite length_app. cbn [length]. exists (length a + length b)%nat. lia. }
  rewrite parse_loop_reversed_range by assumption.
  eexists. reflexivity.
Qed.

(** *** [case 'c'] *)

Lemma option_c_Ok optarg gArgs w set :
  CPUSet.parse MaxCpus (CPUSet.str optarg) = Ok set ->
  option_c MaxCpus optarg gArgs w =
  (Ok (Continue
         (if negb (CPUSet.empty MaxCpus set)
          then Args (CPUSet.or (aSet gArgs) set) (mFrequency gArgs) (mIsolate gArgs)
          else gArgs)), w).
Proof.
  intros H. unfold option_c, try_catch, bind, CPUSet_of_string, lift. rewrite H.
  reflexivity.
Qed.

Lemma option_c_Throw optarg gArgs w e :
  CPUSet.parse MaxCpus (CPUSet.str optarg) = Throw e ->
  option_c MaxCpus optarg gArgs w =
  if catches invalid_argument (exn_cls e)
  then (Ok (Exited 1),
        with_stderr (("Invalid CPU specification: " +:+ what e) :: stderr w) w)
  else (Throw e, w).
Proof.
  intros H. unfold option_c, try_catch, bind, CPUSet_of_string, lift. rewrite H.
  cbn [fst snd]. destruct (catches invalid_argument (exn_cls e)); reflexivity.
Qed.

(** X24.  The option -c: a list form adds its CPUs to the set; a text
    for which [parse] throws invalid_argument ends the process with the
    message and the code 1; range_error and out_of_range (a CPU number of
    [MaxCpus] or more, a negative number, a range that runs backwards) are
    not taken by the handler and leave [main]. *)
Theorem option_c_spec (gArgs : RunExclArgs) (w : World) :
  (forall its,
      Forall (valid_item MaxCpus) its ->
      option_c MaxCpus (CPUSet.msg (render its)) gArgs w =
      (Ok (Continue (Args (CPUSet.or (aSet gArgs) (mask_of its))
                          (mFrequency gArgs) (mIsolate gArgs))), w)) /\
  (forall optarg e,
      CPUSet.parse MaxCpus (CPUSet.str optarg) = Throw e ->
      exn_cls e = invalid_argument ->
      option_c MaxCpus optarg gArgs w =
      (Ok (Exited 1),
       with_stderr (("Invalid CPU specification: " +:+ what e) :: stderr w) w)) /\
  (forall optarg e,
      CPUSet.parse MaxCpus (CPUSet.str optarg) = Throw e ->
      exn_cls e = range_error \/ exn_cls e = out_of_range ->
      option_c MaxCpus optarg gArgs w = (Throw e, w)) /\
  (forall ds,
      all_digits ds -> ds <> [] -> MaxCpus <= decimal ds ->
      throws range_error (option_c MaxCpus (CPUSet.msg ds) gArgs w).1) /\
  (forall a b,
      cpu_number MaxCpus a -> cpu_number MaxCpus b -> decimal b < decimal a ->
      throws out_of_range
        (option_c MaxCpus (CPUSet.msg (a ++ "-"%char :: b)) gArgs w).1).
Proof.
  split; [|split; [|split; [|split]]].
  - intros its Hv.
    pose proof (parse_render MaxCpus MaxCpus_range its Hv) as Hp.
    rewrite (option_c_Ok _ gArgs w (mask_of its)) by (rewrite str_msg; exact Hp).
    destruct (CPUSet.empty MaxCpus (mask_of its)) eqn:He; cbn [negb]; [|reflexivity].
    apply (empty_iff_zero MaxCpus) in He;
      [|apply (parse_valid MaxCpus MaxCpus_range _ _ Hp)].
    rewrite He. unfold CPUSet.or, CPUSet.zero. rewrite Z.lor_0_r.
    destruct gArgs. reflexivity.
  - intros optarg e Hp Hc. rewrite (option_c_Throw _ gArgs w e Hp), Hc. reflexivity.
  - intros optarg e Hp Hc. rewrite (option_c_Throw _ gArgs w e Hp).
    destruct Hc as [-> | ->]; reflexivity.
  - intros ds Hds Hne Hbig.
    destruct (parse_too_large ds Hds Hne Hbig) as (m & Hp).
    rewrite (option_c_Throw (CPUSet.msg ds) gArgs w _)
      by (rewrite str_msg; exact Hp).
    eexists. reflexivity.
  - intros a b Ha Hb Hlt.
    destruct (parse_reversed a b Ha Hb Hlt) as (m & Hp).
    rewrite (option_c_Throw (CPUSet.msg (a ++ "-"%char :: b)) gArgs w _)
      by (rewrite str_msg; exact Hp).
    eexists. reflexivity.
Qed.

End ErrorClasses.

(** ** Input the stream form refuses *)
Section StreamRefuses.

Variable MaxCpus : Z.
Hypothesis MaxCpus_range : CPU_SETSIZE <= MaxCpus <= INT_MAX.

Lemma extract_loop_prefix its : forall fuel cs rest _set,
  Forall (valid_item MaxCpus) its ->
  (total_iterations its <= fuel)%nat ->
  extract_loop MaxCpus fuel (-1) (good_stream cs (items_prefix its ++ rest)) _set =
  extract_loop MaxCpus (fuel - total_iterations its) (-1)
    (good_stream (rev (items_prefix its) ++ cs) rest) (fold_left add_item its _set).
Proof.
  induction its as [|it its IH]; intros fuel cs rest _set Hv Hfuel.
  - cbn. rewrite Nat.sub_0_r. reflexivity.
  - inversion Hv as [|? ? Hit Hits]; subst.
    cbn [total_iterations fold_right items_prefix flat_map fold_left] in *.
    fold (items_prefix its). fold (total_iterations its) in *.
    replace fuel with (iterations it + (fuel - iterations it))%nat at 1 by lia.
    rewrite <- !app_assoc. cbn [app].
    rewrite (extract_item_comma MaxCpus MaxCpus_range it cs _ _set _ Hit).
    rewrite IH by (assumption || lia).
    replace (fuel - iterations it - total_iterations its)%nat
      with (fuel - (iterations it + total_iterations its))%nat by lia.
    rewrite !rev_app_distr. cbn [rev app]. rewrite <- !app_assoc. reflexivity.
Qed.

Lemma sentry_no_space s :
  s <> [] -> isspace (cur s) = false ->
  ios.sentry false (ios.of_chars s) = (true, good_stream [] s).
Proof.
  intros Hne Hsp. destruct s as [|c s]; [congruence|]. cbn [cur] in Hsp.
  unfold ios.sentry, ios.of_chars. cbn. rewrite Hsp. reflexivity.
Qed.

Lemma items_prefix_head it its rest :
  valid_item MaxCpus it ->
  exists d tl, items_prefix (it :: its) ++ rest = d :: tl /\ isdigit d = true.
Proof.
  intros Hit. cbn [items_prefix flat_map].
  assert (exists d tl, render_item it = d :: tl /\ isdigit d = true) as (d & tl & Hr & Hd).
  { destruct it as [a|a b]; cbn [valid_item render_item] in *.
    - destruct Hit as (Hds & Hne & _). destruct a as [|d a]; [congruence|].
      inversion Hds; subst. eauto.
    - destruct Hit as ((Hds & Hne & _) & _). destruct a as [|d a]; [congruence|].
      inversion Hds; subst. cbn [app]. eauto. }
  rewrite Hr. cbn [app]. eauto.
Qed.

(** The operator on complete items and what follows them. *)
Lemma extract_prefix_rest its rest t :
  Forall (valid_item MaxCpus) its ->
  rest <> [] \/ its <> [] -> isspace (cur (items_prefix its ++ rest)) = false ->
  exists k,
    (length rest < k)%nat /\
    extract MaxCpus (ios.of_chars (items_prefix its ++ rest)) t =
    match extract_loop MaxCpus k (-1) (good_stream (rev (items_prefix its)) rest)
            (mask_of its) with
    | Some (ins, _set) => Some (ins, if negb (ios.fail ins) then _set else t)
    | None => None
    end.
Proof.
  intros Hv Hne Hsp. pose proof (total_iterations_le MaxCpus its Hv) as Hle.
  exists (S (length (items_prefix its ++ rest)) - total_iterations its)%nat.
  rewrite length_app in *. split; [lia|].
  unfold extract. rewrite sentry_no_space; [| |exact Hsp].
  2:{ destruct Hne as [Hne|Hne].
      - destruct (items_prefix its); [exact Hne|discriminate].
      - destruct its as [|it its]; [congruence|]. inversion Hv; subst.
        destruct (items_prefix_head it its rest) as (d & tl & -> & _);
          [assumption|discriminate]. }
  cbn [pending good_stream].
  rewrite extract_loop_prefix by (assumption || (rewrite length_app; lia)).
  rewrite length_app, app_nil_r. reflexivity.
Qed.

Lemma read_int_at_end cs :
  ios.read_int (good_stream cs []) =
  (IStream cs [] true true false, 0).
Proof. reflexivity. Qed.

Lemma read_int_digits_eof cs ds :
  all_digits ds -> ds <> [] ->
  ios.read_int (good_stream cs ds) =
  if decimal ds >? INT_MAX
  then (IStream (rev ds ++ cs) [] true true false, INT_MAX)
  else (eof_stream (rev ds ++ cs), decimal ds).
Proof.
  intros Hds Hne. unfold ios.read_int, ios.sentry, good_stream.
  cbn [ios.good eofbit failbit badbit negb andb consumed pending].
  destruct ds as [|d ds]; [congruence|]. inversion Hds as [|? ? Hd Hds']; subst.
  rewrite (ws_digit cs d _ Hd).
  cbn [pending consumed eofbit failbit badbit].
  rewrite (isdigit_not d "-" Hd eq_refl), (isdigit_not d "+" Hd eq_refl).
  pose proof (span_digits_app (d :: ds) [] Hds no_digit_ahead_nil) as Hspan.
  rewrite app_nil_r in Hspan. rewrite Hspan.
  pose proof (decimal_nonneg _ Hds) as Hnn.
  unfold INT_MIN, INT_MAX in *.
  destruct (Z.ltb_spec (decimal (d :: ds)) (- 2 ^ 31)); [lia|].
  destruct (Z.gtb_spec (decimal (d :: ds)) (2 ^ 31 - 1)); reflexivity.
Qed.

Lemma read_int_minus_eof cs ds :
  all_digits ds -> ds <> [] ->
  ios.read_int (good_stream cs ("-"%char :: ds)) =
  if - decimal ds <? INT_MIN
  then (IStream (rev ds ++ "-"%char :: cs) [] true true false, INT_MIN)
  else (eof_stream (rev ds ++ "-"%char :: cs), - decimal ds).
Proof.
  intros Hds Hne. unfold ios.read_int, ios.sentry, good_stream.
  cbn [ios.good eofbit failbit badbit negb andb consumed pending].
  change (ios.ws cs ("-"%char :: ds)) with (cs, "-"%char :: ds).
  cbn [pending consumed eofbit failbit badbit].
  change (Ascii.eqb "-" "-") with true. cbv iota.
  pose proof (span_digits_app ds [] Hds no_digit_ahead_nil) as Hspan.
  rewrite app_nil_r in Hspan. rewrite Hspan.
  pose proof (decimal_nonneg _ Hds) as Hnn.
  destruct ds as [|d ds]; [congruence|].
  unfold INT_MIN, INT_MAX in *.
  destruct (Z.ltb_spec (- decimal (d :: ds)) (- 2 ^ 31)); [reflexivity|].
  destruct (Z.gtb_spec (- decimal (d :: ds)) (2 ^ 31 - 1)); [lia|].
  reflexivity.
Qed.

(** X25.  Behind any complete items, [operator>>] sets failbit and leaves
    the target as it was when the input ends behind a comma or behind the
    hyphen of a range, when a number is [MaxCpus] or more (beyond int as
    well), when a number other than 0 has a minus sign, and when a range
    runs backwards. *)
Theorem stream_refuses (its : list item) (t : CPUSet) :
  Forall (valid_item MaxCpus) its ->
  let refused_input (s : list ascii) :=
    exists ins', extract MaxCpus (ios.of_chars s) t = Some (ins', t) /\
                 ios.fail ins' = true in
  (its <> [] -> refused_input (items_prefix its)) /\
  (forall a, cpu_number MaxCpus a -> refused_input (items_prefix its ++ a ++ ["-"%char])) /\
  (forall ds, all_digits ds -> ds <> [] -> MaxCpus <= decimal ds ->
              refused_input (items_prefix its ++ ds)) /\
  (forall ds, all_digits ds -> ds <> [] -> 1 <= decimal ds ->
              refused_input (items_prefix its ++ "-"%char :: ds)) /\
  (forall a b, cpu_number MaxCpus a -> cpu_number MaxCpus b -> decimal b < decimal a ->
               refused_input (items_prefix its ++ a ++ "-"%char :: b)).
Proof.
  intros Hv refused_input. unfold refused_input.
  assert (forall rest, rest <> [] \/ its <> [] ->
            (forall it its', its = it :: its' -> True) ->
            (its = [] -> isspace (cur rest) = false) ->
            isspace (cur (items_prefix its ++ rest)) = false) as Hsp.
  { intros rest _ _ Hrest. destruct its as [|it its']; [apply Hrest; reflexivity|].
    inversion Hv; subst.
    destruct (items_prefix_head it its' rest) as (d & tl & -> & Hd); [assumption|].
    apply isdigit_not_space. exact Hd. }
  assert (forall ds : list ascii, all_digits ds -> ds <> [] -> isspace (cur ds) = false)
    as Hdsp.
  { intros ds Hds Hne. destruct ds as [|d ds]; [congruence|]. inversion Hds; subst.
    apply isdigit_not_space. assumption. }
  split; [|split; [|split; [|split]]].
  - intros Hne.
    destruct (extract_prefix_rest its [] t Hv (or_intror Hne)) as (k & Hk & Hex).
    { apply Hsp; [right; exact Hne|auto|intros; congruence]. }
    rewrite app_nil_r in Hex. rewrite Hex.
    destruct k as [|k]; [cbn [length] in Hk; lia|].
    cbn [extract_loop ios.good good_stream eofbit failbit badbit negb andb].
    unfold extract_body. rewrite read_int_at_end. cbn. eexists. split; reflexivity.
  - intros a Ha.
    destruct (extract_prefix_rest its (a ++ ["-"%char]) t Hv) as (k & Hk & Hex).
    { left. destruct a; discriminate. }
    { apply Hsp; [left; destruct a; discriminate|auto|intros _].
      destruct Ha as (Hds & Hne & _). destruct a as [|d a]; [congruence|].
      inversion Hds; subst. apply isdigit_not_space. assumption. }
    rewrite Hex. rewrite length_app in Hk. cbn [length] in Hk.
    destruct k as [|[|k]]; [lia|lia|].
    cbn [extract_loop ios.good good_stream eofbit failbit badbit negb andb].
    rewrite (extract_body_number MaxCpus MaxCpus_range _ _ _ a "-"%char [] _ Ha eq_refl).
    cbv zeta. change (Ascii.eqb "-" "-") with true. cbv iota.
    change (negb (-1 =? -1)) with false. cbv iota.
    cbn [extract_loop ios.good good_stream eofbit failbit badbit negb andb].
    unfold extract_body. rewrite read_int_at_end. cbn. eexists. split; reflexivity.
  - intros ds Hds Hne Hbig.
    destruct (extract_prefix_rest its ds t Hv (or_introl Hne)) as (k & Hk & Hex).
    { apply Hsp; [left; exact Hne|auto|intros _; apply Hdsp; assumption]. }
    rewrite Hex. destruct k as [|k]; [lia|].
    cbn [extract_loop ios.good good_stream eofbit failbit badbit negb andb].
    unfold extract_body. rewrite (read_int_digits_eof _ ds Hds Hne).
    destruct (decimal ds >? INT_MAX).
    + cbn. eexists. split; reflexivity.
    + cbn [ios.fail eof_stream failbit badbit orb].
      destruct (Z.ltb_spec (decimal ds) 0); cbn [orb].
      * cbn. eexists. split; reflexivity.
      * destruct (Z.geb_spec (decimal ds) MaxCpus); [|lia].
        cbn. eexists. split; reflexivity.
  - intros ds Hds Hne Hneg.
    destruct (extract_prefix_rest its ("-"%char :: ds) t Hv) as (k & Hk & Hex).
    { left. discriminate. }
    { apply Hsp; [left; discriminate|auto|intros _; reflexivity]. }
    rewrite Hex. destruct k as [|k]; [lia|].
    cbn [extract_loop ios.good good_stream eofbit failbit badbit negb andb].
    unfold extract_body. rewrite (read_int_minus_eof _ ds Hds Hne).
    destruct (- decimal ds <? INT_MIN).
    + cbn. eexists. split; reflexivity.
    + cbn [ios.fail eof_stream failbit badbit orb].
      destruct (Z.ltb_spec (- decimal ds) 0); [|lia]. cbn [orb].
      cbn. eexists. split; reflexivity.
  - intros a b Ha Hb Hlt.
    destruct (extract_prefix_rest its (a ++ "-"%char :: b) t Hv) as (k & Hk & Hex).
    { left. destruct a; discriminate. }
    { apply Hsp; [left; destruct a; discriminate|auto|intros _].
      destruct Ha as (Hds & Hne & _). destruct a as [|d a]; [congruence|].
      inversion Hds; subst. apply isdigit_not_space. assumption. }
    rewrite Hex. rewrite length_app in Hk. cbn [length] in Hk.
    assert (1 <= length a)%nat.
    { destruct Ha as (_ & Hne & _). destruct a; [congruence|cbn; lia]. }
    assert (1 <= length b)%nat.
    { destruct Hb as (_ & Hne & _). destruct b; [congruence|cbn; lia]. }
    destruct k as [|[|[|k]]]; [lia|lia|lia|].
    cbn [extract_loop ios.good good_stream eofbit failbit badbit negb andb].
    rewrite (extract_body_number MaxCpus MaxCpus_range _ _ _ a "-"%char b _ Ha eq_refl).
    cbv zeta. change (Ascii.eqb "-" "-") with true. cbv iota.
    change (negb (-1 =? -1)) with false. cbv iota.
    cbn [extract_loop ios.good good_stream eofbit failbit badbit negb andb].
    rewrite (extract_body_number_eof MaxCpus MaxCpus_range _ _ _ b _ Hb).
    cbv zeta. pose proof (cpu_number_nonneg MaxCpus a (proj1 (conj Ha I))).
    destruct (Z.eqb_spec (-1) (decimal a)); [lia|].
    destruct (Z.gtb_spec (decimal a) (decimal b)); [|lia].
    cbn. eexists. split; reflexivity.
Qed.

End StreamRefuses.

(** ** The size of the sets *)

Lemma fgets_chars_line ds : forall n r,
  Forall (fun c => Ascii.eqb c newline = false) ds -> (length ds < n)%nat ->
  fgets_chars n (ds ++ newline :: r) = ds ++ [newline].
Proof.
  induction ds as [|d ds IH]; intros n r Hds Hn;
    (destruct n as [|n]; [cbn [length] in Hn; lia|]).
  - reflexivity.
  - inversion Hds as [|? ? Hd Hds']; subst. cbn [app fgets_chars]. rewrite Hd.
    rewrite IH; [reflexivity|assumption|cbn [length] in Hn; lia].
Qed.

Lemma fgets_chars_whole ds : forall n,
  Forall (fun c => Ascii.eqb c newline = false) ds -> (length ds <= n)%nat ->
  fgets_chars n ds = ds.
Proof.
  induction ds as [|d ds IH]; intros n Hds Hn; [destruct n; reflexivity|].
  destruct n as [|n]; [cbn [length] in Hn; lia|].
  inversion Hds as [|? ? Hd Hds']; subst. cbn [fgets_chars]. rewrite Hd.
  rewrite IH; [reflexivity|assumption|cbn [length] in Hn; lia].
Qed.

Lemma fgets_chars_stray ds c : forall n r,
  Forall (fun c => Ascii.eqb c newline = false) ds -> (length ds < n)%nat ->
  exists r', fgets_chars n (ds ++ c :: r) = ds ++ c :: r'.
Proof.
  induction ds as [|d ds IH]; intros n r Hds Hn;
    (destruct n as [|n]; [cbn [length] in Hn; lia|]).
  - cbn [app fgets_chars]. destruct (Ascii.eqb c newline); eauto.
  - inversion Hds as [|? ? Hd Hds']; subst. cbn [app fgets_chars]. rewrite Hd.
    destruct (IH n r Hds') as (r' & ->); [cbn [length] in Hn; lia|]. eauto.
Qed.

Lemma digits_not_newline ds :
  all_digits ds -> Forall (fun c => Ascii.eqb c newline = false) ds.
Proof.
  intros H. eapply List.Forall_impl; [|exact H]. intros c Hc.
  apply isdigit_not; [exact Hc|reflexivity].
Qed.

Lemma strtol_digits ds rest :
  all_digits ds -> ds <> [] -> no_digit_ahead rest ->
  strtol (ds ++ rest) = (Z.min (decimal ds) LONG_MAX, rest).
Proof.
  intros Hds Hne Hrest. unfold strtol.
  destruct ds as [|d ds]; [congruence|]. inversion Hds as [|? ? Hd Hds']; subst.
  cbn [app]. rewrite (skip_space_digit d _ Hd).
  rewrite (isdigit_not d "-" Hd eq_refl), (isdigit_not d "+" Hd eq_refl).
  change (d :: ds ++ rest) with ((d :: ds) ++ rest).
  rewrite (span_digits_app _ _ Hds Hrest).
  pose proof (decimal_nonneg _ Hds) as Hnn. unfold LONG_MAX, LONG_MIN.
  destruct (Z.gtb_spec (decimal (d :: ds)) (2 ^ 63 - 1)).
  - rewrite Z.min_r by lia. reflexivity.
  - destruct (Z.ltb_spec (decimal (d :: ds)) (- 2 ^ 63)); [lia|].
    rewrite Z.min_l by lia. reflexivity.
Qed.

Lemma getMaxCPUs_clamp n :
  getMaxCPUs (Some n) = Z.max CPU_SETSIZE (Z.min n INT_MAX).
Proof.
  unfold getMaxCPUs, CPU_SETSIZE, INT_MAX.
  destruct (Z.gtb_spec n (2 ^ 31 - 1)).
  - rewrite Z.min_r by lia. destruct (Z.gtb_spec (2 ^ 31 - 1) 1024); lia.
  - rewrite Z.min_l by lia. destruct (Z.gtb_spec n 1024); lia.
Qed.

(** X27.  The size of the sets is between CPU_SETSIZE and INT_MAX whatever
    kernel_max holds, so the sets of every run have room for the CPUs 0 to
    1023.  A number followed by a newline or by the end of the file is
    taken as the size itself, raised to CPU_SETSIZE and cut at INT_MAX; a
    number followed by anything else is ignored, as is a file that cannot
    be opened or is empty. *)
Theorem getMaxCPUs_from_file_spec :
  (forall kernel_max,
      CPU_SETSIZE <= getMaxCPUs_from_file kernel_max <= INT_MAX) /\
  (forall ds r,
      all_digits ds -> ds <> [] -> (length ds < 127)%nat ->
      getMaxCPUs_from_file (Some (ds ++ newline :: r)) =
      Z.max CPU_SETSIZE (Z.min (decimal ds) INT_MAX)) /\
  (forall ds,
      all_digits ds -> ds <> [] -> (length ds <= 127)%nat ->
      getMaxCPUs_from_file (Some ds) =
      Z.max CPU_SETSIZE (Z.min (decimal ds) INT_MAX)) /\
  (forall ds c r,
      all_digits ds -> ds <> [] -> (length ds < 127)%nat ->
      isdigit c = false -> c <> newline -> c <> NUL ->
      getMaxCPUs_from_file (Some (ds ++ c :: r)) = CPU_SETSIZE) /\
  getMaxCPUs_from_file None = CPU_SETSIZE /\
  getMaxCPUs_from_file (Some []) = CPU_SETSIZE.
Proof.
  split; [|split; [|split; [|split; [|split; reflexivity]]]].
  - intros [content|]; [|apply getMaxCPUs_range].
    unfold getMaxCPUs_from_file. destruct (fgets 128 content); [|apply getMaxCPUs_range].
    destruct (strtol l) as [n end_].
    destruct (Ascii.eqb newline (cur end_) || Ascii.eqb NUL (cur end_));
      apply getMaxCPUs_range.
  - intros ds r Hds Hne Hlen. unfold getMaxCPUs_from_file, fgets.
    destruct ds as [|d ds]; [congruence|]. cbn [app].
    change (d :: ds ++ newline :: r) with ((d :: ds) ++ newline :: r).
    rewrite fgets_chars_line by (first [apply digits_not_newline; assumption | cbn in *; lia]).
    rewrite (strtol_digits _ [newline] Hds Hne eq_refl). cbn [cur].
    rewrite Ascii.eqb_refl. cbn [orb]. rewrite getMaxCPUs_clamp.
    unfold LONG_MAX, INT_MAX. lia.
  - intros ds Hds Hne Hlen. unfold getMaxCPUs_from_file, fgets.
    destruct ds as [|d ds]; [congruence|].
    rewrite fgets_chars_whole by (first [apply digits_not_newline; assumption | cbn in *; lia]).
    pose proof (strtol_digits (d :: ds) [] Hds Hne eq_refl) as Hs.
    rewrite app_nil_r in Hs. rewrite Hs. cbn [cur].
    assert (Ascii.eqb newline NUL || Ascii.eqb NUL NUL = true) as -> by reflexivity.
    rewrite getMaxCPUs_clamp. unfold LONG_MAX, INT_MAX. lia.
  - intros ds c r Hds Hne Hlen Hc Hnl Hnul. unfold getMaxCPUs_from_file, fgets.
    destruct ds as [|d ds]; [congruence|]. cbn [app].
    change (d :: ds ++ c :: r) with ((d :: ds) ++ c :: r).
    destruct (fgets_chars_stray (d :: ds) c (128 - 1) r) as (r' & ->);
      [apply digits_not_newline; assumption|cbn in *; lia|].
    rewrite (strtol_digits _ (c :: r') Hds Hne Hc). cbn [cur].
    assert (Ascii.eqb newline c = false) as -> by (apply Ascii.eqb_neq; congruence).
    assert (Ascii.eqb NUL c = false) as -> by (apply Ascii.eqb_neq; congruence).
    reflexivity.
Qed.

(** *** Runs of the further properties *)

Lemma affects_spec_witness :
  affects 1024 (S (length (affected_cpus_text [0; 1])))
    (ios.of_chars (affected_cpus_text [0; 1])) 2 =
  existsb (CPUSet.is_set 2) [0; 1].
Proof.
  apply (affects_spec 1024 default_MaxCpus_range [0; 1] 2).
  repeat constructor; lia.
Defined.


Lemma example_slice_ready (ledger_text : string) (reply : string -> string) :
  slice_ready 1024 (example_world ledger_text [] reply) 255.
Proof.
  split; [exists "cpuset"; split; vm_compute; reflexivity|].
  split; [apply not_elem_of_empty|].
  split; [unfold example_world; cbn [dirs]; apply elem_of_singleton; reflexivity|].
  split; [apply not_elem_of_empty|].
  split; [exists "cpuset"; split; vm_compute; reflexivity|].
  split; [apply not_elem_of_empty|].
  apply holds_effective_0_7, not_elem_of_empty.
Qed.

Lemma main_rejects_foreign_cpus_witness :
  main 1024 true true (Args 256 0 false) (example_world "4-5" [] accepted) =
  (Exit 1,
   with_stderr (("cpuset must be in '" +:+ text_of 1024 255 +:+ "'.")
                  :: stderr (example_world "4-5" [] accepted))
     (example_world "4-5" [] accepted)).
Proof.
  apply (main_rejects_foreign_cpus 1024 default_MaxCpus_range (Args 256 0 false)
           (example_world "4-5" [] accepted) 255).
  - apply example_slice_ready.
  - vm_compute; reflexivity.
  - exists 8. split; vm_compute; reflexivity.
Defined.

Lemma main_success_witness :
  let w := example_world "4-5" [] accepted in
  let g := group_path 1024 6 in
  (exists w',
    main 1024 true true (Args 6 0 false) w = (Exit 0, w') /\
    dirs w' = dirs w /\
    holds_mask 1024 w' cpuset_cpus_exclusive
      (if CPUSet.eq (Z.ldiff 48 6) CPUSet.zero then CPUSet.or 48 6 else Z.ldiff 48 6) /\
    files w' !! cpuset_cpus_exclusive =
      Some (text_of 1024
              (if CPUSet.eq (Z.ldiff 48 6) CPUSet.zero then CPUSet.or 48 6
               else Z.ldiff 48 6)) /\
    stderr w' = stderr w /\
    rev (written w') =
      rev (written w) ++
      [(cpuset_cpus_exclusive, text_of 1024 (CPUSet.or 48 6));
       (g +:+ "/cpuset.cpus", text_of 1024 6);
       (g +:+ "/cpuset.cpus.partition", "root")] ++
      (if CPUSet.eq (Z.ldiff 48 6) CPUSet.zero then []
       else [(cpuset_cpus_exclusive, text_of 1024 (Z.ldiff 48 6))])) /\
  CPUSet.eq (Z.ldiff 48 6) CPUSet.zero = false /\
  text_of 1024 (CPUSet.or 48 6) = "1-2,4-5" /\
  text_of 1024 (Z.ldiff 48 6) = "4-5".
Proof.
  split; [|vm_compute; repeat split; reflexivity].
  apply (main_success 1024 default_MaxCpus_range 6 48 255
           (example_world "4-5" [] accepted) [1] []).
  - apply example_slice_ready.
  - apply valid_small. lia.
  - vm_compute; reflexivity.
  - apply subset_6_255.
  - apply holds_ledger_4_5, not_elem_of_empty.
  - apply group_1_2_fresh.
  - apply not_elem_of_empty.
  - apply not_elem_of_empty.
  - apply not_elem_of_empty.
  - vm_compute; reflexivity.
  - vm_compute; reflexivity.
  - vm_compute. discriminate.
  - repeat constructor; vm_compute; discriminate.
  - vm_compute; reflexivity.
Defined.

Lemma valid_item_0 : Forall (valid_item 1024) [Single (CPUSet.str "0")].
Proof.
  constructor; [|constructor]. apply number_small; [exact digits_0|discriminate|].
  vm_compute; reflexivity.
Qed.

Lemma parse_error_classes_witness :
  let its := [Single (CPUSet.str "0")] in
  (its <> [] ->
   CPUSet.parse 1024 (items_prefix its) =
   Throw (Exn invalid_argument "Missing CPU number in cpuset string")) /\
  (forall a,
      cpu_number 1024 a ->
      CPUSet.parse 1024 (items_prefix its ++ a ++ ["-"%char]) =
      Throw (Exn invalid_argument "Missing end of range in cpuset string")) /\
  (forall ds c r,
      cpu_number 1024 ds -> isdigit c = false ->
      c <> NUL -> c <> ","%char -> c <> "-"%char ->
      throws invalid_argument (CPUSet.parse 1024 (items_prefix its ++ ds ++ c :: r))) /\
  (forall ds,
      all_digits ds -> ds <> [] -> 1024 <= decimal ds ->
      throws range_error (CPUSet.parse 1024 (items_prefix its ++ ds))) /\
  (forall ds,
      all_digits ds -> ds <> [] -> 1 <= decimal ds <= 2 ^ 64 - 1024 ->
      throws range_error (CPUSet.parse 1024 (items_prefix its ++ "-"%char :: ds))) /\
  (forall a b,
      cpu_number 1024 a -> cpu_number 1024 b -> decimal b < decimal a ->
      throws out_of_range (CPUSet.parse 1024 (items_prefix its ++ a ++ "-"%char :: b))).
Proof.
  apply (parse_error_classes 1024 default_MaxCpus_range [Single (CPUSet.str "0")]).
  exact valid_item_0.
Defined.

Lemma stream_refuses_witness :
  let its := [Single (CPUSet.str "0")] in
  let refused_input (s : list ascii) :=
    exists ins', extract 1024 (ios.of_chars s) 5 = Some (ins', 5) /\
                 ios.fail ins' = true in
  (its <> [] -> refused_input (items_prefix its)) /\
  (forall a, cpu_number 1024 a -> refused_input (items_prefix its ++ a ++ ["-"%char])) /\
  (forall ds, all_digits ds -> ds <> [] -> 1024 <= decimal ds ->
              refused_input (items_prefix its ++ ds)) /\
  (forall ds, all_digits ds -> ds <> [] -> 1 <= decimal ds ->
              refused_input (items_prefix its ++ "-"%char :: ds)) /\
  (forall a b, cpu_number 1024 a -> cpu_number 1024 b -> decimal b < decimal a ->
               refused_input (items_prefix its ++ a ++ "-"%char :: b)).
Proof.
  apply (stream_refuses 1024 default_MaxCpus_range [Single (CPUSet.str "0")] 5).
  exact valid_item_0.
Defined.

Lemma option_c_spec_witness :
  let gArgs := Args 1 0 false in
  let w := example_world "4-5" [] accepted in
  (forall its,
      Forall (valid_item 1024) its ->
      option_c 1024 (CPUSet.msg (render its)) gArgs w =
      (Ok (Continue (Args (CPUSet.or (aSet gArgs) (mask_of its))
                          (mFrequency gArgs) (mIsolate gArgs))), w)) /\
  (forall optarg e,
      CPUSet.parse 1024 (CPUSet.str optarg) = Throw e ->
      exn_cls e = invalid_argument ->
      option_c 1024 optarg gArgs w =
      (Ok (Exited 1),
       with_stderr (("Invalid CPU specification: " +:+ what e) :: stderr w) w)) /\
  (forall optarg e,
      CPUSet.parse 1024 (CPUSet.str optarg) = Throw e ->
      exn_cls e = range_error \/ exn_cls e = out_of_range ->
      option_c 1024 optarg gArgs w = (Throw e, w)) /\
  (forall ds,
      all_digits ds -> ds <> [] -> 1024 <= decimal ds ->
      throws range_error (option_c 1024 (CPUSet.msg ds) gArgs w).1) /\
  (forall a b,
      cpu_number 1024 a -> cpu_number 1024 b -> decimal b < decimal a ->
      throws out_of_range
        (option_c 1024 (CPUSet.msg (a ++ "-"%char :: b)) gArgs w).1).
Proof.
  apply (option_c_spec 1024 default_MaxCpus_range (Args 1 0 false)
           (example_world "4-5" [] accepted)).
Defined.

